(** * bookmeta: query splitting, subject classification and record
      reconciliation

    A shallow embedding of [app/utils.py], [app/nlp.py], [app/classify.py]
    and of the reconciliation part of [app/pipeline.py], followed by the
    properties of the specification that concern them; then further
    properties of the same code, of the schema of [app/db.py], of
    [clc_bucket] of the two user interfaces, and of the scripts
    [scripts/backfill_clc.py] and [scripts/import_from_csv.py].

    Conventions.
    - A Python [str] is a list of Unicode code points ([pystr]); [len],
      slicing and [in] then are the list operations.
    - A Python [float] is a binary64 number ([PrimFloat.float]).
    - [Optional[T]] is [option T]; Python truthiness is written out at each
      test ([truthy], [truthy_opt], ...).
    - The SQLAlchemy session is a value of type [Db.store] threaded through
      the code that uses it; a raised exception is the [Raise] outcome. *)

From Stdlib Require Import ZArith NArith List String Ascii Floats Lia Bool.
From stdpp Require Import base list option countable gmap sorting.
Import ListNotations.

Set Warnings "-inexact-float".

(** ** Python strings *)

Module Py.

Local Open Scope N_scope.

Definition char := N.
Definition pystr := list char.

(** Source literals are written as UTF-8 text and decoded to code points. *)
Fixpoint utf8 (bs : list N) : pystr :=
  match bs with
  | [] => []
  | b :: r =>
    if (b <? 128)%N then b :: utf8 r
    else if (b <? 224)%N then
      match r with
      | b1 :: r' => ((b - 192) * 64 + (b1 - 128))%N :: utf8 r'
      | _ => []
      end
    else if (b <? 240)%N then
      match r with
      | b1 :: b2 :: r' =>
          ((b - 224) * 4096 + (b1 - 128) * 64 + (b2 - 128))%N :: utf8 r'
      | _ => []
      end
    else
      match r with
      | b1 :: b2 :: b3 :: r' =>
          ((b - 240) * 262144 + (b1 - 128) * 4096 + (b2 - 128) * 64
           + (b3 - 128))%N :: utf8 r'
      | _ => []
      end
  end.

Definition u (s : string) : pystr :=
  utf8 (map N_of_ascii (list_ascii_of_string s)).

(** The first code point of a one-character literal. *)
Definition ch (s : string) : char := hd 0 (u s).

Definition str_eqb (a b : pystr) : bool := bool_decide (a = b).
Definition chr_eqb (a b : char) : bool := (a =? b)%N.
Definition one_of (cs : pystr) (c : char) : bool := existsb (chr_eqb c) cs.
Definition in_range (lo hi c : char) : bool := ((lo <=? c) && (c <=? hi))%N.

(** Truthiness of a [str] and of an [Optional[str]]. *)
Definition truthy (s : pystr) : bool :=
  match s with [] => false | _ => true end.
Definition truthy_opt (o : option pystr) : bool :=
  match o with Some s => truthy s | None => false end.
(** [o or ""] *)
Definition or_empty (o : option pystr) : pystr := default [] o.
(** [s or None] for a [str] [s] *)
Definition or_none (s : pystr) : option pystr :=
  if truthy s then Some s else None.

(** [str.isspace] on one code point (CPython's [Py_UNICODE_ISSPACE]); the
    same set is what [str.strip()], [str.split()] and [\s] use. *)
Definition isspace (c : char) : bool :=
  in_range 9 13 c || in_range 28 32 c || chr_eqb c 133 || chr_eqb c 160
  || chr_eqb c 5760 || in_range 8192 8202 c || chr_eqb c 8232
  || chr_eqb c 8233 || chr_eqb c 8239 || chr_eqb c 8287 || chr_eqb c 12288.

Definition ascii_digit : char -> bool := in_range 48 57.
Definition ascii_upper_letter : char -> bool := in_range 65 90.
Definition ascii_lower_letter : char -> bool := in_range 97 122.
Definition ascii_letter (c : char) : bool :=
  ascii_upper_letter c || ascii_lower_letter c.
Definition is_ascii (c : char) : bool := (c <? 128)%N.

(** What the Unicode character database says about the code points above
    ASCII: [str.isdecimal], [str.isalnum], and the case mappings behind
    [str.upper] and [str.lower] (a mapping may produce several code points,
    and lower-casing may look at the neighbours, as for a final sigma).
    The program never inspects the database itself, so the embedding takes
    it as an interface; every general theorem below holds for every
    database. *)
Class UCD := {
  uc_isdecimal : char -> bool;
  uc_isalnum : char -> bool;
  uc_upper : char -> pystr;
  uc_lower : pystr -> char -> pystr -> pystr
}.

Section WithUCD.
Context `{UCD}.

(** [\d] in a [str] pattern. *)
Definition isdecimal (c : char) : bool :=
  if is_ascii c then ascii_digit c else uc_isdecimal c.

(** [\w] in a [str] pattern: alphanumeric or underscore. *)
Definition isword (c : char) : bool :=
  if is_ascii c then ascii_letter c || ascii_digit c || chr_eqb c 95
  else uc_isalnum c.

Definition upper_char (c : char) : pystr :=
  if is_ascii c then [if ascii_lower_letter c then (c - 32)%N else c]
  else uc_upper c.

(** [str.upper()] *)
Definition upper (s : pystr) : pystr := concat (map upper_char s).

Fixpoint lower_go (before s : pystr) : pystr :=
  match s with
  | [] => []
  | c :: r =>
    (if is_ascii c then [if ascii_upper_letter c then (c + 32)%N else c]
     else uc_lower before c r) ++ lower_go (c :: before) r
  end.

(** [str.lower()] *)
Definition lower (s : pystr) : pystr := lower_go [] s.

End WithUCD.

(** [s.lstrip(chars)], [s.rstrip(chars)], [s.strip(chars)] for a character
    predicate; [strip] is [s.strip()]. *)
Fixpoint drop_while (p : char -> bool) (s : pystr) : pystr :=
  match s with
  | c :: r => if p c then drop_while p r else s
  | [] => []
  end.
Definition lstrip_by (p : char -> bool) (s : pystr) : pystr := drop_while p s.
Definition rstrip_by (p : char -> bool) (s : pystr) : pystr :=
  rev (drop_while p (rev s)).
Definition strip_by (p : char -> bool) (s : pystr) : pystr :=
  rstrip_by p (lstrip_by p s).
Definition strip : pystr -> pystr := strip_by isspace.
Definition strip_chars (cs : pystr) : pystr -> pystr := strip_by (one_of cs).

(** [s.startswith(p)] and what follows the prefix. *)
Fixpoint strip_prefix (p s : pystr) : option pystr :=
  match p, s with
  | [], _ => Some s
  | a :: p', b :: s' => if chr_eqb a b then strip_prefix p' s' else None
  | _ :: _, [] => None
  end.
Definition startswith (s p : pystr) : bool :=
  match strip_prefix p s with Some _ => true | None => false end.

(** [s.endswith(p)] *)
Definition endswith (s p : pystr) : bool := startswith (rev s) (rev p).

(** [s[:-1]] *)
Definition drop_last (s : pystr) : pystr := removelast s.

(** [sub in s] for strings. *)
Fixpoint contains (s sub : pystr) : bool :=
  startswith s sub ||
  match s with
  | [] => false
  | _ :: r => contains r sub
  end.

(** [s.replace(old, new)] for a one-character [old]. *)
Definition replace_char (old : char) (new : pystr) (s : pystr) : pystr :=
  concat (map (fun c => if chr_eqb c old then new else [c]) s).

(** [sep.join(parts)] *)
Fixpoint join (sep : pystr) (parts : list pystr) : pystr :=
  match parts with
  | [] => []
  | [p] => p
  | p :: rest => p ++ sep ++ join sep rest
  end.

(** [s.split()]: the maximal runs of non-whitespace characters. [cur] is the
    run being read, reversed. *)
Fixpoint split_go (cur : pystr) (s : pystr) : list pystr :=
  match s with
  | [] => match cur with [] => [] | _ => [rev cur] end
  | c :: r =>
    if isspace c then
      match cur with
      | [] => split_go [] r
      | _ => rev cur :: split_go [] r
      end
    else split_go (c :: cur) r
  end.
Definition split (s : pystr) : list pystr := split_go [] s.

(** [s.split(",")] *)
Fixpoint split_on_go (sep : char) (cur : pystr) (s : pystr) : list pystr :=
  match s with
  | [] => [rev cur]
  | c :: r =>
    if chr_eqb c sep then rev cur :: split_on_go sep [] r
    else split_on_go sep (c :: cur) r
  end.
Definition split_on (sep : char) (s : pystr) : list pystr :=
  split_on_go sep [] s.

End Py.

(** ** Regular expressions ([re])

    The patterns of the program use character classes, literals, sequence,
    ordered alternation, capturing groups, the anchors [^], [$] and [\b],
    and greedy or lazy quantifiers applied to a single character class.
    [rmatch] is the backtracking matcher of [re] for this fragment, in
    continuation-passing style: alternatives are tried in priority order
    and the first complete match wins. *)

Module Re.
Import Py.

Inductive regex :=
| Eps
| Chr (p : char -> bool)                 (* [...] , \d, \s, ., a literal *)
| Lit (s : pystr)                        (* a literal string *)
| Seq (r1 r2 : regex)
| Alt (r1 r2 : regex)                    (* r1|r2 *)
| Rep (p : char -> bool) (lo : nat) (hi : option nat) (greedy : bool)
                                         (* c{lo,hi}, c{lo,hi}? *)
| Grp (n : nat) (r : regex)              (* (r), group number n *)
| Bol                                    (* ^ *)
| Eol                                    (* $ *)
| WordB (w : char -> bool).             (* \b, for the word characters w *)

Declare Scope re_scope.
Delimit Scope re_scope with re.
Bind Scope re_scope with regex.
Infix "⋅" := Seq (at level 41, right associativity) : re_scope.
Infix "∣" := Alt (at level 42, right associativity) : re_scope.

(** [c*], [c*?], [c+], [c{n}], [r?] *)
Definition Star p := Rep p 0 None true.
Definition StarLazy p := Rep p 0 None false.
Definition Plus p := Rep p 1 None true.
Definition Exactly p n := Rep p n (Some n) true.
Definition Opt r := Alt r Eps.
(** [.] without DOTALL *)
Definition dot (c : char) : bool := negb (chr_eqb c 10%N).

(** A position in the subject: the characters before it (nearest first),
    those after it, and the groups closed so far (latest first). *)
Record cursor := Cursor {
  seen : pystr;
  rest : pystr;
  groups : list (nat * pystr)
}.

Definition pos (c : cursor) : nat := length (seen c).

(** The text between an earlier cursor and a later one. *)
Definition span (c c' : cursor) : pystr :=
  rev (take (pos c' - pos c) (seen c')).

Definition close_group (n : nat) (c c' : cursor) : cursor :=
  Cursor (seen c') (rest c') ((n, span c c') :: groups c').

Definition hi_allows (hi : option nat) : bool :=
  match hi with Some O => false | _ => true end.
Definition hi_pred (hi : option nat) : option nat :=
  match hi with Some n => Some (Nat.pred n) | None => None end.

(** A quantified class, by recursion on the text still to read. *)
Fixpoint rep (p : char -> bool) (lo : nat) (hi : option nat) (greedy : bool)
    (k : cursor -> option cursor) (gs : list (nat * pystr))
    (sn rs : pystr) {struct rs} : option cursor :=
  let stop (_ : unit) :=
    match lo with O => k (Cursor sn rs gs) | S _ => None end in
  let more (_ : unit) :=
    match rs with
    | x :: xs =>
      if p x && hi_allows hi
      then rep p (Nat.pred lo) (hi_pred hi) greedy k gs (x :: sn) xs
      else None
    | [] => None
    end in
  if greedy
  then match more tt with Some m => Some m | None => stop tt end
  else match stop tt with Some m => Some m | None => more tt end.

Definition at_boundary (w : char -> bool) (c : cursor) : bool :=
  xorb (match seen c with x :: _ => w x | [] => false end)
       (match rest c with x :: _ => w x | [] => false end).

Fixpoint rmatch (r : regex) (k : cursor -> option cursor) (c : cursor)
    : option cursor :=
  match r with
  | Eps => k c
  | Chr p =>
    match rest c with
    | x :: xs => if p x then k (Cursor (x :: seen c) xs (groups c)) else None
    | [] => None
    end
  | Lit s =>
    match strip_prefix s (rest c) with
    | Some xs => k (Cursor (rev s ++ seen c) xs (groups c))
    | None => None
    end
  | Seq r1 r2 => rmatch r1 (rmatch r2 k) c
  | Alt r1 r2 =>
    match rmatch r1 k c with
    | Some m => Some m
    | None => rmatch r2 k c
    end
  | Rep p lo hi greedy => rep p lo hi greedy k (groups c) (seen c) (rest c)
  | Grp n r1 => rmatch r1 (fun c' => k (close_group n c c')) c
  | Bol => match seen c with [] => k c | _ => None end
  | Eol =>
    match rest c with
    | [] => k c
    | [x] => if chr_eqb x 10%N then k c else None
    | _ => None
    end
  | WordB w => if at_boundary w c then k c else None
  end.

(** A match object: where the match starts and the cursor at its end. *)
Record rematch := ReMatch { m_start : cursor; m_end : cursor }.

(** [m.group(0)] *)
Definition group0 (m : rematch) : pystr := span (m_start m) (m_end m).
(** [m.group(n)] for a group that took part in the match ([""] stands for
    the [None] of a group that did not). *)
Definition group (n : nat) (m : rematch) : pystr :=
  match find (fun g => Nat.eqb (fst g) n) (groups (m_end m)) with
  | Some g => snd g
  | None => []
  end.

(** [re.match] at a given position of the subject. *)
Definition match_at (r : regex) (sn rs : pystr) : option rematch :=
  let c := Cursor sn rs [] in
  match rmatch r Some c with
  | Some c' => Some (ReMatch c c')
  | None => None
  end.

(** [re.search]: the leftmost position at which the pattern matches. *)
Fixpoint search_from (r : regex) (sn rs : pystr) : option rematch :=
  match match_at r sn rs with
  | Some m => Some m
  | None =>
    match rs with
    | [] => None
    | x :: xs => search_from r (x :: sn) xs
    end
  end.
Definition search (r : regex) (s : pystr) : option rematch :=
  search_from r [] s.

(** [re.sub(r, repl, s)] for a constant replacement: matches are replaced
    from left to right without overlap; after an empty match one character
    is copied. [fuel] bounds the number of steps; [S (length s)] is enough
    (lemma [sub_go_fuel] below). *)
Fixpoint sub_go (fuel : nat) (r : regex) (repl : pystr) (sn rs : pystr)
    : pystr :=
  match fuel with
  | O => rs
  | S fuel' =>
    match match_at r sn rs with
    | Some m =>
      let e := m_end m in
      if Nat.ltb (length sn) (pos e)
      then repl ++ sub_go fuel' r repl (seen e) (rest e)
      else repl ++ match rs with
                   | [] => []
                   | x :: xs => x :: sub_go fuel' r repl (x :: sn) xs
                   end
    | None =>
      match rs with
      | [] => []
      | x :: xs => x :: sub_go fuel' r repl (x :: sn) xs
      end
    end
  end.
Definition sub (r : regex) (repl s : pystr) : pystr :=
  sub_go (S (length s)) r repl [] s.

End Re.

(** ** app/utils.py *)

Module Utils.
Import Py Re.
Local Open Scope re_scope.

(** [re.sub(r'\s+', ' ', s or '').strip()] *)
Definition normalize_whitespace (s : pystr) : pystr :=
  strip (sub (Plus isspace) (u " ") s).

Section WithUCD.
Context `{UCD}.

(** [ISBN_RE = re.compile(r'(97[89]\d{10}|\d{9}[0-9Xx])')] *)
Definition ISBN_RE : regex :=
  Grp 1 ((Lit (u "97") ⋅ Chr (one_of (u "89")) ⋅ Exactly isdecimal 10)
         ∣ (Exactly isdecimal 9
            ⋅ Chr (fun c => ascii_digit c || one_of (u "Xx") c))).

Definition find_isbn (text : pystr) : option pystr :=
  if negb (truthy text) then None
  else
    let t := sub (Chr (fun c => chr_eqb c (ch "-") || isspace c)) [] text in
    match search ISBN_RE t with
    | Some m => Some (group 1 m)
    | None => None
    end.

End WithUCD.
End Utils.

(** ** app/nlp.py *)

Module Nlp.
Import Py Re Utils.
Local Open Scope re_scope.

(** [a.endswith(("著", "编", "译", "主编"))] *)
Definition has_role_suffix (a : pystr) : bool :=
  existsb (endswith a) [u "著"; u "编"; u "译"; u "主编"].

(** The loop of [_dedup_authors], with its two accumulators. *)
Fixpoint dedup_loop (authors : list pystr) (out : list pystr)
    (seen : gset pystr) : list pystr :=
  match authors with
  | [] => out
  | a :: more =>
    let a := normalize_whitespace a in
    if negb (truthy a) then dedup_loop more out seen
    else
      let a := if has_role_suffix a then drop_last a else a in
      if decide (a ∈ seen) then dedup_loop more out seen
      else dedup_loop more (out ++ [a]) ({[a]} ∪ seen)
  end.

Definition _dedup_authors (authors : list pystr) : list pystr :=
  dedup_loop authors [] ∅.

Section WithUCD.
Context `{UCD}.

(** [BRACKETS = r'[【\[\(（].*?[】\]\)）]'] *)
Definition BRACKETS : regex :=
  Chr (one_of (u "【[(（")) ⋅ StarLazy dot ⋅ Chr (one_of (u "】])）")).

(** [AUTHOR_HINTS = r'(著|编|译|主编|等)$'], as group [n]. *)
Definition AUTHOR_HINTS (n : nat) : regex :=
  Grp n (Lit (u "著") ∣ Lit (u "编") ∣ Lit (u "译") ∣ Lit (u "主编")
         ∣ Lit (u "等")) ⋅ Eol.

Definition clean_line (s : pystr) : pystr :=
  let s := sub BRACKETS [] s in
  (* r'^\s*\d+[\.\、\)\-：:]\s*' *)
  let s := sub (Bol ⋅ Star isspace ⋅ Plus isdecimal
                ⋅ Chr (one_of (u ".、)-：:")) ⋅ Star isspace) [] s in
  (* r'^\s*\d+\s*\.\s*' *)
  let s := sub (Bol ⋅ Star isspace ⋅ Plus isdecimal ⋅ Star isspace
                ⋅ Lit (u ".") ⋅ Star isspace) [] s in
  let s := replace_char (ch "、") (u " ")
             (replace_char (ch "/") (u " ")
                (replace_char (ch "+") (u " ") s)) in
  let s := replace_char 9%N (u " ") (replace_char (ch "　") (u " ") s) in
  (* r'\s{2,}' *)
  strip (sub (Rep isspace 2 None true) (u " ") s).

(** [parts[:-1]] and [parts[-1]] of a non-empty list. *)
Definition but_last (parts : list pystr) : list pystr := removelast parts.
Definition last_part (parts : list pystr) : pystr := List.last parts [].

(** [r'^(.*?)[\s:：\-—·]+([^\d]{1,30})' + AUTHOR_HINTS], the first pattern
    of [_heuristic_title_author]. *)
Definition TITLE_AUTHOR_HINT : regex :=
  Bol ⋅ Grp 1 (StarLazy dot)
  ⋅ Plus (fun c => isspace c || one_of (u ":：-—·") c)
  ⋅ Grp 2 (Rep (fun c => negb (isdecimal c)) 1 (Some 30) true)
  ⋅ AUTHOR_HINTS 3.

Definition _heuristic_title_author (s : pystr) : pystr * list pystr :=
  let s := clean_line s in
  match search TITLE_AUTHOR_HINT s with
  | Some m =>
    let title := strip_chars (u " -—·:：") (group 1 m) in
    let author := strip (group 2 m) in
    (title, _dedup_authors [author])
  | None =>
    (* r'^(.*?)[\s\(（](.*?)[\)）]$' *)
    let m2 := search (Bol ⋅ Grp 1 (StarLazy dot)
                      ⋅ Chr (fun c => isspace c || one_of (u "(（") c)
                      ⋅ Grp 2 (StarLazy dot) ⋅ Chr (one_of (u ")）"))
                      ⋅ Eol) s in
    let paren :=
      match m2 with
      | Some m =>
        if Nat.leb (length (group 2 m)) 12
        then Some (group 1 m, _dedup_authors [group 2 m])
        else None
      | None => None
      end in
    match paren with
    | Some res => res
    | None =>
      let parts := split s in
      if Nat.leb 2 (length parts) && Nat.leb (length (last_part parts)) 12
      then (join (u " ") (but_last parts), _dedup_authors [last_part parts])
      else (s, [])
    end
  end.

(** What an entity extractor reports: [{'title', 'authors', 'confidence'}]. *)
Record ner_result := NerResult {
  ner_title : option pystr;
  ner_authors : list pystr;
  ner_confidence : float
}.

Definition ner_nothing : ner_result := NerResult None [] 0.0%float.

(** The backend that [_try_load_ner] left in [_NER_BACKEND]/[_NER_MODEL].
    A model is an external library: it is represented by what the
    [_extract_with_*] functions read off its output, the person names (and,
    for spaCy, the work names) in order, or [None] when the call raises. *)
Inductive backend :=
| HanLP (persons : pystr -> option (list pystr))
| LTP (persons : pystr -> option (list pystr))
| Spacy (ents : pystr -> option (list pystr * list pystr)).

(** [max(works, key=len)]: the first longest element. *)
Fixpoint longest (best : pystr) (works : list pystr) : pystr :=
  match works with
  | [] => best
  | w :: more =>
    if Nat.ltb (length best) (length w) then longest w more
    else longest best more
  end.

Definition _extract_with_persons (model : pystr -> option (list pystr))
    (text : pystr) : ner_result :=
  match model text with
  | Some persons =>
    let authors := _dedup_authors persons in
    NerResult None authors
      (match authors with [] => 0.0 | _ => 0.7 end)%float
  | None => ner_nothing
  end.

Definition _extract_with_spacy
    (model : pystr -> option (list pystr * list pystr)) (text : pystr)
    : ner_result :=
  match model text with
  | Some (persons, works) =>
    let authors := _dedup_authors persons in
    let title :=
      match works with [] => None | w :: more => Some (longest w more) end in
    let score := 0.0%float in
    let score :=
      match authors with [] => score | _ => (score + 0.6)%float end in
    let score :=
      if truthy_opt title then (score + 0.3)%float else score in
    NerResult title authors score
  | None => ner_nothing
  end.

Definition _extract_title_author_via_ner (loaded : option backend)
    (s : pystr) : ner_result :=
  let text := clean_line s in
  if negb (truthy text) then ner_nothing
  else
    match loaded with
    | None => ner_nothing
    | Some (HanLP model) => _extract_with_persons model text
    | Some (LTP model) => _extract_with_persons model text
    | Some (Spacy model) => _extract_with_spacy model text
    end.

(** [_title_score] of [split_title_author]. *)
Definition _title_score (t : pystr) : Z :=
  let t := strip t in
  let score := Z.of_nat (length t) in
  let score :=
    match search (Grp 1 (Lit (u "著") ∣ Lit (u "编") ∣ Lit (u "译")
                         ∣ Lit (u "主编")) ⋅ Eol) t with
    | Some _ => (score - 2)%Z
    | None => score
    end in
  match search (Grp 1 (Lit (u "研究") ∣ Lit (u "简史") ∣ Lit (u "教程")
                       ∣ Lit (u "导论") ∣ Lit (u "原理") ∣ Lit (u "方法")
                       ∣ Lit (u "文明") ∣ Lit (u "世界") ∣ Lit (u "社会")
                       ∣ Lit (u "历史") ∣ Lit (u "算法") ∣ Lit (u "原本")
                       ∣ Lit (u "文学") ∣ Lit (u "文化"))) t with
  | Some _ => (score + 2)%Z
  | None => score
  end.

Definition title_strip : pystr -> pystr := strip_chars (u " 《》[]（）()").

Definition split_title_author (loaded : option backend) (s : pystr)
    : pystr * list pystr :=
  let s := normalize_whitespace s in
  if negb (truthy s) then ([], [])
  else
    let cleaned := clean_line s in
    let ner := _extract_title_author_via_ner loaded cleaned in
    let ner_title := title_strip (or_empty (ner_title ner)) in
    let ner_authors := _dedup_authors (ner_authors ner) in
    let ner_conf := ner_confidence ner in
    let '(rule_title, rule_authors) := _heuristic_title_author cleaned in
    let rule_title := title_strip rule_title in
    let rule_authors := _dedup_authors rule_authors in
    if match ner_authors with [] => false | _ => true end
       && (0.6 <=? ner_conf)%float
    then
      let title :=
        match filter (fun t => truthy t = true) [ner_title; rule_title] with
        | [] => if truthy rule_title then rule_title else ner_title
        | t :: more =>
          (* max(candidates, key=_title_score): the first best one *)
          fold_left (fun best t' =>
                       if (_title_score best <? _title_score t')%Z
                       then t' else best) more t
        end in
      (if truthy title then title else cleaned, ner_authors)
    else (rule_title, rule_authors).

End WithUCD.
End Nlp.

(** ** app/classify.py *)

Module Classify.
Import Py Re.
Local Open Scope re_scope.

(** [(code, label, confidence, source)] *)
Definition verdict : Type := pystr * pystr * float * pystr.

Definition CLC_LABELS : list (pystr * pystr) :=
  [ (u "A", u "马克思主义、列宁主义、毛泽东思想、邓小平理论");
    (u "B", u "哲学、宗教");
    (u "C", u "社会科学总论");
    (u "D", u "政治、法律");
    (u "E", u "军事");
    (u "F", u "经济");
    (u "G", u "文化、科学、教育、体育");
    (u "H", u "语言、文字");
    (u "I", u "文学");
    (u "J", u "艺术");
    (u "K", u "历史、地理");
    (u "N", u "自然科学总论");
    (u "O", u "数理科学和化学");
    (u "P", u "天文学、地球科学");
    (u "Q", u "生物科学");
    (u "R", u "医药、卫生");
    (u "S", u "农业科学");
    (u "T", u "工业技术");
    (u "U", u "交通运输");
    (u "V", u "航空、航天");
    (u "X", u "环境科学、安全科学");
    (u "Z", u "综合性图书") ].

Definition KEYWORDS : list (pystr * list pystr) :=
  [ (u "A",
      [u "马克思"; u "列宁"; u "毛泽东"; u "邓小平"; u "社会主义理论"]);
    (u "B",
      [u "哲学"; u "形而上学"; u "伦理学"; u "宗教"; u "佛教"; u "基督教"; u "道教";
       u "心灵"]);
    (u "C",
      [u "社会科学"; u "社会学"; u "调查研究方法"; u "统计年鉴"; u "社会问题"; u "公共管理"]);
    (u "D",
      [u "政治"; u "国际关系"; u "外交"; u "法学"; u "刑法"; u "民法"; u "行政法";
       u "宪法"]);
    (u "E",
      [u "军事"; u "战争"; u "战略"; u "战术"; u "国防"]);
    (u "F",
      [u "经济"; u "金融"; u "管理学"; u "会计"; u "市场营销"; u "企业战略"; u "贸易";
       u "宏观经济"]);
    (u "G",
      [u "教育学"; u "科普读物"; u "图书馆学"; u "文化研究"; u "体育"; u "博物馆"]);
    (u "H",
      [u "语言学"; u "语法"; u "汉语"; u "英语"; u "翻译"; u "词典"; u "语料库"]);
    (u "I",
      [u "文学"; u "小说"; u "诗歌"; u "散文"; u "戏剧"; u "文学史"; u "文论";
       u "名著"]);
    (u "J",
      [u "艺术"; u "绘画"; u "雕塑"; u "摄影"; u "音乐"; u "电影"; u "戏曲";
       u "设计"]);
    (u "K",
      [u "历史"; u "通史"; u "中国史"; u "世界史"; u "地理"; u "考古"; u "文明史"]);
    (u "N",
      [u "自然科学"; u "科研方法"; u "科学思想史"]);
    (u "O",
      [u "数学"; u "物理"; u "化学"; u "拓扑"; u "量子"; u "代数"; u "微积分"]);
    (u "P",
      [u "天文学"; u "地质"; u "地理信息"; u "气象"; u "地震"; u "地图学"]);
    (u "Q",
      [u "生物"; u "遗传"; u "细胞"; u "生态"; u "神经科学"; u "生物化学"]);
    (u "R",
      [u "医学"; u "临床"; u "解剖"; u "药学"; u "护理"; u "公共卫生"; u "疾病"]);
    (u "S",
      [u "农业"; u "作物"; u "畜牧"; u "林业"; u "渔业"; u "土壤"]);
    (u "T",
      [u "计算机"; u "算法"; u "软件工程"; u "人工智能"; u "深度学习"; u "网络";
       u "电子"; u "机械"; u "材料"; u "工业"; u "自动化"]);
    (u "U",
      [u "交通"; u "铁路"; u "公路"; u "航运"; u "港口"; u "车辆工程"]);
    (u "V",
      [u "航空"; u "航天"; u "航天器"; u "火箭"; u "卫星"]);
    (u "X",
      [u "环境"; u "生态保护"; u "污染"; u "安全工程"; u "职业安全"; u "应急"]);
    (u "Z",
      [u "百科全书"; u "年鉴"; u "论文集"; u "综合"; u "工具书"]) ].

(** [[A-Z]] and [[A-Z0-9]] under [re.I]: besides the ASCII letters of both
    cases, [re] lets the class match the four code points whose case
    folding is an ASCII letter (U+0130, U+0131, U+017F, U+212A). *)
Definition AZ_ignorecase (c : char) : bool :=
  ascii_letter c || one_of [304; 305; 383; 8490]%N c.
Definition AZ09_ignorecase (c : char) : bool :=
  AZ_ignorecase c || ascii_digit c.

(** [str(d.get(k, dflt))] on an association list in definition order. *)
Fixpoint dict_get {V} (d : list (pystr * V)) (k : pystr) (dflt : V) : V :=
  match d with
  | [] => dflt
  | (k', v) :: more => if str_eqb k' k then v else dict_get more k dflt
  end.

(** [d[k] = f(d[k])] for a key of [d]. *)
Fixpoint dict_alter {V} (f : V -> V) (k : pystr) (d : list (pystr * V))
    : list (pystr * V) :=
  match d with
  | [] => []
  | (k', v) :: more =>
    if str_eqb k' k then (k', f v) :: more else (k', v) :: dict_alter f k more
  end.

Section WithUCD.
Context `{UCD}.

(** [re.compile(r"\b([A-Z])[A-Z0-9]{0,2}(?:\.\d+)?", flags=re.I)] *)
Definition _CLC_RE : regex :=
  WordB isword ⋅ Grp 1 (Chr AZ_ignorecase)
  ⋅ Rep AZ09_ignorecase 0 (Some 2) true
  ⋅ Opt (Lit (u ".") ⋅ Plus isdecimal).

(** [re.compile(r"\b([A-Z])([A-Z0-9]{0,2})(?:\.\d+)?", flags=re.I)] *)
Definition _CIP_CLC_RE : regex :=
  WordB isword ⋅ Grp 1 (Chr AZ_ignorecase)
  ⋅ Grp 2 (Rep AZ09_ignorecase 0 (Some 2) true)
  ⋅ Opt (Lit (u ".") ⋅ Plus isdecimal).

Definition _normalize (s : option pystr) : pystr :=
  let s := strip (or_empty s) in
  let s := replace_char (ch "】") (u " ")
             (replace_char (ch "【") (u " ")
                (replace_char (ch "》") (u " ")
                   (replace_char (ch "《") (u " ") s))) in
  sub (Plus isspace) (u " ") s.

(** [code in ("T", "O", "Q", "R", "P", "S", "X")] *)
Definition is_boosted (code : pystr) : bool :=
  existsb (str_eqb code)
    [u "T"; u "O"; u "Q"; u "R"; u "P"; u "S"; u "X"].

Definition _score_by_keywords (text : pystr) : list (pystr * float) :=
  let text_lc := lower text in
  let scores := map (fun kv => (fst kv, 0.0%float)) CLC_LABELS in
  fold_left
    (fun scores '(code, kws) =>
       fold_left
         (fun scores kw =>
            if truthy kw && contains text_lc (lower kw)
            then
              let base := (if is_boosted code then 1.2 else 1.0)%float in
              dict_alter (fun v => (v + base)%float) code scores
            else scores)
         kws scores)
    KEYWORDS scores.

(** [max(scores, key=lambda k: scores[k])]: the first key whose score no
    later key exceeds. *)
Fixpoint max_key (best : pystr * float) (more : list (pystr * float))
    : pystr * float :=
  match more with
  | [] => best
  | kv :: more' =>
    if (snd best <? snd kv)%float then max_key kv more'
    else max_key best more'
  end.

Definition _pick_best (scores : list (pystr * float)) : pystr * float :=
  match scores with
  | [] => (u "Z", 0.0%float)
  | kv :: more => max_key kv more
  end.

Definition _label (code : pystr) : pystr :=
  dict_get CLC_LABELS (upper code) (u "未知").

Definition _from_cip (cip : option pystr) : option pystr :=
  match cip with
  | None => None
  | Some c =>
    if negb (truthy c) then None
    else
      match search _CIP_CLC_RE (upper c) with
      | None => None
      | Some m => Some (group0 m)
      end
  end.

Definition classify_rule_based (title : pystr) (authors : option (list pystr))
    (summary : option pystr) : verdict :=
  let t := _normalize (Some title) in
  let a := _normalize (Some (join (u ",") (default [] authors))) in
  let s := _normalize (Some (or_empty summary)) in
  let blob := strip (join (u " ") [t; a; s]) in
  if negb (truthy blob) then (u "Z", _label (u "Z"), 0.0%float, u "rule")
  else
    let scores := _score_by_keywords blob in
    let '(code, score) := _pick_best scores in
    let conf :=
      (if score <=? 0 then (if str_eqb code (u "Z") then 0.5 else 0.55)
       else if score <? 2 then 0.65
       else if score <? 4 then 0.8
       else 0.92)%float in
    (code, _label code, conf, u "rule").

(** The external model behind [classify_llm]: [None] when the classifier is
    switched off or no API key is configured; otherwise the reply to the
    prompt built from title, authors and summary, or [None] when the call
    raises. *)
Definition llm_client : Type :=
  option (pystr -> option (list pystr) -> option pystr -> option pystr).

Definition classify_llm (client : llm_client) (title : pystr)
    (authors : option (list pystr)) (summary : option pystr)
    : option verdict :=
  match client with
  | None => None
  | Some ask =>
    match ask title authors summary with
    | None => None
    | Some content =>
      let text := upper (strip content) in
      match search _CLC_RE text with
      | None => None
      | Some m =>
        let code := group0 m in
        match code with
        | [] => None
        | c :: _ => Some (code, _label [c], 0.85%float, u "llm")
        end
      end
    end
  end.

Definition classify_clc (client : llm_client) (title : pystr)
    (authors : option (list pystr)) (summary : option pystr)
    (cip : option pystr) : verdict :=
  let code_from_cip := _from_cip cip in
  match code_from_cip with
  | Some (c :: code') =>
    let code := c :: code' in
    (code, _label [c], 0.95%float, u "cip")
  | _ =>
    match classify_llm client title authors summary with
    | Some res => res
    | None => classify_rule_based title authors summary
    end
  end.

End WithUCD.
End Classify.

(** ** app/providers/base.py *)

Module Base.
Import Py.

Record SearchResult := {
  r_title : pystr;
  r_authors : list pystr;
  r_url : option pystr;
  r_isbn : option pystr
}.

(** [BookDetail]. Every use of [title] and [authors] in the pipeline goes
    through [d.title or ""] and [d.authors or []], so an absent value and
    an empty one are the same value here. [d_url] is the attribute some
    providers attach with [setattr(d, "url", url)]; [None] when absent. *)
Record BookDetail := {
  d_title : pystr;
  d_authors : list pystr;
  d_publisher : option pystr;
  d_pub_year : option Z;
  d_isbn : option pystr;
  d_edition : option pystr;
  d_pages : option Z;
  d_summary : option pystr;
  d_author_bio : option pystr;
  d_language : option pystr;
  d_cover_url : option pystr;
  d_cip : option pystr;
  d_url : option pystr
}.

Inductive exn := IntegrityError | InvalidRequestError | OtherError.

Inductive outcome (A : Type) :=
| Ok (a : A)
| Raise (e : exn).
Arguments Ok {A} a.
Arguments Raise {A} e.

(** A provider: [site] and the methods it has ([hasattr]); a call returns
    or raises. *)
Record Provider := {
  site : pystr;
  get_by_isbn : option (pystr -> outcome (option BookDetail));
  search : option (pystr -> outcome (list SearchResult));
  get_detail : option (pystr -> outcome (option BookDetail))
}.

End Base.

(** ** app/db.py *)

Module Db.
Import Py.

(** A row of [books]. The two timestamps are clock readings and are left
    out. *)
Record Book := {
  id : N;
  title_std : pystr;
  authors_std : option pystr;
  publisher : option pystr;
  pub_year : option Z;
  isbn : option pystr;
  edition : option pystr;
  pages : option Z;
  summary : option pystr;
  author_bio : option pystr;
  language : option pystr;
  cover_path : option pystr;
  cip : option pystr;
  clc : option pystr
}.

(** A row of [sources]. *)
Record Source := {
  source_id : N;
  book_id : N;
  source_site : pystr;
  source_url : option pystr;
  extracted : option pystr
}.

(** The two tables, rows in insertion order. *)
Record store := Store {
  books : list Book;
  sources : list Source
}.

(** The key SQLite gives an inserted row: one more than the largest key in
    the table. *)
Definition next_key (keys : list N) : N := (1 + foldr N.max 0 keys)%N.

(** [session.query(Book).filter(Book.isbn == k).first()]: the position and
    the value of the first row with that ISBN. *)
Definition first_by_isbn (k : pystr) (st : store) : option (nat * Book) :=
  list_find (fun b => isbn b = Some k) (books st).

(** [session.add(b); session.flush()] for a new book: the row is appended
    under a fresh key; the result names its position. *)
Definition add_book (mk : N -> Book) (st : store) : store * (nat * Book) :=
  let b := mk (next_key (map id (books st))) in
  (Store (books st ++ [b]) (sources st), (length (books st), b)).

(** Writing back the attributes of the object held for row [i]. *)
Definition write_book (i : nat) (b : Book) (st : store) : store :=
  Store (<[i := b]> (books st)) (sources st).

(** [session.add(Source(...))] *)
Definition add_source (mk : N -> Source) (st : store) : store :=
  Store (books st)
        (sources st ++ [mk (next_key (map source_id (sources st)))]).

(** A session: the committed database and, when a transaction is begun,
    the database as that transaction sees it. *)
Record session := Session {
  committed : store;
  pending : option store
}.

(** [session.rollback()] and [session.close()] *)
Definition rollback (s : session) : session := Session (committed s) None.

(** A query outside [with session.begin()] begins a transaction by
    itself. *)
Definition autobegin (s : session) : session * store :=
  match pending s with
  | Some st => (s, st)
  | None => (Session (committed s) (Some (committed s)), committed s)
  end.

End Db.

(** ** app/pipeline.py *)

Module Pipeline.
Import Py Base Db.

(** Truthiness of an [Optional[int]]. *)
Definition truthy_int (o : option Z) : bool :=
  match o with Some z => negb (z =? 0)%Z | None => false end.

(** [(s or "").strip() or None] *)
Definition stripped_or_none (o : option pystr) : option pystr :=
  or_none (strip (or_empty o)).

(** What lies outside the program: the entity extractor this process
    loaded, the external classifier, the download of a cover (the file
    name it was saved under, or a failure), [json.dumps], and what the
    database answers to the transaction made for the [n]-th provider
    ([None] when it accepts it). *)
Record world := {
  ner_backend : option Nlp.backend;
  llm : Classify.llm_client;
  download : pystr -> option pystr;
  json_dumps : BookDetail -> pystr;
  db_fault : nat -> option exn
}.

Definition fetch_cover (w : world) (url : option pystr) : pystr :=
  match url with
  | Some (c :: url') =>
    match download w (c :: url') with
    | Some fname => u "covers/" ++ fname
    | None => []
    end
  | _ => []
  end.

(** [Book(isbn=isbn, title_std=d.title or "", authors_std=",".join(...))];
    the other columns take their defaults. *)
Definition new_book_with_isbn (k : pystr) (d : BookDetail) (key : N)
    : Book :=
  {| id := key; title_std := d_title d;
     authors_std := Some (join (u ",") (d_authors d));
     publisher := None; pub_year := None; isbn := Some k; edition := None;
     pages := None; summary := None; author_bio := None;
     language := Some (u "中文"); cover_path := None; cip := None;
     clc := None |}.

(** The [Book(...)] of the branch without ISBN, as the INSERT of the flush
    stores it: for [language=None] the column takes its default. *)
Definition new_book_without_isbn (d : BookDetail) (key : N) : Book :=
  {| id := key; title_std := d_title d;
     authors_std := Some (join (u ",") (d_authors d));
     publisher := d_publisher d; pub_year := d_pub_year d; isbn := None;
     edition := d_edition d; pages := d_pages d;
     summary := stripped_or_none (d_summary d);
     author_bio := stripped_or_none (d_author_bio d);
     language :=
       match d_language d with
       | Some l => Some l
       | None => Some (u "中文")
       end;
     cover_path := None; cip := d_cip d; clc := None |}.

(** The assignments [if <value of d>: b.<field> = ...] of the ISBN
    branch. *)
Definition overwrite (d : BookDetail) (b : Book) : Book :=
  {| id := id b;
     title_std :=
       if truthy (strip (d_title d)) then strip (d_title d) else title_std b;
     authors_std :=
       match d_authors d with
       | [] => authors_std b
       | _ => Some (join (u ",") (d_authors d))
       end;
     publisher :=
       if truthy_opt (d_publisher d) then d_publisher d else publisher b;
     pub_year :=
       if truthy_int (d_pub_year d) then d_pub_year d else pub_year b;
     isbn := isbn b;
     edition := if truthy_opt (d_edition d) then d_edition d else edition b;
     pages := if truthy_int (d_pages d) then d_pages d else pages b;
     summary :=
       if truthy (strip (or_empty (d_summary d)))
       then Some (strip (or_empty (d_summary d))) else summary b;
     author_bio :=
       if truthy (strip (or_empty (d_author_bio d)))
       then Some (strip (or_empty (d_author_bio d))) else author_bio b;
     language :=
       if truthy_opt (d_language d) then d_language d else language b;
     cover_path := cover_path b;
     cip := if truthy_opt (d_cip d) then d_cip d else cip b;
     clc := clc b |}.

(** The result is the store together with the object returned: the
    position of its row and the row's attributes. *)
Definition _get_or_create_book_by_detail (d : BookDetail) (st : store)
    : store * (nat * Book) :=
  match stripped_or_none (d_isbn d) with
  | Some k =>
    let '(st, (i, b)) :=
      match first_by_isbn k st with
      | Some found => (st, found)
      | None => add_book (new_book_with_isbn k d) st
      end in
    let b := overwrite d b in
    (write_book i b st, (i, b))
  | None => add_book (new_book_without_isbn d) st
  end.

Definition set_cover_path (v : pystr) (b : Book) : Book :=
  {| id := id b; title_std := title_std b; authors_std := authors_std b;
     publisher := publisher b; pub_year := pub_year b; isbn := isbn b;
     edition := edition b; pages := pages b; summary := summary b;
     author_bio := author_bio b; language := language b;
     cover_path := Some v; cip := cip b; clc := clc b |}.

Definition set_clc (v : pystr) (b : Book) : Book :=
  {| id := id b; title_std := title_std b; authors_std := authors_std b;
     publisher := publisher b; pub_year := pub_year b; isbn := isbn b;
     edition := edition b; pages := pages b; summary := summary b;
     author_bio := author_bio b; language := language b;
     cover_path := cover_path b; cip := cip b; clc := Some v |}.

(** [with session.begin(): body]: refused when a transaction is already
    begun; otherwise the body's writes are committed together, or, when
    the database raises, rolled back together. *)
Definition with_transaction {A} (fault : option exn)
    (body : store -> store * A) (s : session) : session * outcome A :=
  match pending s with
  | Some _ => (s, Raise InvalidRequestError)
  | None =>
    match fault with
    | Some e => (rollback s, Raise e)
    | None =>
      let '(st, a) := body (committed s) in
      (Session st None, Ok a)
    end
  end.

Section WithUCD.
Context `{UCD}.

(** The body of [with session.begin():] in [search_and_ingest]; it returns
    [book.id]. *)
Definition ingest (w : world) (p : Provider) (detail : BookDetail)
    (st : store) : store * N :=
  let '(st, (i, book)) := _get_or_create_book_by_detail detail st in
  let rel_cover := fetch_cover w (d_cover_url detail) in
  let book :=
    if truthy rel_cover && negb (truthy_opt (cover_path book))
    then set_cover_path rel_cover book else book in
  let book :=
    if negb (truthy_opt (clc book)) then
      let '(code, _, _, _) :=
        Classify.classify_clc (llm w) (title_std book)
          (Some (if truthy_opt (authors_std book)
                 then split_on (ch ",") (or_empty (authors_std book))
                 else []))
          (Some (or_empty (summary book))) (cip book) in
      if truthy code && truthy (strip code)
      then set_clc (strip code) book else book
    else book in
  let st := write_book i book st in
  let st :=
    add_source (fun key =>
      {| source_id := key; book_id := id book; source_site := site p;
         source_url := Some (or_empty (d_url detail));
         extracted := Some (json_dumps w detail) |}) st in
  (st, id book).

(** The keyword search of one provider: the first query whose first hit
    resolves to a detail. *)
Fixpoint search_detail (p : Provider)
    (search : pystr -> outcome (list SearchResult))
    (candidates : list pystr) : outcome (option BookDetail) :=
  match candidates with
  | [] => Ok None
  | q :: more =>
    match search q with
    | Raise e => Raise e
    | Ok [] => search_detail p search more
    | Ok (r :: _) =>
      let by_url :=
        match get_detail p with
        | Some get_detail =>
          if truthy_opt (r_url r) then Some (get_detail (or_empty (r_url r)))
          else None
        | None => None
        end in
      let detail :=
        match by_url with
        | Some res => res
        | None =>
          match get_by_isbn p with
          | Some get_by_isbn =>
            if truthy_opt (r_isbn r) then get_by_isbn (or_empty (r_isbn r))
            else Ok None
          | None => Ok None
          end
        end in
      match detail with
      | Raise e => Raise e
      | Ok (Some d) => Ok (Some d)
      | Ok None => search_detail p search more
      end
    end
  end.

(** The [try:] block of the provider loop. *)
Definition fetch_detail (p : Provider) (isbn_input : option pystr)
    (candidates : list pystr) : outcome (option BookDetail) :=
  let direct :=
    match get_by_isbn p with
    | Some get_by_isbn =>
      if truthy_opt isbn_input then get_by_isbn (or_empty isbn_input)
      else Ok None
    | None => Ok None
    end in
  match direct with
  | Raise e => Raise e
  | Ok (Some d) => Ok (Some d)
  | Ok None =>
    match search p with
    | Some search => search_detail p search candidates
    | None => Ok None
    end
  end.

(** [a.replace("-", "").upper()] *)
Definition isbn_fold (a : pystr) : pystr :=
  upper (replace_char (ch "-") [] a).

(** The ISBN consistency guard: [true] when the detail is turned down. *)
Definition isbn_mismatch (isbn_input : option pystr) (detail : BookDetail)
    : bool :=
  truthy_opt isbn_input && truthy_opt (d_isbn detail)
  && negb (str_eqb (isbn_fold (or_empty (d_isbn detail)))
                   (isbn_fold (or_empty isbn_input))).

(** [detail.isbn = isbn_input] *)
Definition set_isbn (v : option pystr) (d : BookDetail) : BookDetail :=
  {| d_title := d_title d; d_authors := d_authors d;
     d_publisher := d_publisher d; d_pub_year := d_pub_year d; d_isbn := v;
     d_edition := d_edition d; d_pages := d_pages d;
     d_summary := d_summary d; d_author_bio := d_author_bio d;
     d_language := d_language d; d_cover_url := d_cover_url d;
     d_cip := d_cip d; d_url := d_url d |}.

Definition backfill_isbn (isbn_input : option pystr) (detail : BookDetail)
    : BookDetail :=
  if truthy_opt isbn_input && negb (truthy_opt (d_isbn detail))
  then set_isbn isbn_input detail else detail.

(** [for p in providers: ...], from the [n]-th provider on. *)
Fixpoint provider_loop (w : world) (isbn_input : option pystr)
    (candidates : list pystr) (n : nat) (providers : list Provider)
    (s : session) : session * outcome (option N) :=
  match providers with
  | [] => (s, Ok None)
  | p :: later =>
    let next := provider_loop w isbn_input candidates (S n) later in
    match fetch_detail p isbn_input candidates with
    | Raise _ => next (rollback s)
    | Ok None => next s
    | Ok (Some detail) =>
      if isbn_mismatch isbn_input detail then next s
      else
        let detail := backfill_isbn isbn_input detail in
        match with_transaction (db_fault w n) (ingest w p detail) s with
        | (s, Ok book_id) => (s, Ok (Some book_id))
        | (s, Raise IntegrityError) =>
          let s := rollback s in
          if truthy_opt (d_isbn detail) then
            let '(s, st) := autobegin s in
            match first_by_isbn (or_empty (d_isbn detail)) st with
            | Some (_, existing) => (s, Ok (Some (id existing)))
            | None => next s
            end
          else next s
        | (s, Raise e) => (s, Raise e)
        end
    end
  end.

(** [search_and_ingest(query)] over the configured providers and the
    database [db]: what it returns or raises, and the database it leaves. *)
Definition search_and_ingest (w : world) (providers : list Provider)
    (query : pystr) (db : store) : store * outcome (option N) :=
  let '(title, authors) := Nlp.split_title_author (ner_backend w) query in
  let isbn_input := Utils.find_isbn query in
  let author1 := strip (match authors with a :: _ => a | [] => [] end) in
  let search_candidates :=
    (if truthy title then [title] else [])
    ++ (if truthy title && truthy author1
        then [title ++ u " " ++ author1] else [])
    ++ [query] in
  let '(s, res) :=
    provider_loop w isbn_input search_candidates 0 providers
                  (Session db None) in
  (committed (rollback s), res).

End WithUCD.
End Pipeline.

(** ** A character database for the closed examples

    The Unicode character database restricted to the blocks the program's
    own literals come from: Latin-1 Supplement, General Punctuation, CJK
    Symbols and Punctuation, Hiragana and Katakana, CJK Unified Ideographs
    (with Extension A) and Halfwidth and Fullwidth Forms, together with
    the three letters outside these blocks that the case mappings of
    Latin-1 lead to (U+0178, U+039C and U+03BC). Code points of other
    blocks are given no property here; the closed examples only use text
    of the blocks listed. *)

Module Cjk.
Import Py.
Local Open Scope N_scope.

Definition in_ranges (rs : list (N * N)) (c : char) : bool :=
  existsb (fun r => in_range (fst r) (snd r) c) rs.

Definition cjk_isdecimal : char -> bool := in_range 65296 65305.

Definition cjk_isalnum : char -> bool :=
  in_ranges
    [(170, 170); (178, 179); (181, 181); (185, 186); (188, 190);
     (192, 214); (216, 246); (248, 255); (376, 376); (924, 924);
     (956, 956); (12293, 12295); (12321, 12329);
     (12337, 12341); (12344, 12348); (12353, 12438); (12445, 12447);
     (12449, 12538); (12540, 12543); (13312, 19903); (19968, 40959);
     (65296, 65305); (65313, 65338); (65345, 65370); (65382, 65470);
     (65474, 65479); (65482, 65487); (65490, 65495); (65498, 65500)].

Definition cjk_upper (c : char) : pystr :=
  if chr_eqb c 181 || chr_eqb c 956 then [924]
  else if chr_eqb c 223 then [83; 83]
  else if chr_eqb c 255 then [376]
  else if in_range 224 254 c && negb (chr_eqb c 247) then [c - 32]
  else if in_range 65345 65370 c then [c - 32]
  else [c].

Definition cjk_lower (before : pystr) (c : char) (after : pystr) : pystr :=
  if in_range 192 222 c && negb (chr_eqb c 215) then [c + 32]
  else if chr_eqb c 376 then [255]
  else if chr_eqb c 924 then [956]
  else if in_range 65313 65338 c then [c + 32]
  else [c].

#[export] Instance ucd_cjk : UCD := {|
  uc_isdecimal := cjk_isdecimal;
  uc_isalnum := cjk_isalnum;
  uc_upper := cjk_upper;
  uc_lower := cjk_lower
|}.

End Cjk.

(** ** Notions used in the statements *)

Module Notions.
Import Py Re Classify Base Db Pipeline.

(** [c'] is reached from [c] by reading [t]. *)
Definition reads (c c' : cursor) (t : pystr) : Prop :=
  rest c = t ++ rest c' /\ seen c' = rev t ++ seen c.

(** The declarative reading of a pattern: [takes r c t c'] when [r] can read
    the text [t] from cursor [c] and end at [c']. *)
Inductive takes : regex -> cursor -> pystr -> cursor -> Prop :=
| T_Eps c : takes Eps c [] c
| T_Chr p c x xs :
    rest c = x :: xs -> p x = true ->
    takes (Chr p) c [x] (Cursor (x :: seen c) xs (groups c))
| T_Lit s c xs :
    rest c = s ++ xs ->
    takes (Lit s) c s (Cursor (rev s ++ seen c) xs (groups c))
| T_Seq r1 r2 c t1 c1 t2 c2 :
    takes r1 c t1 c1 -> takes r2 c1 t2 c2 -> takes (Seq r1 r2) c (t1 ++ t2) c2
| T_AltL r1 r2 c t c' : takes r1 c t c' -> takes (Alt r1 r2) c t c'
| T_AltR r1 r2 c t c' : takes r2 c t c' -> takes (Alt r1 r2) c t c'
| T_Rep p lo hi greedy c t xs :
    rest c = t ++ xs -> forallb p t = true -> lo <= length t ->
    (forall h, hi = Some h -> length t <= h) ->
    takes (Rep p lo hi greedy) c t (Cursor (rev t ++ seen c) xs (groups c))
| T_Grp n r c t c' : takes r c t c' -> takes (Grp n r) c t (close_group n c c')
| T_Bol c : seen c = [] -> takes Bol c [] c
| T_Eol c : rest c = [] \/ rest c = [10%N] -> takes Eol c [] c
| T_WordB w c : at_boundary w c = true -> takes (WordB w) c [] c.

Section WithUCD.
Context `{UCD}.

(** The texts the catalogue-number pattern can match: a letter, at most
    two more letters or digits, and possibly a dot followed by digits. *)
Definition clc_shape (code : pystr) : Prop :=
  exists c body suffix,
    code = c :: body ++ suffix
    /\ AZ_ignorecase c = true
    /\ forallb AZ09_ignorecase body = true /\ length body <= 2
    /\ (suffix = []
        \/ exists ds, suffix = u "." ++ ds /\ ds <> []
                      /\ forallb isdecimal ds = true).

End WithUCD.

(** A code that is not empty and not blank: what the pipeline requires
    before it stores a category code. *)
Definition nonblank (code : pystr) : bool :=
  truthy code && truthy (strip code).

(** "Non-empty overwrites", column by column: the row [b] has the key and
    the ISBN of [old], and in every other column the detail has, the
    detail's value when that value is non-empty and the value of [old]
    otherwise. *)
Definition fields_merged (d : BookDetail) (old b : Book) : Prop :=
  id b = id old /\ isbn b = isbn old
  /\ title_std b
     = (if truthy (strip (d_title d)) then strip (d_title d)
        else title_std old)
  /\ authors_std b
     = (match d_authors d with
        | [] => authors_std old
        | _ => Some (join (u ",") (d_authors d))
        end)
  /\ publisher b
     = (if truthy_opt (d_publisher d) then d_publisher d else publisher old)
  /\ pub_year b
     = (if truthy_int (d_pub_year d) then d_pub_year d else pub_year old)
  /\ edition b
     = (if truthy_opt (d_edition d) then d_edition d else edition old)
  /\ pages b = (if truthy_int (d_pages d) then d_pages d else pages old)
  /\ summary b
     = (if truthy (strip (or_empty (d_summary d)))
        then Some (strip (or_empty (d_summary d))) else summary old)
  /\ author_bio b
     = (if truthy (strip (or_empty (d_author_bio d)))
        then Some (strip (or_empty (d_author_bio d))) else author_bio old)
  /\ language b
     = (if truthy_opt (d_language d) then d_language d else language old)
  /\ cip b = (if truthy_opt (d_cip d) then d_cip d else cip old).


(** The provenance row a transaction appends. *)
Definition provenance (w : world) (p : Provider) (detail : BookDetail)
    (book_id : N) (st : store) : Source :=
  {| source_id := next_key (map source_id (sources st));
     book_id := book_id; source_site := site p;
     source_url := Some (or_empty (d_url detail));
     extracted := Some (json_dumps w detail) |}.

End Notions.

(** ** Data for the closed examples *)

Module Examples.
Import Py Base Db Pipeline.

(** A detail with a title and, possibly, an ISBN, a publisher and a cover
    address. *)
Definition detail_of (title : pystr) (isbn publisher cover : option pystr)
    : BookDetail :=
  {| d_title := title; d_authors := []; d_publisher := publisher;
     d_pub_year := None; d_isbn := isbn; d_edition := None; d_pages := None;
     d_summary := None; d_author_bio := None; d_language := None;
     d_cover_url := cover; d_cip := None; d_url := None |}.

(** A provider that answers every ISBN lookup with the same detail. *)
Definition answers (name : pystr) (d : BookDetail) : Provider :=
  {| site := name; get_by_isbn := Some (fun _ => Ok (Some d));
     search := None; get_detail := None |}.

(** No entity extractor, no external model, a database that accepts every
    transaction; covers are saved as [name]. *)
Definition world_saving (name : option pystr) : world :=
  {| ner_backend := None; llm := None; download := fun _ => name;
     json_dumps := fun _ => u "{}"; db_fault := fun _ => None |}.

Definition honglou : pystr := u "9787020002207".

(** A table with one book, published by "A", that has a cover. *)
Definition shelved : Book :=
  {| id := 1; title_std := u "红楼梦"; authors_std := Some (u "曹雪芹");
     publisher := Some (u "A"); pub_year := None; isbn := Some honglou;
     edition := None; pages := None; summary := None; author_bio := None;
     language := Some (u "中文"); cover_path := Some (u "covers/old.jpg");
     cip := None; clc := Some (u "I") |}.

Definition shelf : store := Store [shelved] [].


End Examples.

(** ** Notions on texts used in further statements *)

Module Text.
Import Py.

(** The longest prefix of characters of a class. *)
Fixpoint take_while (p : char -> bool) (s : pystr) : pystr :=
  match s with
  | c :: r => if p c then c :: take_while p r else []
  | [] => []
  end.

(** Every whitespace character is the plain space U+0020. *)
Definition only_plain_spaces (s : pystr) : bool :=
  forallb (fun c => negb (isspace c) || chr_eqb c 32%N) s.

(** No two whitespace characters stand side by side. *)
Fixpoint no_adjacent_spaces (s : pystr) : bool :=
  match s with
  | c :: r =>
    match r with
    | d :: _ => negb (isspace c && isspace d)
    | [] => true
    end && no_adjacent_spaces r
  | [] => true
  end.

(** The text neither starts nor ends with a character of the class. *)
Definition trimmed_of (p : char -> bool) (s : pystr) : bool :=
  match s with
  | [] => true
  | c :: _ => negb (p c) && negb (p (List.last s c))
  end.

Definition trimmed : pystr -> bool := trimmed_of isspace.

Definition starts_space (s : pystr) : bool :=
  match s with c :: _ => isspace c | [] => false end.

End Text.

(** ** Notions on ISBNs used in further statements *)

Module IsbnNotions.
Import Py Utils.

(** The text [find_isbn] searches: the argument without the characters
    [-] and whitespace. *)
Definition unhyphenated (text : pystr) : pystr :=
  List.filter (fun c => negb (chr_eqb c (ch "-") || isspace c)) text.

Section WithUCD.
Context `{UCD}.

(** 978 or 979 and ten digits. *)
Definition isbn13_shape (i : pystr) : bool :=
  match strip_prefix (u "97") i with
  | Some (c :: ds) =>
    one_of (u "89") c && forallb isdecimal ds && Nat.eqb (length ds) 10
  | _ => false
  end.

(** Nine digits and a digit or X. *)
Definition isbn10_shape (i : pystr) : bool :=
  Nat.eqb (length i) 10
  && forallb isdecimal (removelast i)
  && (let c := List.last i 0%N in ascii_digit c || one_of (u "Xx") c).

Definition isbn_shape (i : pystr) : bool := isbn13_shape i || isbn10_shape i.

End WithUCD.
End IsbnNotions.

(** ** Notions on author lists used in further statements *)

Module NlpNotions.
Import Py Utils Nlp.

(** What [_dedup_authors] makes of one entry before it looks for
    duplicates: nothing when the entry is blank, otherwise the normalised
    entry, without its last character when it ends in a role suffix. *)
Definition cleaned_author (a : pystr) : option pystr :=
  let a := normalize_whitespace a in
  if truthy a then Some (if has_role_suffix a then drop_last a else a)
  else None.

(** The elements of a list in the order of their first occurrence. *)
Fixpoint first_occurrences (l : list pystr) : list pystr :=
  match l with
  | [] => []
  | x :: r => x :: filter (fun y => y <> x) (first_occurrences r)
  end.

(** The person names a backend reports for a text, as the extractor keeps
    them. *)
Definition reported_authors (b : backend) (text : pystr) : list pystr :=
  match b with
  | HanLP model | LTP model =>
    match model text with Some persons => _dedup_authors persons | None => [] end
  | Spacy model =>
    match model text with
    | Some (persons, _) => _dedup_authors persons
    | None => []
    end
  end.

(** The separators [clean_line] turns into spaces. *)
Definition is_separator (c : char) : bool :=
  one_of (u "+/、　") c || chr_eqb c 9%N.

End NlpNotions.

(** ** Notions on the rule-based classifier used in further statements *)

Module ClassifyNotions.
Import Py Classify.

Section WithUCD.
Context `{UCD}.

(** The text the rule-based classifier scores. *)
Definition blob (title : pystr) (authors : option (list pystr))
    (summary : option pystr) : pystr :=
  strip (join (u " ")
           [_normalize (Some title);
            _normalize (Some (join (u ",") (default [] authors)));
            _normalize (Some (or_empty summary))]).

(** A keyword counts when it is not empty and its lower-case form occurs
    in the lower-case text. *)
Definition is_hit (text kw : pystr) : bool :=
  truthy kw && contains (lower text) (lower kw).

(** The number of keywords of a category that count for a text. *)
Definition hits (text code : pystr) : nat :=
  length (List.filter (is_hit text) (dict_get KEYWORDS code [])).

End WithUCD.

(** What one keyword adds to the score of its category. *)
Definition base_of (code : pystr) : float :=
  (if is_boosted code then 1.2 else 1.0)%float.

(** The score after [k] keywords of a category have counted. *)
Definition score_after (code : pystr) (k : nat) : float :=
  Nat.iter k (fun v => (v + base_of code)%float) 0.0%float.

(** The scores a category can reach: no table entry has more than eleven
    keywords. *)
Definition possible_scores : list float :=
  map (fun bk : bool * nat =>
         Nat.iter (snd bk)
           (fun v => (v + (if fst bk then 1.2 else 1.0))%float) 0.0%float)
      (list_prod [true; false] (seq 0 12)).

(** The confidence by the number of counted keywords: one, two or three,
    more. *)
Definition confidence_for (k : nat) : float :=
  (if Nat.leb k 1 then 0.65 else if Nat.leb k 3 then 0.8 else 0.92)%float.

End ClassifyNotions.

(** ** ui/web.py and app/desktop/main_qt.py: the reader-facing bucket of a
    category code *)

Module Ui.
Import Py Classify.

Section WithUCD.
Context `{UCD}.

(** The tests on [head] in [clc_bucket]. *)
Definition bucket_of_head (head : pystr) : pystr :=
  if existsb (str_eqb head)
       [u "T"; u "O"; u "Q"; u "R"; u "P"; u "S"; u "X"; u "N"; u "U"; u "V"]
  then u "科学技术类"
  else if str_eqb head (u "K") then u "历史类"
  else if str_eqb head (u "J") then u "艺术类"
  else if str_eqb head (u "I") then u "文学类"
  else if str_eqb head (u "H") then u "语言类"
  else if str_eqb head (u "F") then u "经济管理类"
  else if str_eqb head (u "G") then u "教育文化类"
  else if str_eqb head (u "B") then u "哲学宗教类"
  else if existsb (str_eqb head) [u "C"; u "D"] then u "社会政治类"
  else if existsb (str_eqb head) [u "A"; u "Z"] then u "综合/知识类"
  else dict_get CLC_LABELS head (u "未分类").

Definition clc_bucket (clc_code : option pystr) : pystr :=
  match clc_code with
  | Some (c :: _) => bucket_of_head (upper [c])
  | _ => u "未分类"
  end.

End WithUCD.
End Ui.

(** ** Notions on the database used in further statements *)

Module DbNotions.
Import Py Base Db Pipeline.

(** The constraints the schema of [app/db.py] declares: primary keys are
    unique in each table, no two books share an ISBN (a row without ISBN
    has none to share), and every provenance row names a stored book. *)
Definition unique_keys (st : store) : Prop :=
  NoDup (map id (books st)) /\ NoDup (map source_id (sources st)).

Definition unique_isbns (st : store) : Prop :=
  NoDup (omap isbn (books st)).

Definition sources_refer (st : store) : Prop :=
  forall src, src ∈ sources st ->
    exists b, b ∈ books st /\ id b = book_id src.

Definition schema (st : store) : Prop :=
  unique_keys st /\ unique_isbns st /\ sources_refer st.

(** A row with other values in the two columns the body of a transaction
    sets after reconciliation. *)
Definition with_cover_clc (cover code : option pystr) (b : Book) : Book :=
  {| id := id b; title_std := title_std b; authors_std := authors_std b;
     publisher := publisher b; pub_year := pub_year b; isbn := isbn b;
     edition := edition b; pages := pages b; summary := summary b;
     author_bio := author_bio b; language := language b;
     cover_path := cover; cip := cip b; clc := code |}.

Section WithUCD.
Context `{UCD}.

(** What the body of a transaction makes of the reconciled row: the cover
    and the category code. *)
Definition settled (w : world) (detail : BookDetail) (book : Book) : Book :=
  let rel_cover := fetch_cover w (d_cover_url detail) in
  let book :=
    if truthy rel_cover && negb (truthy_opt (cover_path book))
    then set_cover_path rel_cover book else book in
  if negb (truthy_opt (clc book)) then
    let '(code, _, _, _) :=
      Classify.classify_clc (llm w) (title_std book)
        (Some (if truthy_opt (authors_std book)
               then split_on (ch ",") (or_empty (authors_std book))
               else []))
        (Some (or_empty (summary book))) (cip book) in
    if truthy code && truthy (strip code)
    then set_clc (strip code) book else book
  else book.

End WithUCD.
End DbNotions.

(** ** Notions on a resolution used in the statements on transactions *)

Module ResolutionNotions.
Import Py Base Db Pipeline Notions DbNotions.

(** The row a transaction leaves for a detail, against the database [st]
    it started from: the row the detail's ISBN locates, with the detail's
    columns merged in; or, when no row has that ISBN, a row at the end of
    the table, under a fresh key, made of the ISBN, the title and the
    authors and then merged with the detail; or, for a detail without
    ISBN, a row at the end of the table made of the detail's columns. *)
Definition reconciled (d : BookDetail) (st : store) (j : nat) (book : Book)
    : Prop :=
  match stripped_or_none (d_isbn d) with
  | Some k =>
    match first_by_isbn k st with
    | Some (j0, old) => j = j0 /\ fields_merged d old book
    | None =>
      j = length (books st)
      /\ isbn book = Some k
      /\ fields_merged d
           (new_book_with_isbn k d (next_key (map id (books st)))) book
    end
  | None =>
    j = length (books st)
    /\ book = with_cover_clc (cover_path book) (clc book)
                (new_book_without_isbn d (next_key (map id (books st))))
  end.

(** Everything a transaction writes is in the database [st']: the
    reconciled row under the key [book_id], with a category code, every
    other row as it was in [st], and one provenance row more, for this
    key, this provider and this detail. *)
Definition persisted (w : world) (p : Provider) (detail : BookDetail)
    (st st' : store) (book_id : N) : Prop :=
  exists j book,
    book_id = id book
    /\ books st' !! j = Some book
    /\ reconciled detail st j book
    /\ truthy_opt (clc book) = true
    /\ (forall i, i <> j -> books st' !! i = books st !! i)
    /\ sources st' = sources st ++ [provenance w p detail book_id st].

Section WithUCD.
Context `{UCD}.

(** The search strings [search_and_ingest] makes of a query. *)
Definition search_candidates (w : world) (query : pystr) : list pystr :=
  let '(title, authors) := Nlp.split_title_author (ner_backend w) query in
  let author1 := strip (match authors with a :: _ => a | [] => [] end) in
  (if truthy title then [title] else [])
  ++ (if truthy title && truthy author1
      then [title ++ u " " ++ author1] else [])
  ++ [query].

(** A provider's detail is accepted for a query: the provider returns it
    and the ISBN guard lets it through. *)
Definition accepted (w : world) (query : pystr) (p : Provider)
    (detail : BookDetail) : Prop :=
  fetch_detail p (Utils.find_isbn query) (search_candidates w query)
  = Ok (Some detail)
  /\ isbn_mismatch (Utils.find_isbn query) detail = false.

(** A provider gives nothing to write for a query: it raises, it finds
    nothing, or the ISBN guard turns its detail down. *)
Definition turned_down (w : world) (query : pystr) (p : Provider) : Prop :=
  forall detail,
    fetch_detail p (Utils.find_isbn query) (search_candidates w query)
    = Ok (Some detail) ->
    isbn_mismatch (Utils.find_isbn query) detail = true.

(** What [search_and_ingest] returns and leaves when its loop goes on
    from the [n]-th provider with the session [s]. *)
Definition resolution_from (w : world) (query : pystr) (n : nat)
    (providers : list Provider) (s : session)
    : store * outcome (option N) :=
  let t :=
    provider_loop w (Utils.find_isbn query) (search_candidates w query) n
                  providers s in
  (committed (rollback (fst t)), snd t).

End WithUCD.
End ResolutionNotions.

(** ** scripts/backfill_clc.py, scripts/import_from_csv.py *)

Module Scripts.
Import Py Db Pipeline.

(** [(Book.clc == None) | (Book.clc == "")] *)
Definition uncategorised (b : Book) : bool := negb (truthy_opt (clc b)).

(** [order_by(Book.id.asc())], on rows held with their positions. *)
Definition by_id : relation (nat * Book) :=
  fun x y => (id (snd x) <= id (snd y))%N.

#[global] Instance by_id_dec x y : Decision (by_id x y).
Proof. unfold by_id. apply _. Defined.

(** The query of [main]: the rows without category code, by ascending key,
    at most [limit] of them. *)
Definition rows (limit : nat) (st : store) : list (nat * Book) :=
  take limit
    (merge_sort by_id
       (filter (fun ib => uncategorised (snd ib) = true)
          (imap (fun i b => (i, b)) (books st)))).

Section WithUCD.
Context `{UCD}.

(** The body of the loop of [main] for one row. *)
Definition backfill_row (client : Classify.llm_client) (b : Book) : Book :=
  let '(code, _, _, _) :=
    Classify.classify_clc client (title_std b)
      (Some (if truthy_opt (authors_std b)
             then split_on (ch ",") (or_empty (authors_std b))
             else []))
      (Some (or_empty (summary b))) (cip b) in
  if truthy code && truthy (strip code) then set_clc (strip code) b else b.

(** [main(limit)]: the database its commit leaves. *)
Definition main (client : Classify.llm_client) (limit : nat) (st : store)
    : store :=
  fold_left
    (fun st ib => write_book (fst ib) (backfill_row client (snd ib)) st)
    (rows limit st) st.

End WithUCD.

(** *** [import_from_csv._normalize] (the same function is in ui/web.py) *)

(** [s.replace(",,", ",")] *)
Fixpoint collapse_commas (s : pystr) : pystr :=
  match s with
  | a :: t =>
    match t with
    | b :: r =>
      if chr_eqb a (ch ",") && chr_eqb b (ch ",")
      then ch "," :: collapse_commas r
      else a :: collapse_commas t
    | [] => s
    end
  | [] => []
  end.

(** [while ",," in s: s = s.replace(",,", ",")], for at most [fuel]
    rounds. *)
Fixpoint fold_commas (fuel : nat) (s : pystr) : pystr :=
  match fuel with
  | 0 => s
  | S fuel =>
    if contains s (u ",,") then fold_commas fuel (collapse_commas s) else s
  end.

(** A round shortens the text, so its length is fuel enough. *)
Definition _normalize (s : option pystr) : pystr :=
  let s := strip (or_empty s) in
  let s :=
    fold_left (fun s sep => replace_char sep (u ",") s)
      [ch ";"; ch "；"; ch "、"; ch "/"; ch "|"; ch "，"] s in
  let s := fold_commas (length s) s in
  strip_chars (u ", ") s.

End Scripts.

(** * Properties *)

(** ** The matcher *)

Section ReFacts.
Import Py Re Notions.

Lemma reads_nil c : reads c c [].
Proof. split; reflexivity. Qed.

Lemma reads_trans c1 c2 c3 t1 t2 :
  reads c1 c2 t1 -> reads c2 c3 t2 -> reads c1 c3 (t1 ++ t2).
Proof.
  intros [R1 S1] [R2 S2]. split.
  - rewrite R1, R2. now rewrite <- app_assoc.
  - rewrite S2, S1, rev_app_distr. now rewrite <- app_assoc.
Qed.

Lemma span_reads c c' t : reads c c' t -> span c c' = t.
Proof.
  intros [_ S]. unfold span, pos. rewrite S.
  rewrite length_app, length_rev.
  replace (length t + length (seen c) - length (seen c)) with (length (rev t))
    by (rewrite length_rev; lia).
  rewrite take_app_length. apply rev_involutive.
Qed.

Lemma strip_prefix_Some p s xs : strip_prefix p s = Some xs -> s = p ++ xs.
Proof.
  revert s. induction p as [|a p IH]; intros [|b s]; simpl; try congruence.
  unfold chr_eqb. destruct (N.eqb_spec a b); [|discriminate].
  intros E. subst b. f_equal. now apply IH.
Qed.

(** What a successful quantified class has read. *)
Lemma rep_sound p greedy k gs rs : forall lo hi sn m,
  rep p lo hi greedy k gs sn rs = Some m ->
  exists t rs', rs = t ++ rs' /\ forallb p t = true /\ lo <= length t
    /\ (forall h, hi = Some h -> length t <= h)
    /\ k (Cursor (rev t ++ sn) rs' gs) = Some m.
Proof.
  induction rs as [|x xs IH]; intros lo hi sn m E; simpl in E.
  - assert (lo = 0 /\ k (Cursor sn [] gs) = Some m) as [-> K].
    { destruct greedy, lo; try discriminate; auto.
      destruct (k (Cursor sn [] gs)); [auto|discriminate]. }
    exists [], []. repeat split; auto; simpl; intros; lia.
  - assert (Stop : (lo = 0 /\ k (Cursor sn (x :: xs) gs) = Some m)
             \/ (p x && hi_allows hi = true
                 /\ rep p (Nat.pred lo) (hi_pred hi) greedy k gs (x :: sn) xs
                    = Some m)).
    { destruct greedy.
      - destruct (p x && hi_allows hi).
        + destruct (rep p (Nat.pred lo) (hi_pred hi) true k gs (x :: sn) xs);
            [right; split; congruence|].
          destruct lo; [left; auto|discriminate].
        + destruct lo; [left; auto|discriminate].
      - destruct lo.
        + destruct (k (Cursor sn (x :: xs) gs)); [left; split; congruence|].
          destruct (p x && hi_allows hi); [right; auto|discriminate].
        + destruct (p x && hi_allows hi); [right; auto|discriminate]. }
    destruct Stop as [[-> K]|[P R]].
    + exists [], (x :: xs). repeat split; auto; simpl; intros; lia.
    + apply andb_prop in P as [Px Hi].
      apply IH in R as (t & rs' & -> & Pt & Lo & Hb & K).
      exists (x :: t), rs'. simpl. rewrite Px, Pt. repeat split; auto.
      * lia.
      * intros h ->. destruct h; [discriminate|].
        specialize (Hb h eq_refl). lia.
      * now rewrite <- app_assoc.
Qed.

Lemma takes_reads r c t c' : takes r c t c' -> reads c c' t.
Proof.
  induction 1; try apply reads_nil.
  - split; simpl; [assumption|reflexivity].
  - split; simpl; [assumption|reflexivity].
  - eapply reads_trans; eauto.
  - assumption.
  - assumption.
  - split; simpl; [assumption|reflexivity].
  - destruct IHtakes as [R S]. split; simpl; auto.
Qed.

(** The matcher is sound: when it succeeds, the pattern has read some text
    and the continuation has accepted the cursor after it. *)
Lemma rmatch_sound r : forall k c m,
  rmatch r k c = Some m -> exists t c', takes r c t c' /\ k c' = Some m.
Proof.
  induction r as [|p|s|r1 IH1 r2 IH2|r1 IH1 r2 IH2|p lo hi g|n r IH| | |w];
    intros k c m E; simpl in E.
  - exists [], c. split; [constructor|assumption].
  - destruct (rest c) as [|x xs] eqn:R; [discriminate|].
    destruct (p x) eqn:P; [|discriminate].
    eexists _, _. split; [eapply T_Chr; eauto|assumption].
  - destruct (strip_prefix s (rest c)) as [xs|] eqn:R; [|discriminate].
    apply strip_prefix_Some in R.
    eexists _, _. split; [eapply T_Lit; eauto|assumption].
  - apply IH1 in E as (t1 & c1 & T1 & E). apply IH2 in E as (t2 & c2 & T2 & E).
    eexists _, _. split; [eapply T_Seq; eauto|assumption].
  - destruct (rmatch r1 k c) eqn:E1.
    + inversion E; subst. apply IH1 in E1 as (t & c' & T & K).
      eexists _, _. split; [eapply T_AltL; eauto|assumption].
    + apply IH2 in E as (t & c' & T & K).
      eexists _, _. split; [eapply T_AltR; eauto|assumption].
  - apply rep_sound in E as (t & rs' & R & P & Lo & Hi & K).
    eexists _, _. split; [eapply T_Rep; eauto|assumption].
  - apply IH in E as (t & c' & T & K).
    eexists _, _. split; [eapply T_Grp; eauto|assumption].
  - destruct (seen c) eqn:S; [|discriminate].
    eexists _, _. split; [eapply T_Bol; eauto|assumption].
  - exists [], c. destruct (rest c) as [|x [|y xs]] eqn:R; try discriminate.
    + split; [constructor; auto|assumption].
    + unfold chr_eqb in E. destruct (N.eqb_spec x 10); [|discriminate].
      subst x. split; [constructor; auto|assumption].
  - destruct (at_boundary w c) eqn:B; [|discriminate].
    eexists _, _. split; [eapply T_WordB; eauto|assumption].
Qed.

(** [group(0)] is the text between the start of a match and its end. *)
Lemma match_at_reads r sn rs m :
  match_at r sn rs = Some m ->
  m_start m = Cursor sn rs [] /\ reads (m_start m) (m_end m) (group0 m).
Proof.
  unfold match_at. destruct (rmatch r Some (Cursor sn rs [])) eqn:E;
    [|discriminate].
  intros [= <-]. split; [reflexivity|].
  apply rmatch_sound in E as (t & c' & T & [= ->]).
  apply takes_reads in T. unfold group0. simpl.
  now rewrite (span_reads _ _ _ T).
Qed.

(** A match object comes from the pattern reading [group(0)] at the
    position where the match starts. *)
Lemma match_at_takes r sn rs m :
  match_at r sn rs = Some m ->
  takes r (Cursor sn rs []) (group0 m) (m_end m).
Proof.
  unfold match_at. destruct (rmatch r Some (Cursor sn rs [])) eqn:E;
    [|discriminate].
  intros [= <-]. apply rmatch_sound in E as (t & c' & T & [= ->]).
  unfold group0. simpl. now rewrite (span_reads _ _ _ (takes_reads _ _ _ _ T)).
Qed.

(** [re.search] returns a match of the pattern at some position of the
    subject. *)
Lemma search_from_Some r rs : forall sn m,
  search_from r sn rs = Some m ->
  exists pre rs', rs = pre ++ rs'
    /\ match_at r (rev pre ++ sn) rs' = Some m.
Proof.
  induction rs as [|x xs IH]; intros sn m E; simpl in E.
  - destruct (match_at r sn []) eqn:M; [|discriminate].
    exists [], []. now inversion E; subst.
  - destruct (match_at r sn (x :: xs)) eqn:M.
    + exists [], (x :: xs). now inversion E; subst.
    + apply IH in E as (pre & rs' & -> & M').
      exists (x :: pre), rs'. split; [reflexivity|].
      simpl. now rewrite <- app_assoc.
Qed.

(** The fuel of [sub] is enough: more fuel does not change the result. *)
Lemma sub_go_fuel r repl : forall fuel fuel' sn rs,
  length rs < fuel -> length rs < fuel' ->
  sub_go fuel r repl sn rs = sub_go fuel' r repl sn rs.
Proof.
  induction fuel as [|f IH]; intros [|f'] sn rs L L'; try lia.
  simpl. destruct (match_at r sn rs) as [m|] eqn:M.
  - apply match_at_reads in M as [S [R Sn]]. rewrite S in R, Sn. simpl in *.
    destruct (Nat.ltb_spec (length sn) (pos (m_end m))).
    + f_equal. apply IH.
      * unfold pos in *. rewrite Sn, length_app, length_rev in *.
        rewrite R, length_app in L. lia.
      * unfold pos in *. rewrite Sn, length_app, length_rev in *.
        rewrite R, length_app in L'. lia.
    + destruct rs as [|x xs]; [reflexivity|].
      do 2 f_equal. simpl in *. apply IH; lia.
  - destruct rs as [|x xs]; [reflexivity|].
    f_equal. simpl in *. apply IH; lia.
Qed.

End ReFacts.

(** ** The classifier *)

Section ClassifyFacts.
Import Py Re Classify Notions.
Context `{UCD}.

(** Taking a derivation of [takes] apart along a concrete pattern. *)
Local Ltac takes_inv :=
  repeat match goal with
         | T : takes (Seq _ _) _ _ _ |- _ => inv T
         | T : takes (Alt _ _) _ _ _ |- _ => inv T
         | T : takes (Grp _ _) _ _ _ |- _ => inv T
         | T : takes (Chr _) _ _ _ |- _ => inv T
         | T : takes (Lit _) _ _ _ |- _ => inv T
         | T : takes (Rep _ _ _ _) _ _ _ |- _ => inv T
         | T : takes Eps _ _ _ |- _ => inv T
         | T : takes Bol _ _ _ |- _ => inv T
         | T : takes Eol _ _ _ |- _ => inv T
         | T : takes (WordB _) _ _ _ |- _ => inv T
         end.

Lemma cip_match_shape sn rs m :
  match_at _CIP_CLC_RE sn rs = Some m -> clc_shape (group0 m).
Proof.
  intros M. apply match_at_takes in M. unfold _CIP_CLC_RE, Opt, Plus in M.
  takes_inv;
    match goal with B : context [Some 2 = Some _] |- _ =>
      specialize (B 2 eq_refl)
    end.
  - match goal with
    | |- clc_shape ([] ++ [?x] ++ ?body ++ ?dot ++ ?ds) =>
      exists x, body, (dot ++ ds)
    end.
    repeat split; auto. right. eexists. split; [reflexivity|].
    split; [|assumption]. intros ->. simpl in *. lia.
  - match goal with
    | |- clc_shape ([] ++ [?x] ++ ?body ++ []) => exists x, body, []
    end.
    repeat split; auto.
Qed.

(** A parsed catalogue number is a text the pattern matched somewhere in
    the upper-cased field. *)
Lemma from_cip_Some cip code :
  _from_cip (Some cip) = Some code ->
  clc_shape code /\ exists pre post, upper cip = pre ++ code ++ post.
Proof.
  unfold _from_cip. destruct (truthy cip); simpl; [|discriminate].
  destruct (search _CIP_CLC_RE (upper cip)) as [m|] eqn:S; [|discriminate].
  intros [= <-]. apply search_from_Some in S as (pre & rs' & E & M).
  split; [eapply cip_match_shape; eauto|].
  apply match_at_reads in M as [St [R _]]. rewrite St in R. simpl in R.
  exists pre, (rest (m_end m)). now rewrite E, R.
Qed.

(** C1, as the code has it. When the catalogue-number pattern matches in
    the upper-cased [cip], [classify_clc] returns the matched text as the
    code, with confidence 0.95 and source ["cip"], whatever the title, the
    authors, the summary and the external model are. The matched text is a
    letter, at most two further letters or digits, and a decimal suffix
    only when it follows them directly: for ["TP391.1"] it is ["TP3"]. *)
Theorem classify_clc_cip_priority client title authors summary cip code :
  _from_cip (Some cip) = Some code ->
  classify_clc client title authors summary (Some cip)
    = (code, _label (take 1 code), 0.95%float, u "cip")
  /\ clc_shape code
  /\ (exists pre post, upper cip = pre ++ code ++ post)
  /\ classify_clc client title authors summary (Some (u "TP391.1"))
     = (u "TP3", u "工业技术", 0.95%float, u "cip").
Proof.
  intros F. destruct (from_cip_Some _ _ F) as [Sh Sub].
  split; [|split; [assumption|split; [assumption|]]].
  - unfold classify_clc. rewrite F.
    destruct Sh as (c & body & suffix & -> & _). reflexivity.
  - unfold classify_clc.
    replace (_from_cip (Some (u "TP391.1"))) with (Some (u "TP3"))
      by (vm_compute; reflexivity).
    vm_compute. reflexivity.
Qed.

(** C2, as the code has it. Without a catalogue number and without an
    answer of the external model, a call whose title, authors and summary
    leave an empty text after normalisation returns the default category
    ["Z"] with confidence 0.0 and source ["rule"]. *)
Theorem classify_clc_blank_default client title authors summary :
  classify_llm client title authors summary = None ->
  strip (join (u " ")
           [_normalize (Some title);
            _normalize (Some (join (u ",") (default [] authors)));
            _normalize (Some (or_empty summary))]) = [] ->
  classify_clc client title authors summary None
    = (u "Z", u "综合性图书", 0.0%float, u "rule").
Proof.
  intros L B. unfold classify_clc. simpl. rewrite L.
  unfold classify_rule_based. rewrite B. vm_compute. reflexivity.
Qed.


(** *** Every verdict carries a category code *)

Lemma AZ_not_space c : AZ_ignorecase c = true -> isspace c = false.
Proof.
  unfold AZ_ignorecase, ascii_letter, ascii_upper_letter, ascii_lower_letter,
    one_of, isspace, in_range, chr_eqb. simpl. intros A.
  apply not_true_is_false. intros S.
  repeat rewrite ?orb_true_iff, ?andb_true_iff, ?N.leb_le, ?N.eqb_eq in A.
  repeat rewrite ?orb_true_iff, ?andb_true_iff, ?N.leb_le, ?N.eqb_eq in S.
  lia.
Qed.

Lemma drop_while_last p l c : p c = false -> drop_while p (l ++ [c]) <> [].
Proof.
  intros P. induction l as [|a l IH]; simpl.
  - now rewrite P.
  - destruct (p a); [assumption|discriminate].
Qed.

Lemma strip_head_kept p c t :
  p c = false -> truthy (strip_by p (c :: t)) = true.
Proof.
  intros P. unfold strip_by, lstrip_by, rstrip_by. simpl. rewrite P.
  pose proof (drop_while_last p (rev t) c P) as D. simpl.
  destruct (drop_while p (rev t ++ [c])) as [|x l]; [congruence|].
  simpl. now destruct (rev l ++ [x]) eqn:E; [destruct (rev l)|].
Qed.

Lemma letter_first_nonblank c t :
  AZ_ignorecase c = true -> nonblank (c :: t) = true.
Proof.
  intros A. unfold nonblank, strip. simpl.
  apply strip_head_kept, AZ_not_space, A.
Qed.

Lemma clc_shape_nonblank code : clc_shape code -> nonblank code = true.
Proof.
  intros (c & body & suffix & -> & A & _). now apply letter_first_nonblank.
Qed.

Lemma clc_match_head sn rs m :
  match_at _CLC_RE sn rs = Some m ->
  exists c t, group0 m = c :: t /\ AZ_ignorecase c = true.
Proof.
  intros M. apply match_at_takes in M. unfold _CLC_RE, Opt, Plus in M.
  takes_inv; eexists _, _; (split; [reflexivity|assumption]).
Qed.

Lemma classify_llm_nonblank client title authors summary v :
  classify_llm client title authors summary = Some v ->
  nonblank (fst (fst (fst v))) = true.
Proof.
  unfold classify_llm. destruct client as [ask|]; [|discriminate].
  destruct (ask title authors summary) as [content|]; [|discriminate].
  destruct (search _CLC_RE _) as [m|] eqn:S; [|discriminate].
  apply search_from_Some in S as (pre & rs' & _ & M).
  apply clc_match_head in M as (c & t & -> & A).
  intros [= <-]. simpl. now apply letter_first_nonblank.
Qed.

Lemma dict_alter_keys {V} (f : V -> V) k (d : list (pystr * V)) :
  map fst (dict_alter f k d) = map fst d.
Proof.
  induction d as [|[k' v] d IH]; simpl; [reflexivity|].
  destruct (str_eqb k' k); simpl; [reflexivity|]. now rewrite IH.
Qed.

Lemma fold_left_invariant {A B} (P : A -> Prop) (f : A -> B -> A) l :
  (forall a b, P a -> P (f a b)) -> forall a, P a -> P (fold_left f l a).
Proof. intros F. induction l as [|b l IH]; simpl; auto. Qed.

(** Scoring keeps the categories of [CLC_LABELS], in their order. *)
Lemma score_by_keywords_keys text :
  map fst (_score_by_keywords text) = map fst CLC_LABELS.
Proof.
  unfold _score_by_keywords.
  apply (fold_left_invariant (fun sc => map fst sc = map fst CLC_LABELS)).
  - intros sc [code kws] E.
    apply (fold_left_invariant (fun sc => map fst sc = map fst CLC_LABELS));
      [|assumption].
    intros sc' kw E'. destruct (truthy kw && contains _ _); [|assumption].
    now rewrite dict_alter_keys.
  - now rewrite map_map.
Qed.

Lemma max_key_In more : forall best, In (max_key best more) (best :: more).
Proof.
  induction more as [|kv more IH]; intros best; simpl; [auto|].
  destruct (PrimFloat.ltb (snd best) (snd kv)).
  - right. apply IH.
  - destruct (IH best) as [E|I]; [left|right; right]; assumption.
Qed.

Lemma pick_best_key scores :
  scores <> [] -> In (fst (_pick_best scores)) (map fst scores).
Proof.
  destruct scores as [|kv more]; [congruence|]. intros _.
  apply in_map, max_key_In.
Qed.

Lemma labels_nonblank code :
  In code (map fst CLC_LABELS) -> nonblank code = true.
Proof.
  intros I.
  assert (F : forallb nonblank (map fst CLC_LABELS) = true)
    by (vm_compute; reflexivity).
  rewrite forallb_forall in F. now apply F.
Qed.

Lemma classify_rule_based_nonblank title authors summary :
  nonblank (fst (fst (fst (classify_rule_based title authors summary)))) = true.
Proof.
  unfold classify_rule_based. cbv zeta.
  set (blob := strip _).
  destruct (truthy blob); cbn [negb]; [|vm_compute; reflexivity].
  pose proof (score_by_keywords_keys blob) as K.
  assert (I : In (fst (_pick_best (_score_by_keywords blob)))
                 (map fst CLC_LABELS)).
  { rewrite <- K. apply pick_best_key. intros E. rewrite E in K.
    discriminate K. }
  destruct (_pick_best (_score_by_keywords blob)) as [code score].
  cbn [fst] in *. now apply labels_nonblank.
Qed.

(** Whatever path decides, the code of the verdict is not blank. *)
Lemma classify_clc_nonblank client title authors summary cip :
  nonblank (fst (fst (fst (classify_clc client title authors summary cip))))
  = true.
Proof.
  unfold classify_clc.
  assert (Fallback :
    nonblank (fst (fst (fst
      match classify_llm client title authors summary with
      | Some res => res
      | None => classify_rule_based title authors summary
      end))) = true).
  { destruct (classify_llm client title authors summary) eqn:L.
    - eapply classify_llm_nonblank; eauto.
    - apply classify_rule_based_nonblank. }
  destruct cip as [c|]; [|exact Fallback].
  destruct (_from_cip (Some c)) as [[|x code]|] eqn:F; try exact Fallback.
  apply from_cip_Some in F as [Sh _]. simpl. now apply clc_shape_nonblank.
Qed.

End ClassifyFacts.

Section ClassifyExamples.
Import Py Re Classify Cjk Notions.

Lemma classify_clc_cip_priority_witness :
  _from_cip (Some (u "TP391.1")) = Some (u "TP3")
  /\ classify_clc None (u "X") (Some []) (Some []) (Some (u "TP391.1"))
     = (u "TP3", _label (take 1 (u "TP3")), 0.95%float, u "cip").
Proof.
  split; [vm_compute; reflexivity|].
  apply (classify_clc_cip_priority None (u "X") (Some []) (Some [])
           (u "TP391.1") (u "TP3")).
  vm_compute; reflexivity.
Defined.

(** C1 at the input of the specification: the code returned for
    ["TP391.1"] is not ["TP391.1"]. *)
Lemma classify_clc_TP391_counterexample :
  fst (fst (fst (classify_clc None (u "X") (Some []) (Some [])
                   (Some (u "TP391.1")))))
  <> u "TP391.1".
Proof. vm_compute. discriminate. Qed.

(** Two binary64 numbers that compare different are different. *)
Lemma float_distinct (a b : float) :
  PrimFloat.eqb a a = true -> PrimFloat.eqb a b = false -> a <> b.
Proof. intros R N E. rewrite <- E in N. congruence. Qed.

(** C2 at all-empty inputs: the confidence returned is 0.0, not 0.5. *)
Lemma classify_clc_empty_counterexample :
  snd (fst (classify_clc None (u "") (Some []) (Some (u "")) None))
  <> 0.5%float.
Proof. vm_compute. apply float_distinct; reflexivity. Qed.

Lemma classify_clc_blank_default_witness :
  classify_clc None (u "") (Some []) (Some (u "")) None
  = (u "Z", u "综合性图书", 0.0%float, u "rule").
Proof.
  apply (classify_clc_blank_default None (u "") (Some []) (Some (u "")));
    vm_compute; reflexivity.
Defined.

(** A text without any keyword is classified under the first category of
    the table, with confidence 0.55. *)
Lemma classify_clc_no_keyword :
  classify_clc None (u "xyz") (Some []) (Some (u "")) None
  = (u "A", u "马克思主义、列宁主义、毛泽东思想、邓小平理论", 0.55%float, u "rule").
Proof. vm_compute. reflexivity. Qed.

End ClassifyExamples.

(** ** The splitter *)

Section NlpFacts.
Import Py Re Utils Nlp.

(** The loop of [_dedup_authors] keeps its output free of duplicates. *)
Lemma dedup_loop_NoDup authors : forall out (seen : gset pystr),
  NoDup out -> (forall x, x ∈ seen <-> x ∈ out) ->
  NoDup (dedup_loop authors out seen).
Proof.
  induction authors as [|a more IH]; intros out seen N S; simpl; [assumption|].
  destruct (truthy (normalize_whitespace a)); simpl; [|now apply IH].
  set (a' := if has_role_suffix _ then _ else _).
  destruct (decide (a' ∈ seen)) as [I|I]; [now apply IH|].
  apply IH.
  - apply NoDup_app. split; [assumption|]. split; [|apply NoDup_singleton].
    intros x X ->%list_elem_of_singleton. apply I, S, X.
  - intros x. rewrite elem_of_union, elem_of_singleton, elem_of_app,
      list_elem_of_singleton, S. tauto.
Qed.

(** The list returned by [_dedup_authors] never holds an entry twice. *)
Lemma dedup_authors_NoDup authors : NoDup (_dedup_authors authors).
Proof.
  apply dedup_loop_NoDup; [constructor|].
  intros x. rewrite elem_of_empty, elem_of_nil. tauto.
Qed.

End NlpFacts.

Section NlpExamples.
Import Py Re Utils Nlp Cjk.

(** C3 at an entry that ends in the two-character suffix: only its last
    character is removed, by [_dedup_authors] and by the splitter as a
    whole. *)
Theorem dedup_authors_chief_editor :
  _dedup_authors [u "张三主编"] = [u "张三主"]
  /\ split_title_author None (u "文明简史 张三主编")
     = (u "文明简史", [u "张三主"])
  /\ split_title_author (Some (HanLP (fun _ => Some [u "张三主编"])))
       (u "文明简史 张三主编")
     = (u "文明简史", [u "张三主"]).
Proof. repeat split; vm_compute; reflexivity. Qed.

(** C8. Without an entity extractor, the query of the specification is
    split by the first pattern of the rule fallback, whose groups are the
    title, the name and the role suffix. *)
Theorem split_title_author_role_suffix :
  split_title_author None (u "明朝那些事儿 当年明月 著")
    = (u "明朝那些事儿", [u "当年明月"])
  /\ _heuristic_title_author (u "明朝那些事儿 当年明月 著")
    = (u "明朝那些事儿", [u "当年明月"])
  /\ exists m,
       search TITLE_AUTHOR_HINT (clean_line (u "明朝那些事儿 当年明月 著"))
         = Some m
       /\ group 1 m = u "明朝那些事儿"
       /\ group 2 m = u "当年明月 "
       /\ group 3 m = u "著".
Proof.
  split; [vm_compute; reflexivity|]. split; [vm_compute; reflexivity|].
  eexists. split; [vm_compute; reflexivity|].
  repeat split; vm_compute; reflexivity.
Qed.

End NlpExamples.

(** ** Reconciliation *)

Section ReconcileFacts.
Import Py Base Db Pipeline Notions.

Lemma next_key_above keys k : k ∈ keys -> (k < next_key keys)%N.
Proof.
  unfold next_key. induction 1 as [k keys|k k' keys _ IH]; simpl; lia.
Qed.

Lemma insert_last {A} (l : list A) (x y : A) :
  <[length l := y]> (l ++ [x]) = l ++ [y].
Proof. induction l as [|a l IH]; simpl; [reflexivity|]. now rewrite IH. Qed.

(** Reconciliation by ISBN when a row with that ISBN exists: the row is
    overwritten in place. *)
Lemma reconcile_found d st k j old :
  stripped_or_none (d_isbn d) = Some k ->
  first_by_isbn k st = Some (j, old) ->
  _get_or_create_book_by_detail d st
    = (write_book j (overwrite d old) st, (j, overwrite d old)).
Proof.
  intros K F. unfold _get_or_create_book_by_detail. now rewrite K, F.
Qed.

(** Reconciliation by ISBN when no row has that ISBN: one row is added. *)
Lemma reconcile_created d st k :
  stripped_or_none (d_isbn d) = Some k ->
  first_by_isbn k st = None ->
  let b := overwrite d (new_book_with_isbn k d (next_key (map id (books st)))) in
  _get_or_create_book_by_detail d st
    = (Store (books st ++ [b]) (sources st), (length (books st), b)).
Proof.
  intros K F. unfold _get_or_create_book_by_detail. rewrite K, F.
  unfold add_book, write_book. simpl. now rewrite insert_last.
Qed.

Lemma reconcile_no_isbn d st :
  stripped_or_none (d_isbn d) = None ->
  _get_or_create_book_by_detail d st
    = add_book (new_book_without_isbn d) st.
Proof.
  intros K. unfold _get_or_create_book_by_detail. now rewrite K.
Qed.

Lemma first_by_isbn_lookup k st j b :
  first_by_isbn k st = Some (j, b) ->
  books st !! j = Some b /\ isbn b = Some k.
Proof.
  unfold first_by_isbn. intros F. apply list_find_Some in F. tauto.
Qed.





(** C5. A detail without ISBN always adds a row of its own: after two such
    reconciliations, of equal details or not, the table has the two new
    rows after the old ones, under two different keys that no old row
    has. *)
Theorem no_isbn_always_new_row d1 d2 st :
  stripped_or_none (d_isbn d1) = None ->
  stripped_or_none (d_isbn d2) = None ->
  let r1 := _get_or_create_book_by_detail d1 st in
  let r2 := _get_or_create_book_by_detail d2 (fst r1) in
  let b1 := snd (snd r1) in
  let b2 := snd (snd r2) in
  books (fst r2) = books st ++ [b1; b2]
  /\ fst (snd r1) <> fst (snd r2)
  /\ id b1 <> id b2
  /\ (forall b, b ∈ books st -> id b <> id b1 /\ id b <> id b2)
  /\ isbn b1 = None /\ isbn b2 = None
  /\ title_std b1 = d_title d1 /\ title_std b2 = d_title d2.
Proof.
  intros K1 K2 r1 r2 b1 b2. subst b1 b2 r2 r1.
  rewrite (reconcile_no_isbn _ _ K1). simpl.
  rewrite (reconcile_no_isbn _ _ K2). simpl.
  set (k1 := next_key (map id (books st))).
  set (b1 := new_book_without_isbn d1 k1).
  set (k2 := next_key (map id (books st ++ [b1]))).
  assert (L12 : (k1 < k2)%N).
  { apply next_key_above. rewrite map_app. apply elem_of_app. right.
    simpl. apply list_elem_of_singleton. reflexivity. }
  split; [now rewrite <- app_assoc|]. split; [rewrite length_app; simpl; lia|].
  split; [simpl; lia|]. split; [|auto].
  intros b B. simpl.
  assert ((id b < k1)%N) by (apply next_key_above, list_elem_of_fmap_2, B).
  lia.
Qed.

Arguments overwrite : simpl never.

(** C6. When the detail's ISBN locates an existing row, each optional
    column takes the detail's value when that value is non-empty and keeps
    its previous value otherwise; the key, the ISBN, the cover path and the
    category code are left as they were. *)
Theorem overwrite_only_non_empty d st k j old :
  stripped_or_none (d_isbn d) = Some k ->
  first_by_isbn k st = Some (j, old) ->
  let r := _get_or_create_book_by_detail d st in
  let b := snd (snd r) in
  books (fst r) !! j = Some b
  /\ publisher b
     = (if truthy_opt (d_publisher d) then d_publisher d else publisher old)
  /\ pub_year b
     = (if truthy_int (d_pub_year d) then d_pub_year d else pub_year old)
  /\ edition b
     = (if truthy_opt (d_edition d) then d_edition d else edition old)
  /\ pages b = (if truthy_int (d_pages d) then d_pages d else pages old)
  /\ summary b
     = (if truthy (strip (or_empty (d_summary d)))
        then Some (strip (or_empty (d_summary d))) else summary old)
  /\ author_bio b
     = (if truthy (strip (or_empty (d_author_bio d)))
        then Some (strip (or_empty (d_author_bio d))) else author_bio old)
  /\ language b
     = (if truthy_opt (d_language d) then d_language d else language old)
  /\ cip b = (if truthy_opt (d_cip d) then d_cip d else cip old)
  /\ authors_std b
     = (match d_authors d with
        | [] => authors_std old
        | _ => Some (join (u ",") (d_authors d))
        end)
  /\ id b = id old /\ isbn b = isbn old
  /\ cover_path b = cover_path old /\ clc b = clc old
  (* the example of the specification *)
  /\ (publisher old = Some (u "A") ->
      (d_publisher d = None \/ d_publisher d = Some [] ->
       publisher b = Some (u "A"))
      /\ (d_publisher d = Some (u "B") -> publisher b = Some (u "B"))).
Proof.
  intros K F r b. subst b r. rewrite (reconcile_found _ _ _ _ _ K F). simpl.
  split.
  { apply list_lookup_insert_eq.
    apply first_by_isbn_lookup in F as [L _]. now apply lookup_lt_Some in L. }
  repeat (split; [reflexivity|]).
  intros A. unfold overwrite. simpl. split.
  - intros [-> | ->]; simpl; assumption.
  - intros ->. reflexivity.
Qed.

End ReconcileFacts.

(** ** The resolution pipeline *)

Section PipelineFacts.
Import Py Base Db Pipeline Notions.
Context `{UCD}.

(** The guard turns a detail down exactly when both ISBNs are present and
    differ after removing hyphens and upper-casing. *)
Lemma isbn_mismatch_iff isbn_input detail :
  isbn_mismatch isbn_input detail = true <->
  truthy_opt isbn_input = true /\ truthy_opt (d_isbn detail) = true
  /\ isbn_fold (or_empty (d_isbn detail)) <> isbn_fold (or_empty isbn_input).
Proof.
  unfold isbn_mismatch, str_eqb.
  rewrite !andb_true_iff, negb_true_iff, bool_decide_eq_false. tauto.
Qed.

(** C7. When an ISBN is known from the query and a provider's detail
    carries an ISBN, the detail is turned down exactly when the two differ
    after removing hyphens and upper-casing; the loop then goes on with the
    next provider, at the same session: nothing is raised and nothing is
    written. The ISBNs of the specification's example differ. *)
Theorem isbn_mismatch_next_provider
    w isbn_input candidates n p later s detail :
  truthy_opt isbn_input = true ->
  fetch_detail p isbn_input candidates = Ok (Some detail) ->
  truthy_opt (d_isbn detail) = true ->
  (isbn_mismatch isbn_input detail = true <->
   isbn_fold (or_empty (d_isbn detail)) <> isbn_fold (or_empty isbn_input))
  /\ (isbn_fold (or_empty (d_isbn detail)) <> isbn_fold (or_empty isbn_input) ->
      provider_loop w isbn_input candidates n (p :: later) s
      = provider_loop w isbn_input candidates (S n) later s)
  /\ isbn_fold (u "9787020002201") <> isbn_fold (u "9787020002207").
Proof.
  intros K F D. split; [|split].
  - rewrite isbn_mismatch_iff. tauto.
  - intros N. simpl. rewrite F.
    replace (isbn_mismatch isbn_input detail) with true; [reflexivity|].
    symmetry. apply isbn_mismatch_iff. auto.
  - vm_compute. discriminate.
Qed.

(** *** What one transaction writes *)

(** The row returned by reconciliation is in the table at the position
    returned, the provenance table is untouched, and every row that was
    there before is still at its position: unchanged, or overwritten when
    it is the row returned. *)
Lemma reconcile_frame d st :
  let r := _get_or_create_book_by_detail d st in
  let j := fst (snd r) in
  let book := snd (snd r) in
  books (fst r) !! j = Some book
  /\ sources (fst r) = sources st
  /\ forall i b, books st !! i = Some b ->
       (i <> j /\ books (fst r) !! i = Some b)
       \/ (i = j /\ book = overwrite d b).
Proof.
  unfold _get_or_create_book_by_detail.
  destruct (stripped_or_none (d_isbn d)) as [k|] eqn:K.
  - destruct (first_by_isbn k st) as [[j old]|] eqn:F.
    + pose proof (first_by_isbn_lookup _ _ _ _ F) as [L _]. simpl.
      split; [|split; [reflexivity|]].
      * apply list_lookup_insert_eq. now apply lookup_lt_Some in L.
      * intros i b B. destruct (decide (i = j)) as [->|N].
        -- right. split; [reflexivity|]. congruence.
        -- left. split; [assumption|].
           now rewrite list_lookup_insert_ne by auto.
    + simpl. rewrite insert_last. split; [|split; [reflexivity|]].
      * rewrite lookup_app_r by lia. now rewrite Nat.sub_diag.
      * intros i b B. left. apply lookup_lt_Some in B as Lt.
        split; [lia|]. rewrite lookup_app_l by lia.
        now apply lookup_lt_is_Some_2 in Lt as [x X]; rewrite X in *.
  - simpl. split; [|split; [reflexivity|]].
    + rewrite lookup_app_r by lia. now rewrite Nat.sub_diag.
    + intros i b B. left. apply lookup_lt_Some in B as Lt.
      split; [lia|]. now rewrite lookup_app_l by lia.
Qed.


(** What the body of the transaction leaves: the reconciled row, with a
    category code, at the position reconciliation returned; the cover path
    the row had, or the fetched one when it had none; one more provenance
    row, for the key returned. *)
Lemma ingest_writes w p d st :
  let g := _get_or_create_book_by_detail d st in
  let j := fst (snd g) in
  let r := ingest w p d st in
  exists book,
    books (fst r) = <[j := book]> (books (fst g))
    /\ books (fst r) !! j = Some book
    /\ snd r = id book /\ id book = id (snd (snd g))
    /\ truthy_opt (clc book) = true
    /\ cover_path book
       = (if truthy (fetch_cover w (d_cover_url d))
             && negb (truthy_opt (cover_path (snd (snd g))))
          then Some (fetch_cover w (d_cover_url d))
          else cover_path (snd (snd g)))
    /\ sources (fst r) = sources st ++ [provenance w p d (id book) st].
Proof.
  intros g j r. subst r j g. unfold ingest.
  pose proof (reconcile_frame d st) as (L & S & _).
  destruct (_get_or_create_book_by_detail d st) as [st1 [j book]].
  simpl in L, S. cbv zeta. simpl fst. simpl snd.
  set (book1 := if truthy (fetch_cover w (d_cover_url d))
                   && negb (truthy_opt (cover_path book))
                then set_cover_path (fetch_cover w (d_cover_url d)) book
                else book).
  assert (C1 : cover_path book1
               = (if truthy (fetch_cover w (d_cover_url d))
                     && negb (truthy_opt (cover_path book))
                  then Some (fetch_cover w (d_cover_url d))
                  else cover_path book) /\ id book1 = id book).
  { subst book1. now destruct (truthy _ && negb _). }
  destruct C1 as [C1 I1]. clearbody book1.
  set (book2 := if negb (truthy_opt (clc book1)) then _ else book1).
  assert (C2 : cover_path book2 = cover_path book1 /\ id book2 = id book1
               /\ truthy_opt (clc book2) = true).
  { subst book2. destruct (truthy_opt (clc book1)) eqn:T; simpl; [auto|].
    pose proof (classify_clc_nonblank (llm w) (title_std book1)
      (Some (if truthy_opt (authors_std book1)
             then split_on (ch ",") (or_empty (authors_std book1)) else []))
      (Some (or_empty (summary book1))) (cip book1)) as NB.
    destruct (Classify.classify_clc _ _ _ _ _) as [[[code l] c] src].
    simpl in NB. unfold nonblank in NB. rewrite NB.
    apply andb_prop in NB as [_ NB]. simpl. auto. }
  destruct C2 as (C2 & I2 & T2). clearbody book2.
  exists book2. simpl. split; [reflexivity|]. split.
  { apply list_lookup_insert_eq. now apply lookup_lt_Some in L. }
  split; [reflexivity|]. split; [congruence|]. split; [assumption|].
  split; [congruence|]. unfold add_source, provenance. simpl. now rewrite S.
Qed.


(** A row with a cover path keeps its key and its cover path through the
    body of a transaction. *)
Lemma ingest_keeps_cover w p d st i b :
  books st !! i = Some b -> truthy_opt (cover_path b) = true ->
  exists b', books (fst (ingest w p d st)) !! i = Some b'
             /\ id b' = id b /\ cover_path b' = cover_path b.
Proof.
  intros B C.
  destruct (ingest_writes w p d st) as (book & E & L & _ & I & _ & Cv & _).
  destruct (reconcile_frame d st) as (_ & _ & Fr).
  destruct (Fr i b B) as [[N Li]|[-> Ov]].
  - exists b. rewrite E, list_lookup_insert_ne by auto. auto.
  - exists book. split; [assumption|]. rewrite Cv, I, Ov.
    change (cover_path (overwrite d b)) with (cover_path b).
    rewrite C, andb_false_r. auto.
Qed.

(** The provider loop leaves the committed database as it found it, or
    returns the key of a book after committing exactly one transaction
    body. *)
Lemma provider_loop_commits w isbn_input candidates providers :
  forall n s,
    let r := provider_loop w isbn_input candidates n providers s in
    (committed (fst r) = committed s
     /\ forall bid, snd r = Ok (Some bid) ->
          exists b, b ∈ books (committed s) /\ id b = bid)
    \/ exists p detail,
         In p providers
         /\ committed (fst r) = fst (ingest w p detail (committed s))
         /\ snd r = Ok (Some (snd (ingest w p detail (committed s)))).
Proof.
  induction providers as [|p later IH]; intros n s; simpl.
  { left. split; [reflexivity|]. intros bid [=]. }
  assert (Next : forall s', committed s' = committed s ->
    let r := provider_loop w isbn_input candidates (S n) later s' in
    (committed (fst r) = committed s
     /\ forall bid, snd r = Ok (Some bid) ->
          exists b, b ∈ books (committed s) /\ id b = bid)
    \/ exists p0 detail,
         (p = p0 \/ In p0 later)
         /\ committed (fst r) = fst (ingest w p0 detail (committed s))
         /\ snd r = Ok (Some (snd (ingest w p0 detail (committed s))))).
  { intros s' E. destruct (IH (S n) s') as [[C R]|(p0 & d0 & I & C & R)].
    - left. rewrite <- E. auto.
    - right. exists p0, d0. rewrite <- E. auto. }
  destruct (fetch_detail p isbn_input candidates) as [[detail|]|e];
    [|now apply Next|now apply Next].
  destruct (isbn_mismatch isbn_input detail); [now apply Next|].
  set (d := backfill_isbn isbn_input detail).
  unfold with_transaction. destruct (pending s) eqn:P.
  { left. split; [reflexivity|]. intros bid [=]. }
  destruct (db_fault w n) as [e|].
  - destruct e; try (left; split; [reflexivity|intros bid [=]]).
    destruct (truthy_opt (d_isbn d)); [|now apply Next].
    simpl. destruct (first_by_isbn _ _) as [[j existing]|] eqn:F.
    + left. split; [reflexivity|]. intros bid [= <-]. exists existing.
      split; [|reflexivity]. apply first_by_isbn_lookup in F as [L _].
      eapply list_elem_of_lookup_2, L.
    + now apply Next.
  - destruct (ingest w p d (committed s)) as [st bid] eqn:I.
    right. exists p, d. rewrite I. auto.
Qed.

(** A resolution leaves the database as it found it, or as the body of
    one transaction leaves it. *)
Lemma search_and_ingest_commits w providers query db :
  let r := search_and_ingest w providers query db in
  (fst r = db /\ forall bid, snd r = Ok (Some bid) ->
                   exists b, b ∈ books db /\ id b = bid)
  \/ exists p detail,
       In p providers
       /\ fst r = fst (ingest w p detail db)
       /\ snd r = Ok (Some (snd (ingest w p detail db))).
Proof.
  unfold search_and_ingest.
  destruct (Nlp.split_title_author (ner_backend w) query) as [title authors].
  cbv zeta.
  match goal with |- context [provider_loop ?w ?i ?c ?n ?ps ?s] =>
    pose proof (provider_loop_commits w i c ps n s) as L;
    destruct (provider_loop w i c n ps s) as [s' res]
  end.
  exact L.
Qed.

(** [with session.begin()] commits the whole body or nothing. *)
Lemma with_transaction_atomic {A} fault (body : store -> store * A) s :
  match snd (with_transaction fault body s) with
  | Ok a =>
    pending s = None /\ fault = None
    /\ committed (fst (with_transaction fault body s)) = fst (body (committed s))
    /\ a = snd (body (committed s))
  | Raise _ => committed (fst (with_transaction fault body s)) = committed s
  end.
Proof.
  unfold with_transaction. destruct (pending s); [reflexivity|].
  destruct fault; [reflexivity|].
  destruct (body (committed s)). simpl. auto.
Qed.

(** C10. A row that has a cover path keeps it through any resolution: it
    is still at its position, under its key, with the same cover path. The
    body of a transaction sets the cover path of the reconciled row to the
    fetched one only when a cover was fetched and the row had none. *)
Theorem cover_path_never_replaced w providers query db i b :
  books db !! i = Some b ->
  truthy_opt (cover_path b) = true ->
  (exists b',
     books (fst (search_and_ingest w providers query db)) !! i = Some b'
     /\ id b' = id b /\ cover_path b' = cover_path b)
  /\ (forall p detail,
        let g := _get_or_create_book_by_detail detail db in
        exists book,
          books (fst (ingest w p detail db)) !! fst (snd g) = Some book
          /\ cover_path book
             = (if truthy (fetch_cover w (d_cover_url detail))
                   && negb (truthy_opt (cover_path (snd (snd g))))
                then Some (fetch_cover w (d_cover_url detail))
                else cover_path (snd (snd g)))).
Proof.
  intros B C. split.
  - destruct (search_and_ingest_commits w providers query db)
      as [[E _]|(p & d & _ & E & _)].
    + rewrite E. eauto.
    + rewrite E. now apply ingest_keeps_cover.
  - intros p detail g.
    destruct (ingest_writes w p detail db) as (book & _ & L & _ & _ & _ & Cv & _).
    eauto.
Qed.

End PipelineFacts.

(** ** The theorems at concrete inputs *)

Section Instances.
Import Py Base Db Pipeline Cjk Notions Examples.



Lemma no_isbn_always_new_row_witness :
  let d := detail_of (u "同名书") None None None in
  let r1 := _get_or_create_book_by_detail d (Store [] []) in
  let r2 := _get_or_create_book_by_detail d (fst r1) in
  books (fst r2) = [snd (snd r1); snd (snd r2)]
  /\ id (snd (snd r1)) <> id (snd (snd r2)).
Proof.
  intros d r1 r2.
  assert (K : stripped_or_none (d_isbn d) = None) by (vm_compute; reflexivity).
  destruct (no_isbn_always_new_row d d (Store [] []) K K)
    as (B & _ & I & _).
  split; [exact B|exact I].
Defined.

Lemma overwrite_only_non_empty_witness :
  publisher (snd (snd (_get_or_create_book_by_detail
      (detail_of (u "红楼梦") (Some honglou) (Some (u "B")) None) shelf)))
    = Some (u "B")
  /\ publisher (snd (snd (_get_or_create_book_by_detail
      (detail_of (u "红楼梦") (Some honglou) (Some []) None) shelf)))
    = Some (u "A").
Proof.
  assert (F : first_by_isbn honglou shelf = Some (0, shelved))
    by (vm_compute; reflexivity).
  split.
  - destruct (overwrite_only_non_empty
                (detail_of (u "红楼梦") (Some honglou) (Some (u "B")) None)
                shelf honglou 0 shelved eq_refl F) as (_ & P & _).
    rewrite P. reflexivity.
  - destruct (overwrite_only_non_empty
                (detail_of (u "红楼梦") (Some honglou) (Some []) None)
                shelf honglou 0 shelved eq_refl F) as (_ & P & _).
    rewrite P. reflexivity.
Defined.

Lemma isbn_mismatch_next_provider_witness :
  let wrong := answers (u "douban")
                 (detail_of (u "另一本书") (Some (u "9787020002201")) None None) in
  let right := answers (u "jd")
                 (detail_of (u "红楼梦") (Some (u "978-7-02-000220-7")) None None) in
  provider_loop (world_saving None) (Some honglou) [honglou] 0 [wrong; right]
    (Session (Store [] []) None)
  = provider_loop (world_saving None) (Some honglou) [honglou] 1 [right]
      (Session (Store [] []) None).
Proof.
  intros wrong right.
  apply (isbn_mismatch_next_provider (world_saving None) (Some honglou)
           [honglou] 0 wrong [right] (Session (Store [] []) None)
           (detail_of (u "另一本书") (Some (u "9787020002201")) None None)).
  - reflexivity.
  - reflexivity.
  - reflexivity.
  - vm_compute. discriminate.
Defined.

Lemma cover_path_never_replaced_witness :
  let p := answers (u "douban")
             (detail_of (u "红楼梦") (Some honglou) None
                (Some (u "https://img.example/new.jpg"))) in
  exists b',
    books (fst (search_and_ingest (world_saving (Some (u "new.jpg"))) [p]
                  honglou shelf)) !! 0 = Some b'
    /\ id b' = id shelved /\ cover_path b' = cover_path shelved.
Proof.
  intros p.
  exact (proj1 (cover_path_never_replaced (world_saving (Some (u "new.jpg")))
                  [p] honglou shelf 0 shelved eq_refl eq_refl)).
Defined.

(** The example of the ISBN guard, from the query to the stored row: the
    first provider's detail is turned down and the second one's is
    stored. *)
Lemma mismatched_detail_not_stored :
  let wrong := answers (u "douban")
                 (detail_of (u "另一本书") (Some (u "9787020002201")) None None) in
  let right := answers (u "jd")
                 (detail_of (u "红楼梦") (Some (u "978-7-02-000220-7")) None None) in
  let r := search_and_ingest (world_saving None) [wrong; right] honglou
             (Store [] []) in
  snd r = Ok (Some 1%N)
  /\ map title_std (books (fst r)) = [u "红楼梦"]
  /\ map source_site (sources (fst r)) = [u "jd"].
Proof. vm_compute. auto. Qed.

(** A fetched cover is stored when the row had none. *)
Lemma cover_stored_when_empty :
  let p := answers (u "douban")
             (detail_of (u "红楼梦") (Some honglou) None
                (Some (u "https://img.example/new.jpg"))) in
  map cover_path
    (books (fst (search_and_ingest (world_saving (Some (u "new.jpg"))) [p]
                   honglou (Store [] []))))
  = [Some (u "covers/new.jpg")].
Proof. vm_compute. reflexivity. Qed.

End Instances.

(** * Further properties *)

(** ** Quantified classes under [re.sub] *)

Section RunFacts.
Import Py Re Notions Text.

Lemma take_drop_while p s : take_while p s ++ drop_while p s = s.
Proof.
  induction s as [|c r IH]; simpl; [reflexivity|].
  destruct (p c); simpl; [now rewrite IH|reflexivity].
Qed.

Lemma take_while_all p s : forallb p (take_while p s) = true.
Proof.
  induction s as [|c r IH]; simpl; [reflexivity|].
  destruct (p c) eqn:P; simpl; [now rewrite P|reflexivity].
Qed.

Lemma drop_while_head p s :
  match drop_while p s with c :: _ => p c = false | [] => True end.
Proof.
  induction s as [|c r IH]; simpl; [exact I|].
  destruct (p c) eqn:P; [assumption|assumption].
Qed.

(** An unbounded greedy class followed by nothing reads the whole run, and
    matches when the run is long enough. *)
Lemma rep_greedy_run p gs rs : forall lo sn,
  rep p lo None true Some gs sn rs
  = if Nat.leb lo (length (take_while p rs))
    then Some (Cursor (rev (take_while p rs) ++ sn) (drop_while p rs) gs)
    else None.
Proof.
  induction rs as [|x xs IH]; intros lo sn; simpl.
  - destruct lo; reflexivity.
  - destruct (p x) eqn:P; simpl.
    + rewrite IH. destruct lo as [|lo]; simpl.
      * now rewrite <- app_assoc.
      * destruct (Nat.leb lo (length (take_while p xs)));
          [now rewrite <- app_assoc|reflexivity].
    + destruct lo; reflexivity.
Qed.

Lemma match_at_run p lo sn rs :
  match_at (Rep p lo None true) sn rs
  = if Nat.leb lo (length (take_while p rs))
    then Some (ReMatch (Cursor sn rs [])
                 (Cursor (rev (take_while p rs) ++ sn) (drop_while p rs) []))
    else None.
Proof.
  unfold match_at. simpl. rewrite rep_greedy_run.
  now destruct (Nat.leb lo (length (take_while p rs))).
Qed.

(** One step of [re.sub] for a class quantified [{lo,}] with [lo >= 1]:
    a run of at least [lo] characters is replaced as a whole, any other
    character is copied. *)
Lemma sub_go_run_step p lo repl fuel sn rs :
  1 <= lo ->
  sub_go (S fuel) (Rep p lo None true) repl sn rs
  = if Nat.leb lo (length (take_while p rs))
    then repl ++ sub_go fuel (Rep p lo None true) repl
                   (rev (take_while p rs) ++ sn) (drop_while p rs)
    else match rs with
         | [] => []
         | x :: xs => x :: sub_go fuel (Rep p lo None true) repl (x :: sn) xs
         end.
Proof.
  intros L. simpl sub_go. rewrite match_at_run.
  destruct (Nat.leb_spec lo (length (take_while p rs))); [|reflexivity].
  simpl. unfold pos. simpl. rewrite length_app, length_rev.
  destruct (Nat.ltb_spec (length sn) (length (take_while p rs) + length sn));
    [reflexivity|lia].
Qed.

End RunFacts.

(** ** Whitespace normalisation *)

Section WhitespaceFacts.
Import Py Re Utils Notions Text.

Lemma take_while_length_space rs :
  starts_space rs = true -> 1 <= length (take_while isspace rs).
Proof. destruct rs as [|x xs]; simpl; [discriminate|]. intros ->. simpl. lia. Qed.

Lemma take_while_length_space2 x xs :
  isspace x = true -> starts_space xs = true ->
  2 <= length (take_while isspace (x :: xs)).
Proof.
  intros X S. simpl. rewrite X. simpl.
  apply take_while_length_space in S. lia.
Qed.

Lemma starts_space_drop_while s : starts_space (drop_while isspace s) = false.
Proof.
  pose proof (drop_while_head isspace s) as D.
  destruct (drop_while isspace s); simpl; auto.
Qed.

(** Replacing whitespace runs of at least [lo] characters ([lo] one or
    two) by one space: the result starts with whitespace exactly when the
    subject does, and has no two whitespace characters side by side. *)
Lemma sub_spaces_shape lo : 1 <= lo <= 2 -> forall fuel sn rs,
  length rs < fuel ->
  let out := sub_go fuel (Rep isspace lo None true) (u " ") sn rs in
  starts_space out = starts_space rs /\ no_adjacent_spaces out = true.
Proof.
  intros L. change (u " ") with [32%N].
  induction fuel as [|fuel IH]; intros sn rs F; [lia|].
  cbv zeta. rewrite sub_go_run_step by lia.
  destruct (Nat.leb_spec lo (length (take_while isspace rs))) as [Run|Run].
  - assert (Lt : length (drop_while isspace rs) < fuel).
    { rewrite <- (take_drop_while isspace rs) in F at 1.
      rewrite length_app in F. lia. }
    destruct (IH (rev (take_while isspace rs) ++ sn) _ Lt) as [S N].
    rewrite starts_space_drop_while in S. simpl app.
    split.
    + destruct rs as [|x xs]; simpl in *; [lia|].
      destruct (isspace x); simpl in *; [reflexivity|lia].
    + simpl. rewrite N.
      destruct (sub_go fuel _ _ _ (drop_while isspace rs)) as [|d out'];
        [reflexivity|]. simpl in S. rewrite S. reflexivity.
  - destruct rs as [|x xs]; [split; reflexivity|].
    simpl in F. destruct (IH (x :: sn) xs ltac:(lia)) as [S N].
    split; [reflexivity|]. simpl. rewrite N.
    destruct (sub_go fuel _ _ (x :: sn) xs) as [|d out'] eqn:O;
      [reflexivity|].
    simpl in S. rewrite S. rewrite andb_true_r.
    destruct (isspace x) eqn:X; [|reflexivity].
    destruct (starts_space xs) eqn:Sx; [|reflexivity].
    pose proof (take_while_length_space2 x xs X Sx).
    pose proof (take_while_length_space (x :: xs)) as T1. simpl in T1.
    lia.
Qed.

(** Replacing every whitespace run by one space leaves the plain space as
    the only whitespace character. *)
Lemma sub_spaces_plain : forall fuel sn rs,
  length rs < fuel ->
  only_plain_spaces (sub_go fuel (Plus isspace) (u " ") sn rs) = true.
Proof.
  unfold Plus. change (u " ") with [32%N].
  induction fuel as [|fuel IH]; intros sn rs F; [lia|].
  rewrite sub_go_run_step by lia.
  destruct (Nat.leb_spec 1 (length (take_while isspace rs))) as [Run|Run].
  - simpl app. simpl. apply IH.
    rewrite <- (take_drop_while isspace rs) in F at 1.
    rewrite length_app in F. lia.
  - destruct rs as [|x xs]; [reflexivity|]. simpl in *.
    rewrite IH by lia. destruct (isspace x); simpl in *; [lia|reflexivity].
Qed.


(** *** [str.strip] *)

Lemma drop_while_In p s c : In c (drop_while p s) -> In c s.
Proof.
  induction s as [|x r IH]; simpl; [auto|].
  destruct (p x); simpl; auto.
Qed.

Lemma strip_by_In p s c : In c (strip_by p s) -> In c s.
Proof.
  unfold strip_by, rstrip_by, lstrip_by. rewrite <- in_rev.
  intros I. apply drop_while_In in I. rewrite <- in_rev in I.
  now apply drop_while_In in I.
Qed.

(** What [rstrip] removes is a suffix. *)
Lemma rstrip_by_prefix p s :
  s = rstrip_by p s ++ rev (take_while p (rev s)).
Proof.
  unfold rstrip_by. rewrite <- rev_app_distr, take_drop_while.
  now rewrite rev_involutive.
Qed.

Lemma no_adjacent_spaces_app a b :
  no_adjacent_spaces (a ++ b) = true ->
  no_adjacent_spaces a = true /\ no_adjacent_spaces b = true.
Proof.
  induction a as [|x a IH]; simpl; [auto|].
  intros [H1 H2]%andb_prop. destruct (IH H2) as [A B]. split; [|assumption].
  rewrite A, andb_true_r. destruct a as [|y a]; [reflexivity|assumption].
Qed.

Lemma no_adjacent_spaces_strip s :
  no_adjacent_spaces s = true -> no_adjacent_spaces (strip s) = true.
Proof.
  intros N. unfold strip, strip_by.
  assert (N1 : no_adjacent_spaces (lstrip_by isspace s) = true).
  { unfold lstrip_by. rewrite <- (take_drop_while isspace s) in N.
    now apply no_adjacent_spaces_app in N. }
  rewrite (rstrip_by_prefix isspace (lstrip_by isspace s)) in N1.
  now apply no_adjacent_spaces_app in N1.
Qed.

Lemma drop_while_nonempty_last p l c :
  In c l -> p c = false -> drop_while p (rev l) <> [].
Proof.
  intros I P E. rewrite in_rev in I.
  induction (rev l) as [|x r IH]; simpl in *; [auto|].
  destruct (p x) eqn:Px; [|discriminate].
  destruct I as [->|I]; [congruence|auto].
Qed.

(** A stripped text neither starts nor ends with a stripped character. *)
Lemma strip_by_trimmed p s : trimmed_of p (strip_by p s) = true.
Proof.
  unfold strip_by, lstrip_by.
  pose proof (drop_while_head p s) as Hd.
  destruct (drop_while p s) as [|h l] eqn:D; [reflexivity|].
  unfold rstrip_by.
  pose proof (drop_while_head p (rev (h :: l))) as Hl.
  assert (Ne : drop_while p (rev (h :: l)) <> [])
    by (apply (drop_while_nonempty_last p (h :: l) h); simpl; auto).
  pose proof (take_drop_while p (rev (h :: l))) as TD.
  destruct (drop_while p (rev (h :: l))) as [|z r] eqn:E; [congruence|].
  (* h :: l = rev r ++ [z] ++ rev (take ...) *)
  assert (Hs : h :: l = rev (z :: r) ++ rev (take_while p (rev (h :: l)))).
  { rewrite <- rev_app_distr, TD. now rewrite rev_involutive. }
  simpl rev in Hs |- *.
  assert (Hh : exists t, rev r ++ [z] = h :: t).
  { destruct (rev r) as [|a t]; simpl in Hs |- *.
    - inversion Hs; subst. eauto.
    - inversion Hs; subst. eauto. }
  destruct Hh as [t Ht]. rewrite Ht. unfold trimmed_of.
  replace (List.last (h :: t) h) with z
    by (rewrite <- Ht; now rewrite last_last).
  now rewrite Hd, Hl.
Qed.

Lemma strip_by_id p s : trimmed_of p s = true -> strip_by p s = s.
Proof.
  destruct s as [|c r]; [reflexivity|]. unfold trimmed_of.
  intros [Hc Hl]%andb_prop. apply negb_true_iff in Hc, Hl.
  unfold strip_by, lstrip_by, rstrip_by. simpl drop_while at 2. rewrite Hc.
  destruct (exists_last (l := c :: r) ltac:(discriminate)) as (l' & z & E).
  rewrite E in *. rewrite last_last in Hl.
  rewrite rev_app_distr. simpl. rewrite Hl. simpl.
  now rewrite rev_involutive.
Qed.

(** *** [normalize_whitespace] *)

Lemma normalize_whitespace_plain s :
  only_plain_spaces (normalize_whitespace s) = true.
Proof.
  unfold normalize_whitespace, sub, only_plain_spaces.
  apply forallb_forall. intros c I. apply strip_by_In in I.
  pose proof (sub_spaces_plain (S (length s)) [] s ltac:(lia)) as P.
  unfold only_plain_spaces in P. rewrite forallb_forall in P. auto.
Qed.

Lemma normalize_whitespace_single s :
  no_adjacent_spaces (normalize_whitespace s) = true.
Proof.
  unfold normalize_whitespace, sub. apply no_adjacent_spaces_strip.
  apply (sub_spaces_shape 1 ltac:(lia) (S (length s)) [] s). lia.
Qed.

(** X1. The result of [normalize_whitespace] is clean: its only whitespace
    characters are plain spaces, never two in a row, and none at either
    end. *)
Theorem normalize_whitespace_clean s :
  only_plain_spaces (normalize_whitespace s) = true
  /\ no_adjacent_spaces (normalize_whitespace s) = true
  /\ trimmed (normalize_whitespace s) = true.
Proof.
  split; [|split].
  - apply normalize_whitespace_plain.
  - apply normalize_whitespace_single.
  - unfold normalize_whitespace. apply strip_by_trimmed.
Qed.

(** A clean text is left as it is by the replacement of whitespace
    runs. *)
Lemma sub_spaces_id : forall fuel sn rs,
  length rs < fuel ->
  only_plain_spaces rs = true -> no_adjacent_spaces rs = true ->
  sub_go fuel (Plus isspace) (u " ") sn rs = rs.
Proof.
  unfold Plus. change (u " ") with [32%N].
  induction fuel as [|fuel IH]; intros sn rs F P N; [lia|].
  rewrite sub_go_run_step by lia.
  destruct rs as [|x xs]; [reflexivity|].
  simpl in F, P, N. apply andb_prop in P as [Px P], N as [Nx N].
  simpl take_while. simpl drop_while.
  destruct (isspace x) eqn:X.
  - simpl in Px. apply N.eqb_eq in Px. subst x.
    assert (Sx : starts_space xs = false).
    { destruct xs as [|d xs']; [reflexivity|]. simpl in *.
      now destruct (isspace d). }
    assert (T : take_while isspace xs = [] /\ drop_while isspace xs = xs).
    { destruct xs as [|d xs']; [auto|]. simpl in *. now rewrite Sx. }
    destruct T as [T D]. rewrite T, D. simpl. f_equal. apply IH; auto; lia.
  - simpl. f_equal. apply IH; auto; lia.
Qed.

(** X2. [normalize_whitespace] is idempotent. *)
Theorem normalize_whitespace_idempotent s :
  normalize_whitespace (normalize_whitespace s) = normalize_whitespace s.
Proof.
  pose proof (normalize_whitespace_plain s) as P.
  pose proof (normalize_whitespace_single s) as N.
  assert (T : trimmed (normalize_whitespace s) = true)
    by (unfold normalize_whitespace; apply strip_by_trimmed).
  set (r := normalize_whitespace s) in *.
  unfold normalize_whitespace at 1. unfold sub.
  rewrite sub_spaces_id by (auto; lia).
  now apply strip_by_id.
Qed.

End WhitespaceFacts.

(** ** [find_isbn] *)

Section IsbnFacts.
Import Py Re Utils Notions Text IsbnNotions.
Context `{UCD}.

Local Ltac takes_apart :=
  repeat match goal with
         | T : takes (Seq _ _) _ _ _ |- _ => inv T
         | T : takes (Alt _ _) _ _ _ |- _ => inv T
         | T : takes (Grp _ _) _ _ _ |- _ => inv T
         | T : takes (Chr _) _ _ _ |- _ => inv T
         | T : takes (Lit _) _ _ _ |- _ => inv T
         | T : takes (Rep _ _ _ _) _ _ _ |- _ => inv T
         | T : takes Eps _ _ _ |- _ => inv T
         end.

(** Removing the characters of a class with [re.sub]. *)
Lemma sub_go_remove p : forall fuel sn rs,
  length rs < fuel ->
  sub_go fuel (Chr p) [] sn rs = List.filter (fun c => negb (p c)) rs.
Proof.
  induction fuel as [|fuel IH]; intros sn rs F; [lia|].
  simpl sub_go. unfold match_at. simpl rmatch.
  destruct rs as [|x xs]; [reflexivity|]. simpl in *.
  destruct (p x); simpl.
  - unfold pos. simpl. destruct (Nat.ltb_spec (length sn) (S (length sn)));
      [|lia]. apply IH. lia.
  - f_equal. apply IH. lia.
Qed.

Lemma strip_prefix_app p s : strip_prefix p (p ++ s) = Some s.
Proof.
  induction p as [|a p IH]; simpl; [reflexivity|].
  unfold chr_eqb. now rewrite N.eqb_refl.
Qed.

(** The text [find_isbn] searches: the argument without hyphens and
    whitespace. *)
Lemma find_isbn_subject text :
  sub (Chr (fun c => chr_eqb c (ch "-") || isspace c)) [] text
  = unhyphenated text.
Proof. unfold sub. now rewrite sub_go_remove by lia. Qed.

(** For a pattern that is one group, [group(1)] is [group(0)]. *)
Lemma group1_whole r sn rs m :
  match_at (Grp 1 r) sn rs = Some m -> group 1 m = group0 m.
Proof.
  intros M. pose proof (match_at_takes _ _ _ _ M) as T.
  inversion T as [| | | | | | |n r0 c t c' T0 E1 E2 E3 E4| | |]; subst.
  unfold group. rewrite <- E4. simpl.
  apply takes_reads in T0. now rewrite (span_reads _ _ _ T0).
Qed.

(** X3. What [find_isbn] returns is part of the text without hyphens and
    whitespace, and is either 978 or 979 followed by ten digits, or nine
    digits followed by a digit or X. *)
Theorem find_isbn_shape text i :
  find_isbn text = Some i ->
  (exists pre post, unhyphenated text = pre ++ i ++ post)
  /\ isbn_shape i = true.
Proof.
  unfold find_isbn. destruct (truthy text); simpl; [|discriminate].
  rewrite find_isbn_subject.
  destruct (search ISBN_RE (unhyphenated text)) as [m|] eqn:S; [|discriminate].
  intros [= <-]. apply search_from_Some in S as (pre & rs' & E & M).
  rewrite (group1_whole _ _ _ _ M). split.
  - apply match_at_reads in M as [St [R _]]. rewrite St in R. simpl in R.
    exists pre, (rest (m_end m)). now rewrite E, R.
  - apply match_at_takes in M. unfold ISBN_RE, Exactly in M.
    takes_apart; unfold isbn_shape; apply orb_true_iff; [left|right].
    + match goal with
      | D : forallb isdecimal ?ds = true, L : 10 <= length ?ds,
        B : context [Some 10 = Some _] |- _ =>
        specialize (B 10 eq_refl);
        assert (length ds = 10) as Len by lia
      end.
      unfold isbn13_shape. rewrite strip_prefix_app. cbn [app].
      match goal with P : one_of _ ?x = true |- _ => rewrite P end.
      match goal with D : forallb isdecimal ?ds = true |- _ => rewrite D end.
      rewrite Len. reflexivity.
    + match goal with
      | D : forallb isdecimal ?ds = true, L : 9 <= length ?ds,
        B : context [Some 9 = Some _] |- _ =>
        specialize (B 9 eq_refl);
        assert (length ds = 9) as Len by lia
      end.
      unfold isbn10_shape. rewrite length_app. simpl length.
      rewrite Len. simpl Nat.eqb. cbv iota.
      rewrite removelast_last, last_last.
      match goal with D : forallb isdecimal ?ds = true |- _ => rewrite D end.
      cbn [andb].
      match goal with P : ascii_digit _ || _ = true |- _ => exact P end.
Qed.

(** What [find_isbn] returns is not empty. *)
Lemma find_isbn_nonempty text i : find_isbn text = Some i -> truthy i = true.
Proof.
  unfold find_isbn. destruct (truthy text); simpl; [|discriminate].
  rewrite find_isbn_subject.
  destruct (search ISBN_RE (unhyphenated text)) as [m|] eqn:S; [|discriminate].
  intros [= <-]. apply search_from_Some in S as (pre & rs' & E & M).
  rewrite (group1_whole _ _ _ _ M).
  apply match_at_takes in M. unfold ISBN_RE, Exactly in M.
  takes_apart.
  - reflexivity.
  - match goal with |- truthy (?ds ++ _) = true => now destruct ds end.
Qed.

(** A class quantified [{n}] reads exactly the next [n] characters when
    they are of the class. *)
Lemma rep_exact p k gs t : forall n sn rs,
  length t = n -> forallb p t = true ->
  rep p n (Some n) true k gs sn (t ++ rs) = k (Cursor (rev t ++ sn) rs gs).
Proof.
  induction t as [|x t IH]; intros n sn rs L P; simpl in L; subst n.
  - simpl. destruct rs as [|y ys]; simpl.
    + now destruct (k (Cursor sn [] gs)).
    + rewrite andb_false_r. now destruct (k (Cursor sn (y :: ys) gs)).
  - simpl in P. apply andb_prop in P as [Px Pt].
    simpl. rewrite Px. simpl. rewrite IH by auto.
    rewrite <- app_assoc. simpl.
    now destruct (k (Cursor (rev t ++ x :: sn) rs gs)).
Qed.

Lemma ascii_digit_isdecimal c : ascii_digit c = true -> isdecimal c = true.
Proof.
  unfold isdecimal, is_ascii. intros D. pose proof D as D'.
  unfold ascii_digit, in_range in D'. apply andb_prop in D' as [_ D'].
  apply N.leb_le in D'. destruct (N.ltb_spec c 128); [exact D|lia].
Qed.

(** X4. When the text, hyphens and whitespace apart, begins with 978 or 979
    and ten ASCII digits, [find_isbn] returns these thirteen characters. *)
Theorem find_isbn_leading_13 text c ds tail :
  unhyphenated text = u "97" ++ c :: ds ++ tail ->
  one_of (u "89") c = true ->
  length ds = 10 -> forallb ascii_digit ds = true ->
  find_isbn text = Some (u "97" ++ c :: ds).
Proof.
  intros U C L D.
  assert (Dd : forallb isdecimal ds = true).
  { apply forallb_forall. intros x I. apply ascii_digit_isdecimal.
    rewrite forallb_forall in D. auto. }
  assert (T : truthy text = true).
  { destruct text; [discriminate U|reflexivity]. }
  unfold find_isbn. rewrite T. cbn [negb]. rewrite find_isbn_subject, U.
  assert (M : exists m,
    match_at ISBN_RE [] (u "97" ++ c :: ds ++ tail) = Some m
    /\ rest (m_end m) = tail).
  { unfold match_at, ISBN_RE, Exactly. cbn [rmatch rest seen groups].
    rewrite strip_prefix_app. cbn [rmatch rest seen groups]. rewrite C.
    rewrite rep_exact by auto. eexists. split; reflexivity. }
  destruct M as (m & M & R).
  unfold search. replace (search_from ISBN_RE [] (u "97" ++ c :: ds ++ tail))
    with (Some m) by (change (u "97") with [57%N; 55%N] in *; simpl app in *;
                      simpl search_from; now rewrite M).
  f_equal. rewrite (group1_whole _ _ _ _ M).
  apply match_at_reads in M as [St [Rd _]]. rewrite St, R in Rd. simpl in Rd.
  apply (app_inv_tail tail). rewrite <- Rd. now rewrite <- !app_assoc.
Qed.

End IsbnFacts.

(** ** The splitter, further *)

Section NlpMoreFacts.
Import Py Re Utils Nlp Notions Text NlpNotions.

Lemma filter_everything {A} (P : A -> Prop) `{forall x, Decision (P x)}
    (l : list A) :
  (forall x, P x) -> filter P l = l.
Proof.
  intros All. induction l as [|x l IH]; [reflexivity|].
  rewrite filter_cons_True by auto. now rewrite IH.
Qed.

Lemma dedup_loop_first_seen authors : forall out (seen : gset pystr),
  (forall x, x ∈ seen <-> x ∈ out) ->
  dedup_loop authors out seen
  = out ++ filter (fun x => x ∉ seen)
             (first_occurrences (omap cleaned_author authors)).
Proof.
  induction authors as [|a more IH]; intros out seen S; simpl.
  { now rewrite app_nil_r. }
  unfold cleaned_author at 1. cbv zeta.
  destruct (truthy (normalize_whitespace a)); simpl; [|now apply IH].
  set (a' := if has_role_suffix _ then _ else _).
  rewrite filter_cons. rewrite list_filter_filter.
  destruct (decide (a' ∈ seen)) as [I|I].
  - rewrite decide_False by tauto. rewrite IH by assumption. f_equal.
    apply list_filter_iff. intros x. split; [|tauto].
    intros N. split; [assumption|]. intros ->. tauto.
  - rewrite decide_True by assumption.
    rewrite IH.
    + rewrite <- app_assoc. simpl. do 2 f_equal.
      apply list_filter_iff. intros x.
      rewrite elem_of_union, elem_of_singleton. tauto.
    + intros x. rewrite elem_of_union, elem_of_singleton, elem_of_app,
        list_elem_of_singleton, S. tauto.
Qed.

Lemma dedup_loop_length authors : forall out (seen : gset pystr),
  length (dedup_loop authors out seen) <= length out + length authors.
Proof.
  induction authors as [|a more IH]; intros out seen; simpl; [lia|].
  destruct (truthy (normalize_whitespace a)); simpl.
  - destruct (decide _).
    + specialize (IH out seen). lia.
    + match goal with |- context [dedup_loop more ?o ?s] =>
        specialize (IH o s) end.
      rewrite length_app in IH. simpl in IH. lia.
  - specialize (IH out seen). lia.
Qed.

Lemma dedup_authors_length authors :
  length (_dedup_authors authors) <= length authors.
Proof. apply (dedup_loop_length authors [] ∅). Qed.

(** X5. [_dedup_authors] returns the cleaned entries in the order in
    which each one is first seen: no entry twice, and no more entries
    than it was given. *)
Theorem dedup_authors_first_seen authors :
  _dedup_authors authors = first_occurrences (omap cleaned_author authors)
  /\ NoDup (_dedup_authors authors)
  /\ length (_dedup_authors authors) <= length authors.
Proof.
  split; [|split; [apply dedup_authors_NoDup|apply dedup_authors_length]].
  unfold _dedup_authors. rewrite dedup_loop_first_seen.
  - simpl. apply filter_everything. intros x. apply not_elem_of_empty.
  - intros x. rewrite elem_of_empty, elem_of_nil. tauto.
Qed.

End NlpMoreFacts.

Section SplitFacts.
Import Py Re Utils Nlp Notions Text NlpNotions.
Context `{UCD}.

Lemma take_while_everything p s : forallb p s = true -> take_while p s = s.
Proof.
  induction s as [|c r IH]; simpl; [reflexivity|].
  intros [-> R]%andb_prop. now rewrite IH.
Qed.

Lemma drop_while_everything p s : forallb p s = true -> drop_while p s = [].
Proof.
  induction s as [|c r IH]; simpl; [reflexivity|].
  intros [-> R]%andb_prop. now apply IH.
Qed.

(** A text of whitespace only is normalised to the empty text. *)
Lemma normalize_whitespace_blank s :
  forallb isspace s = true -> normalize_whitespace s = [].
Proof.
  intros B. unfold normalize_whitespace, sub, Plus.
  rewrite sub_go_run_step by lia.
  rewrite take_while_everything, drop_while_everything by assumption.
  destruct s as [|c r]; [reflexivity|]. simpl length. cbn [Nat.leb].
  destruct (length r); reflexivity.
Qed.

(** X6. On an empty or blank query the splitter returns the empty title
    and no author, whatever backend is loaded. *)
Theorem split_title_author_blank loaded s :
  forallb isspace s = true -> split_title_author loaded s = ([], []).
Proof.
  intros B. unfold split_title_author.
  now rewrite normalize_whitespace_blank.
Qed.

Lemma dedup_authors_nil : _dedup_authors [] = [].
Proof. reflexivity. Qed.

(** What the extractor returns for a backend that reports no person: no
    author, hence a result the splitter does not trust. *)
Lemma extract_no_person b s :
  (forall text, reported_authors b text = []) ->
  ner_authors (_extract_title_author_via_ner (Some b) s) = [].
Proof.
  intros R. unfold _extract_title_author_via_ner.
  destruct (truthy (clean_line s)); cbn [negb]; [|reflexivity].
  specialize (R (clean_line s)).
  destruct b as [model|model|model]; simpl in R |- *.
  - unfold _extract_with_persons.
    destruct (model (clean_line s)); [|reflexivity]. simpl. assumption.
  - unfold _extract_with_persons.
    destruct (model (clean_line s)); [|reflexivity]. simpl. assumption.
  - unfold _extract_with_spacy.
    destruct (model (clean_line s)) as [[persons works]|]; [|reflexivity].
    simpl. assumption.
Qed.

(** X7. A backend that reports no person name changes nothing: the result
    is the one obtained without any backend. *)
Theorem split_title_author_no_person b s :
  (forall text, reported_authors b text = []) ->
  split_title_author (Some b) s = split_title_author None s.
Proof.
  intros R. unfold split_title_author.
  destruct (truthy (normalize_whitespace s)); cbn [negb]; [|reflexivity].
  cbv zeta. rewrite (extract_no_person b _ R).
  assert (N : ner_authors (_extract_title_author_via_ner None
                             (clean_line (normalize_whitespace s))) = []).
  { unfold _extract_title_author_via_ner.
    now destruct (truthy (clean_line (clean_line _))). }
  rewrite N. rewrite dedup_authors_nil.
  now destruct (_heuristic_title_author _).
Qed.

Lemma heuristic_one_author s :
  length (snd (_heuristic_title_author s)) <= 1.
Proof.
  unfold _heuristic_title_author. cbv zeta.
  destruct (search TITLE_AUTHOR_HINT (clean_line s)).
  { cbn [snd]. apply (dedup_authors_length [_]). }
  match goal with |- context [search ?r (clean_line s)] =>
    destruct (search r (clean_line s)) end.
  - destruct (Nat.leb (length (group 2 r)) 12).
    + cbn [snd]. apply (dedup_authors_length [_]).
    + destruct (_ && _); cbn [snd]; [apply (dedup_authors_length [_])|].
      simpl. lia.
  - destruct (_ && _); cbn [snd]; [apply (dedup_authors_length [_])|].
    simpl. lia.
Qed.

(** X8. Without a backend the splitter returns at most one author. *)
Theorem split_title_author_rule_one_author s :
  length (snd (split_title_author None s)) <= 1.
Proof.
  unfold split_title_author.
  destruct (truthy (normalize_whitespace s)); cbn [negb]; [|simpl; lia].
  cbv zeta.
  assert (N : ner_authors (_extract_title_author_via_ner None
                             (clean_line (normalize_whitespace s))) = []).
  { unfold _extract_title_author_via_ner.
    now destruct (truthy (clean_line (clean_line _))). }
  rewrite N, dedup_authors_nil.
  pose proof (heuristic_one_author (clean_line (normalize_whitespace s))) as L.
  destruct (_heuristic_title_author _) as [t a]. cbn [snd andb] in *.
  pose proof (dedup_authors_length a). lia.
Qed.

End SplitFacts.

(** ** [clean_line] *)

Section CleanLineFacts.
Import Py Re Utils Nlp Notions Text NlpNotions.
Context `{UCD}.

(** [re.sub] for a quantified class only copies characters of the subject
    and of the replacement. *)
Lemma sub_go_run_In p lo repl c : 1 <= lo -> forall fuel sn rs,
  In c (sub_go fuel (Rep p lo None true) repl sn rs) -> In c repl \/ In c rs.
Proof.
  intros L. induction fuel as [|fuel IH]; intros sn rs I.
  { right. exact I. }
  rewrite sub_go_run_step in I by assumption.
  destruct (Nat.leb lo (length (take_while p rs))).
  - apply in_app_or in I as [I|I]; [now left|].
    apply IH in I as [I|I]; [now left|]. right.
    now apply drop_while_In in I.
  - destruct rs as [|x xs]; [now right|].
    destruct I as [->|I]; [right; now left|].
    apply IH in I as [I|I]; [now left|right; now right].
Qed.

(** After [s.replace(old, new)] the character [old] occurs only where
    [new] brings it. *)
Lemma replace_char_In old new s c :
  In c (replace_char old new s) ->
  In c new \/ (In c s /\ c <> old).
Proof.
  unfold replace_char. induction s as [|x r IH]; simpl; [tauto|].
  intros [I|I]%in_app_or.
  - destruct (chr_eqb x old) eqn:E; [now left|].
    destruct I as [<-|[]]. right. split; [now left|].
    intros ->. unfold chr_eqb in E. now rewrite N.eqb_refl in E.
  - destruct (IH I) as [?|[? ?]]; [now left|right; split; auto].
Qed.

(** X9. The result of [clean_line] contains none of the separators
    [+ / 、], ideographic space and tab, has no two whitespace characters
    side by side, and neither starts nor ends with whitespace. *)
Theorem clean_line_clean s :
  forallb (fun c => negb (is_separator c)) (clean_line s) = true
  /\ no_adjacent_spaces (clean_line s) = true
  /\ trimmed (clean_line s) = true.
Proof.
  unfold clean_line. cbv zeta. split; [|split].
  - apply forallb_forall. intros c I.
    apply strip_by_In in I. unfold sub in I.
    apply sub_go_run_In in I; [|lia].
    assert (Sp : forall x, In x (u " ") -> is_separator x = false).
    { intros x [<-|[]]. reflexivity. }
    destruct I as [I|I]; [now rewrite Sp|].
    apply replace_char_In in I as [I|[I N1]]; [now rewrite Sp|].
    apply replace_char_In in I as [I|[I N2]]; [now rewrite Sp|].
    apply replace_char_In in I as [I|[I N3]]; [now rewrite Sp|].
    apply replace_char_In in I as [I|[I N4]]; [now rewrite Sp|].
    apply replace_char_In in I as [I|[I N5]]; [now rewrite Sp|].
    apply negb_true_iff. unfold is_separator, one_of, chr_eqb. simpl existsb.
    repeat match goal with
           | N : c <> _ |- _ => apply N.eqb_neq in N; vm_compute in N
           end.
    repeat match goal with
           | |- context [N.eqb c ?k] =>
             let E := fresh in
             destruct (N.eqb c k) eqn:E; [vm_compute in E; congruence|]
           end.
    reflexivity.
  - apply no_adjacent_spaces_strip.
    match goal with |- context [sub ?r ?repl ?t] =>
      apply (sub_spaces_shape 2 ltac:(lia) (S (length t)) [] t) end. lia.
  - apply strip_by_trimmed.
Qed.

End CleanLineFacts.

(** ** The rule-based classifier *)

Section ScoreFacts.
Import Py Re Classify Notions ClassifyNotions.
Context `{UCD}.

Lemma dict_alter_ext {V} (f g : V -> V) k d :
  (forall v, f v = g v) -> dict_alter f k d = dict_alter g k d.
Proof.
  intros E. induction d as [|[k' v] d IH]; simpl; [reflexivity|].
  destruct (str_eqb k' k); [now rewrite E|now rewrite IH].
Qed.

Lemma dict_alter_same {V} k (d : list (pystr * V)) :
  dict_alter (fun v => v) k d = d.
Proof.
  induction d as [|[k' v] d IH]; simpl; [reflexivity|].
  destruct (str_eqb k' k); [reflexivity|now rewrite IH].
Qed.

Lemma dict_alter_twice {V} (f g : V -> V) k d :
  dict_alter f k (dict_alter g k d) = dict_alter (fun v => f (g v)) k d.
Proof.
  induction d as [|[k' v] d IH]; simpl; [reflexivity|].
  destruct (str_eqb k' k) eqn:E; simpl; rewrite E; [reflexivity|].
  now rewrite IH.
Qed.

Lemma dict_alter_other {V} (f : V -> V) k k' v d :
  k' <> k -> dict_alter f k ((k', v) :: d) = (k', v) :: dict_alter f k d.
Proof.
  intros N. simpl. unfold str_eqb. now rewrite bool_decide_eq_false_2.
Qed.

Lemma dict_alter_head {V} (f : V -> V) k v d :
  dict_alter f k ((k, v) :: d) = (k, f v) :: d.
Proof. simpl. unfold str_eqb. now rewrite bool_decide_eq_true_2. Qed.

(** The keywords of one category change the score of that category only,
    by one [base] for each keyword that counts. *)
Lemma score_one_category text code kws : forall scores,
  fold_left
    (fun scores kw =>
       if truthy kw && contains (lower text) (lower kw)
       then dict_alter (fun v => (v + base_of code)%float) code scores
       else scores)
    kws scores
  = dict_alter
      (fun v => Nat.iter (length (List.filter (is_hit text) kws))
                  (fun v => (v + base_of code)%float) v)
      code scores.
Proof.
  induction kws as [|kw kws IH]; intros scores; simpl.
  { now rewrite dict_alter_same. }
  rewrite IH. unfold is_hit at 2.
  destruct (truthy kw && contains (lower text) (lower kw)); [|reflexivity].
  rewrite dict_alter_twice. apply dict_alter_ext. intros v. cbn [length].
  now rewrite Nat.iter_succ_r.
Qed.

(** Altering the entries of a table one after the other, each under its
    own key. *)
Lemma fold_alter_skip {V X} (F : pystr -> X -> V -> V) c w ks :
  forall sc,
  c ∉ map fst ks ->
  fold_left (fun sc (kx : pystr * X) => dict_alter (F (fst kx) (snd kx)) (fst kx) sc)
            ks ((c, w) :: sc)
  = (c, w) :: fold_left (fun sc (kx : pystr * X) =>
                           dict_alter (F (fst kx) (snd kx)) (fst kx) sc) ks sc.
Proof.
  induction ks as [|[k x] ks IH]; intros sc N; [reflexivity|].
  simpl in N. apply not_elem_of_cons in N as [N1 N2].
  cbn [fold_left fst snd].
  rewrite (dict_alter_other (F k x) k c w sc) by assumption.
  now apply IH.
Qed.

Lemma fold_alter_all {V X} (F : pystr -> X -> V -> V) (v0 : V) ks :
  NoDup (map fst ks) ->
  fold_left (fun sc (kx : pystr * X) => dict_alter (F (fst kx) (snd kx)) (fst kx) sc)
            ks (map (fun kx => (fst kx, v0)) ks)
  = map (fun kx => (fst kx, F (fst kx) (snd kx) v0)) ks.
Proof.
  induction ks as [|[k x] ks IH]; intros N; [reflexivity|].
  simpl map in N. apply NoDup_cons in N as [N1 N2].
  cbn [fold_left map fst snd]. rewrite dict_alter_head.
  rewrite fold_alter_skip by assumption. now rewrite IH.
Qed.

Lemma fold_left_same {A B} (f g : A -> B -> A) l :
  (forall a b, f a b = g a b) -> forall a, fold_left f l a = fold_left g l a.
Proof.
  intros E. induction l as [|b l IH]; intros a; simpl; [reflexivity|].
  now rewrite E, IH.
Qed.

Lemma KEYWORDS_keys : map fst KEYWORDS = map fst CLC_LABELS.
Proof. vm_compute. reflexivity. Qed.

Lemma KEYWORDS_NoDup : NoDup (map fst KEYWORDS).
Proof. apply (bool_decide_unpack _). vm_compute. reflexivity. Qed.

(** The scores: for each category, in the order of the table, one [base]
    for each of its keywords that counts. *)
Lemma score_by_keywords_eq text :
  _score_by_keywords text
  = map (fun kx => (fst kx, score_after (fst kx)
                      (length (List.filter (is_hit text) (snd kx)))))
        KEYWORDS.
Proof.
  unfold _score_by_keywords. cbv zeta.
  replace (map (fun kv => (fst kv, 0.0%float)) CLC_LABELS)
    with (map (fun kx : pystr * list pystr => (fst kx, 0.0%float)) KEYWORDS)
    by (vm_compute; reflexivity).
  unfold score_after.
  rewrite <- (fold_alter_all
                (fun code kws v =>
                   Nat.iter (length (List.filter (is_hit text) kws))
                     (fun v => (v + base_of code)%float) v)
                0.0%float KEYWORDS KEYWORDS_NoDup).
  apply fold_left_same. intros sc [code kws]. cbn [fst snd].
  apply score_one_category.
Qed.

End ScoreFacts.

Section RuleFacts.
Import Py Re Classify Notions ClassifyNotions.
Context `{UCD}.

Lemma dict_get_In {V} (d : list (pystr * V)) k v dflt :
  NoDup (map fst d) -> In (k, v) d -> dict_get d k dflt = v.
Proof.
  induction d as [|[k' v'] d IH]; simpl; [tauto|].
  intros N [E|I]; apply NoDup_cons in N as [N1 N2]; unfold str_eqb.
  - inversion E; subst. now rewrite bool_decide_eq_true_2.
  - rewrite bool_decide_eq_false_2; [auto|].
    intros ->. apply N1, list_elem_of_In. apply (in_map fst _ _ I).
Qed.

Lemma dict_get_cases {V} (d : list (pystr * V)) k dflt :
  dict_get d k dflt = dflt \/ In (k, dict_get d k dflt) d.
Proof.
  induction d as [|[k' v'] d IH]; simpl; [now left|].
  unfold str_eqb. destruct (bool_decide_reflect (k' = k)) as [->|N].
  - right. now left.
  - destruct IH; [now left|right; now right].
Qed.

(** The scores by the number of counted keywords of each category. *)
Lemma score_by_keywords_hits text :
  _score_by_keywords text
  = map (fun kx => (fst kx, score_after (fst kx) (hits text (fst kx))))
        KEYWORDS.
Proof.
  rewrite score_by_keywords_eq. apply map_ext_in. intros [k x] I.
  unfold hits. cbn [fst snd].
  now rewrite (dict_get_In KEYWORDS k x [] KEYWORDS_NoDup I).
Qed.

Lemma hits_bound text code : hits text code <= 11.
Proof.
  unfold hits. etransitivity; [apply filter_length_le|].
  destruct (dict_get_cases KEYWORDS code []) as [->|I]; [simpl; lia|].
  assert (F : forallb (fun kx : pystr * list pystr =>
                         Nat.leb (length (snd kx)) 11) KEYWORDS = true)
    by (vm_compute; reflexivity).
  rewrite forallb_forall in F. apply F in I. now apply Nat.leb_le in I.
Qed.

Lemma score_after_possible code k :
  k <= 11 -> In (score_after code k) possible_scores.
Proof.
  intros K. unfold possible_scores. apply in_map_iff.
  exists (is_boosted code, k). split.
  - unfold score_after, base_of. reflexivity.
  - apply in_prod; [destruct (is_boosted code); simpl; auto|].
    apply in_seq. lia.
Qed.

(** A score some other possible score is below is positive. *)
Lemma possible_scores_above x r :
  In x possible_scores -> In r possible_scores ->
  PrimFloat.ltb x r = true -> PrimFloat.leb r 0 = false.
Proof.
  intros X R L.
  assert (F : forallb (fun x => forallb (fun r =>
                implb (PrimFloat.ltb x r) (negb (PrimFloat.leb r 0)))
              possible_scores) possible_scores = true)
    by (vm_compute; reflexivity).
  rewrite forallb_forall in F. specialize (F x X).
  rewrite forallb_forall in F. specialize (F r R).
  rewrite L in F. simpl in F. now apply negb_true_iff in F.
Qed.

(** The score and the confidence after at least one counted keyword. *)
Lemma score_after_counted code k :
  1 <= k <= 11 ->
  let v := score_after code k in
  PrimFloat.ltb 0 v = true /\ PrimFloat.ltb v 0 = false
  /\ PrimFloat.ltb v v = false /\ PrimFloat.leb v 0 = false
  /\ (if PrimFloat.ltb v 2 then 0.65
      else if PrimFloat.ltb v 4 then 0.8 else 0.92)%float
     = confidence_for k.
Proof.
  intros K. unfold score_after, base_of. cbv zeta.
  destruct (is_boosted code);
    do 12 (destruct k as [|k];
           [try lia; repeat split; vm_compute; reflexivity|]);
    lia.
Qed.

End RuleFacts.

Section RuleVerdicts.
Import Py Re Classify Notions ClassifyNotions.
Context `{UCD}.

Lemma max_key_cases more : forall best,
  max_key best more = best
  \/ (In (max_key best more) more
      /\ exists x, In x (best :: more)
                   /\ PrimFloat.ltb (snd x) (snd (max_key best more)) = true).
Proof.
  induction more as [|kv more IH]; intros best; simpl; [now left|].
  destruct (PrimFloat.ltb (snd best) (snd kv)) eqn:E.
  - right. destruct (IH kv) as [->|(I & x & Ix & L)].
    + split; [now left|]. exists best. split; [now left|assumption].
    + split; [now right|]. exists x. split; [now right|assumption].
  - destruct (IH best) as [->|(I & x & Ix & L)]; [now left|right].
    split; [now right|]. exists x. split; [|assumption].
    destruct Ix as [<-|Ix]; [now left|right; now right].
Qed.

(** When one entry is positive and every other is zero, the positive one
    is picked. *)
Lemma max_key_only c v :
  PrimFloat.ltb 0 v = true -> PrimFloat.ltb v 0 = false ->
  PrimFloat.ltb v v = false ->
  forall more best,
    (forall x, In x (best :: more) -> x = (c, v) \/ snd x = 0.0%float) ->
    In (c, v) (best :: more) ->
    max_key best more = (c, v).
Proof.
  intros Pos Neg Irr. induction more as [|kv more IH]; intros best All I.
  { destruct I as [I|[]]. exact I. }
  assert (Zero : PrimFloat.ltb 0 0 = false) by reflexivity.
  assert (NotZero : forall y, (c, v) = y -> snd y = 0.0%float -> False).
  { intros y <-. simpl. intros ->. rewrite Zero in Pos. discriminate. }
  simpl.
  destruct (All best (or_introl eq_refl)) as [->|Zb];
    (destruct (All kv (or_intror (or_introl eq_refl))) as [->|Zk]).
  - simpl. rewrite Irr. apply IH; [|now left].
    intros x [<-|Ix]; [now left|apply All; right; now right].
  - rewrite Zk. simpl. rewrite Neg. apply IH; [|now left].
    intros x [<-|Ix]; [now left|apply All; right; now right].
  - rewrite Zb. simpl. rewrite Pos. apply IH; [|now left].
    intros x [<-|Ix]; [now left|apply All; right; now right].
  - rewrite Zb, Zk, Zero. apply IH.
    + intros x [<-|Ix]; [now right|apply All; right; now right].
    + destruct I as [I|[I|I]]; [now left| |now right].
      exfalso. symmetry in I. eapply NotZero; eauto.
Qed.

Lemma KEYWORDS_head : exists kws ks, KEYWORDS = (u "A", kws) :: ks.
Proof. unfold KEYWORDS. eexists _, _. reflexivity. Qed.

(** Every category of the table has a label of its own, is one upper-case
    letter, and is found under its own name. *)
Lemma label_in_table code :
  In code (map fst CLC_LABELS) ->
  In (code, _label code) CLC_LABELS /\ take 1 code = code.
Proof.
  intros I.
  assert (F : forallb (fun kv : pystr * pystr =>
                         bool_decide (_label (fst kv) = snd kv)
                         && bool_decide (take 1 (fst kv) = fst kv))
                      CLC_LABELS = true)
    by (vm_compute; reflexivity).
  apply in_map_iff in I as ([k v] & <- & I).
  rewrite forallb_forall in F. specialize (F _ I).
  apply andb_prop in F as [F1 F2].
  apply bool_decide_eq_true in F1, F2. cbn [fst snd] in *.
  rewrite F1. auto.
Qed.

(** The verdict of the rule-based classifier for a text that is not
    blank, by the category picked and its score. *)
Lemma classify_rule_based_scored title authors summary :
  truthy (blob title authors summary) = true ->
  classify_rule_based title authors summary
  = (let '(code, score) :=
       _pick_best (_score_by_keywords (blob title authors summary)) in
     (code, _label code,
      (if score <=? 0 then (if str_eqb code (u "Z") then 0.5 else 0.55)
       else if score <? 2 then 0.65
       else if score <? 4 then 0.8
       else 0.92)%float, u "rule")).
Proof.
  intros T. unfold classify_rule_based. cbv zeta.
  fold (blob title authors summary). now rewrite T.
Qed.

Lemma classify_rule_based_blank title authors summary :
  truthy (blob title authors summary) = false ->
  classify_rule_based title authors summary
  = (u "Z", _label (u "Z"), 0.0%float, u "rule").
Proof.
  intros T. unfold classify_rule_based. cbv zeta.
  fold (blob title authors summary). now rewrite T.
Qed.

(** What the rule-based classifier can return: a category of the table
    with its label, and one of five confidences. *)
Lemma classify_rule_based_range title authors summary :
  let '(code, label, conf, src) := classify_rule_based title authors summary in
  In (code, label) CLC_LABELS /\ take 1 code = code
  /\ In conf [0.0; 0.55; 0.65; 0.8; 0.92]%float
  /\ src = u "rule" /\ label = _label code.
Proof.
  destruct (truthy (blob title authors summary)) eqn:T.
  2:{ rewrite classify_rule_based_blank by assumption.
      assert (I : In (u "Z") (map fst CLC_LABELS))
        by (apply list_elem_of_In, (bool_decide_unpack _); vm_compute;
            reflexivity).
      destruct (label_in_table _ I). simpl; auto 6. }
  rewrite classify_rule_based_scored by assumption.
  set (text := blob title authors summary).
  pose proof (score_by_keywords_keys text) as K.
  pose proof (score_by_keywords_hits text) as E.
  destruct KEYWORDS_head as (kws0 & ks & KW).
  assert (I : In (fst (_pick_best (_score_by_keywords text)))
                 (map fst CLC_LABELS)).
  { rewrite <- K. apply pick_best_key. intros Z. rewrite Z in K.
    discriminate K. }
  assert (Half : PrimFloat.leb (snd (_pick_best (_score_by_keywords text))) 0
                 = true ->
                 fst (_pick_best (_score_by_keywords text)) = u "A").
  { rewrite E. rewrite KW at 1 2. cbn [map _pick_best fst].
    set (best := (u "A", score_after (u "A") (hits text (u "A")))).
    set (more := map _ ks).
    assert (P : forall x, In x (best :: more) -> In (snd x) possible_scores).
    { intros x Ix.
      assert (Ix' : In x (map (fun kx : pystr * list pystr =>
                (fst kx, score_after (fst kx) (hits text (fst kx)))) KEYWORDS))
        by (rewrite KW; exact Ix).
      apply in_map_iff in Ix' as (kx & <- & _). simpl.
      apply score_after_possible, hits_bound. }
    destruct (max_key_cases more best) as [->|(Im & x & Ix & L)];
      [reflexivity|].
    intros Le.
    rewrite (possible_scores_above _ _ (P x Ix)
               (P _ (or_intror Im)) L) in Le.
    discriminate. }
  destruct (_pick_best (_score_by_keywords text)) as [code score].
  cbn [fst snd] in *. destruct (label_in_table _ I) as [L T1].
  split; [assumption|]. split; [assumption|]. split; [|split; reflexivity].
  destruct (PrimFloat.leb score 0).
  - rewrite (Half eq_refl).
    replace (str_eqb (u "A") (u "Z")) with false by (vm_compute; reflexivity).
    simpl. auto.
  - destruct (PrimFloat.ltb score 2); [simpl; auto|].
    destruct (PrimFloat.ltb score 4); simpl; auto 6.
Qed.

(** X10. The rule-based classifier always answers with a category of the
    table and that category's label, with source ["rule"], and with one
    of the confidences 0.0, 0.55, 0.65, 0.8 and 0.92; the confidence 0.5
    the code provides for the category Z without a counted keyword is
    never returned. *)
Theorem classify_rule_based_verdict title authors summary :
  let '(code, label, conf, src) := classify_rule_based title authors summary in
  In (code, label) CLC_LABELS
  /\ In conf [0.0; 0.55; 0.65; 0.8; 0.92]%float
  /\ conf <> 0.5%float
  /\ src = u "rule".
Proof.
  pose proof (classify_rule_based_range title authors summary) as R.
  destruct (classify_rule_based title authors summary) as [[[code label] conf] src].
  destruct R as (L & _ & C & S & _). repeat split; try assumption.
  intros ->. simpl in C.
  assert (D : forall a, PrimFloat.eqb 0.5 a = false -> a <> 0.5%float).
  { intros a E ->. vm_compute in E. discriminate. }
  repeat destruct C as [C|C]; try contradiction;
    (refine (D _ _ C); reflexivity).
Qed.

(** X11. When no keyword of the table counts for a text that is not blank,
    the rule-based classifier answers with the first category of the
    table, A, and confidence 0.55. *)
Theorem classify_rule_based_no_hit title authors summary :
  truthy (blob title authors summary) = true ->
  (forall code, In code (map fst KEYWORDS) ->
                hits (blob title authors summary) code = 0) ->
  classify_rule_based title authors summary
  = (u "A", u "马克思主义、列宁主义、毛泽东思想、邓小平理论", 0.55%float, u "rule").
Proof.
  intros T N. rewrite classify_rule_based_scored by assumption.
  rewrite score_by_keywords_hits.
  replace (map (fun kx : pystr * list pystr =>
                  (fst kx, score_after (fst kx)
                             (hits (blob title authors summary) (fst kx))))
               KEYWORDS)
    with (map (fun kx : pystr * list pystr => (fst kx, 0.0%float)) KEYWORDS).
  - vm_compute. reflexivity.
  - apply map_ext_in. intros kx I. rewrite N; [reflexivity|].
    now apply in_map.
Qed.

(** X12. When keywords of exactly one category count, that category is the
    answer, with its label, and the confidence depends on the number of
    counted keywords only: 0.65 for one, 0.8 for two or three, 0.92 for
    more. *)
Theorem classify_rule_based_one_category title authors summary code :
  truthy (blob title authors summary) = true ->
  In code (map fst KEYWORDS) ->
  1 <= hits (blob title authors summary) code ->
  (forall other, In other (map fst KEYWORDS) -> other <> code ->
                 hits (blob title authors summary) other = 0) ->
  classify_rule_based title authors summary
  = (code, _label code,
     confidence_for (hits (blob title authors summary) code), u "rule")
  /\ In (code, _label code) CLC_LABELS.
Proof.
  intros T I K O. set (text := blob title authors summary) in *.
  destruct (score_after_counted code (hits text code))
    as (Pos & Neg & Irr & NotLe & Conf).
  { split; [assumption|apply hits_bound]. }
  split; [|apply label_in_table; now rewrite <- KEYWORDS_keys].
  rewrite classify_rule_based_scored by assumption.
  fold text. rewrite score_by_keywords_hits.
  assert (P : _pick_best
                (map (fun kx : pystr * list pystr =>
                        (fst kx, score_after (fst kx) (hits text (fst kx))))
                     KEYWORDS)
              = (code, score_after code (hits text code))).
  { destruct KEYWORDS_head as (kws0 & ks & KW).
    assert (All : forall x,
      In x (map (fun kx : pystr * list pystr =>
                   (fst kx, score_after (fst kx) (hits text (fst kx))))
                KEYWORDS) ->
      x = (code, score_after code (hits text code)) \/ snd x = 0.0%float).
    { intros x Ix. apply in_map_iff in Ix as (kx & <- & Ik).
      destruct (decide (fst kx = code)) as [->|D]; [now left|right].
      simpl. rewrite O; [reflexivity| |assumption]. now apply in_map. }
    assert (Mem :
      In (code, score_after code (hits text code))
         (map (fun kx : pystr * list pystr =>
                 (fst kx, score_after (fst kx) (hits text (fst kx))))
              KEYWORDS)).
    { apply in_map_iff in I as (kx & <- & Ik). apply in_map_iff.
      exists kx. auto. }
    revert All Mem. rewrite KW. cbn [map _pick_best fst]. intros All Mem.
    now apply max_key_only. }
  rewrite P. rewrite NotLe. now rewrite Conf.
Qed.

End RuleVerdicts.

Section VerdictFacts.
Import Py Re Classify Notions ClassifyNotions.
Context `{UCD}.

(** What the external model's reply becomes: the first text in the
    upper-cased reply that has the form of a catalogue number. *)
Lemma classify_llm_Some client title authors summary v :
  classify_llm client title authors summary = Some v ->
  exists c t, v = (c :: t, _label [c], 0.85%float, u "llm").
Proof.
  unfold classify_llm. destruct client as [ask|]; [|discriminate].
  destruct (ask title authors summary) as [content|]; [|discriminate].
  destruct (search _CLC_RE _) as [m|]; [|discriminate].
  destruct (group0 m) as [|c t]; [discriminate|].
  intros [= <-]. eauto.
Qed.

(** X13. Every verdict of [classify_clc] has a code that is not blank and
    the label of the code's first letter, and comes from one of three
    places: the catalogue number of the CIP field, with confidence 0.95;
    the external model, with confidence 0.85; the keyword rules, with
    their own confidences. *)
Theorem classify_clc_verdict client title authors summary cip :
  let '(code, label, conf, src) :=
    classify_clc client title authors summary cip in
  nonblank code = true
  /\ label = _label (take 1 code)
  /\ ((src = u "cip" /\ conf = 0.95%float /\ _from_cip cip = Some code)
      \/ (src = u "llm" /\ conf = 0.85%float
          /\ classify_llm client title authors summary
             = Some (code, label, conf, src))
      \/ (src = u "rule"
          /\ classify_llm client title authors summary = None
          /\ classify_rule_based title authors summary
             = (code, label, conf, src))).
Proof.
  pose proof (classify_clc_nonblank client title authors summary cip) as NB.
  assert (Fallback :
    let '(code, label, conf, src) :=
      match classify_llm client title authors summary with
      | Some res => res
      | None => classify_rule_based title authors summary
      end in
    label = _label (take 1 code)
    /\ ((src = u "llm" /\ conf = 0.85%float
         /\ classify_llm client title authors summary
            = Some (code, label, conf, src))
        \/ (src = u "rule"
            /\ classify_llm client title authors summary = None
            /\ classify_rule_based title authors summary
               = (code, label, conf, src)))).
  { destruct (classify_llm client title authors summary) as [v|] eqn:L.
    - destruct (classify_llm_Some _ _ _ _ _ L) as (c & t & ->).
      split; [reflexivity|]. left. auto.
    - pose proof (classify_rule_based_range title authors summary) as R.
      destruct (classify_rule_based title authors summary)
        as [[[code label] conf] src].
      destruct R as (_ & T & _ & S & Lb). rewrite T. split; [assumption|].
      right. auto. }
  unfold classify_clc in NB |- *.
  destruct (_from_cip cip) as [[|c code']|] eqn:F.
  - destruct (match classify_llm client title authors summary with
              | Some res => res
              | None => classify_rule_based title authors summary
              end) as [[[code label] conf] src].
    simpl in NB. destruct Fallback as [Lb Rest].
    split; [assumption|]. split; [assumption|]. right. exact Rest.
  - simpl in NB. split; [assumption|]. split; [reflexivity|]. left. auto.
  - destruct (match classify_llm client title authors summary with
              | Some res => res
              | None => classify_rule_based title authors summary
              end) as [[[code label] conf] src].
    simpl in NB. destruct Fallback as [Lb Rest].
    split; [assumption|]. split; [assumption|]. right. exact Rest.
Qed.

End VerdictFacts.

(** ** The bucket of a category code *)

Section BucketFacts.
Import Py Re Classify Notions ClassifyNotions Ui.
Context `{UCD}.

Lemma dict_get_absent {V} (d : list (pystr * V)) k dflt :
  ~ In k (map fst d) -> dict_get d k dflt = dflt.
Proof.
  induction d as [|[k' v] d IH]; simpl; [reflexivity|].
  intros N. unfold str_eqb. rewrite bool_decide_eq_false_2; [|tauto].
  apply IH. tauto.
Qed.

Lemma existsb_str_absent head (l keys : list pystr) :
  ~ In head keys -> incl l keys -> existsb (str_eqb head) l = false.
Proof.
  intros N I. apply not_true_is_false. intros E.
  apply existsb_exists in E as (x & Ix & Ex).
  unfold str_eqb in Ex. apply bool_decide_eq_true in Ex. subst x. auto.
Qed.

(** X14. A book is shown under "未分类" exactly when it has no category
    code or the upper-cased first character of its code is none of the
    categories of the table. *)
Theorem clc_bucket_unclassified clc_code :
  clc_bucket clc_code = u "未分类"
  <-> match clc_code with
      | Some (c :: _) => ~ In (upper [c]) (map fst CLC_LABELS)
      | _ => True
      end.
Proof.
  destruct clc_code as [[|c t]|]; simpl; [tauto| |tauto].
  set (head := upper [c]). clearbody head. split.
  - intros E I.
    assert (F : forallb (fun k => negb (str_eqb (bucket_of_head k) (u "未分类")))
                        (map fst CLC_LABELS) = true)
      by (vm_compute; reflexivity).
    rewrite forallb_forall in F. specialize (F _ I). rewrite E in F.
    unfold str_eqb in F. now rewrite bool_decide_eq_true_2 in F.
  - intros N. unfold bucket_of_head.
    assert (S : forall k, In k (map fst CLC_LABELS) -> str_eqb head k = false).
    { intros k I. unfold str_eqb. apply bool_decide_eq_false_2. now intros ->. }
    repeat (rewrite (existsb_str_absent head _ (map fst CLC_LABELS) N);
            [|apply incl_Forall_in_iff, Forall_forall;
              intros x Ix; apply list_elem_of_In, (bool_decide_unpack _);
              revert x Ix; apply Forall_forall;
              apply (bool_decide_unpack _); vm_compute; reflexivity]).
    repeat (rewrite S; [|apply list_elem_of_In, (bool_decide_unpack _);
                         vm_compute; reflexivity]).
    now apply dict_get_absent.
Qed.

End BucketFacts.

(** ** The tables through a transaction *)

Section TableFacts.
Import Py Base Db Pipeline Notions DbNotions.
Context `{UCD}.

(** The body of a transaction, by the reconciled row. *)
Lemma ingest_settled w p d st :
  ingest w p d st
  = (let '(st1, (i, book)) := _get_or_create_book_by_detail d st in
     (add_source (fun key =>
        {| source_id := key; book_id := id (settled w d book);
           source_site := site p;
           source_url := Some (or_empty (d_url d));
           extracted := Some (json_dumps w d) |})
        (write_book i (settled w d book) st1),
      id (settled w d book))).
Proof.
  unfold ingest, settled.
  destruct (_get_or_create_book_by_detail d st) as [st1 [i book]].
  reflexivity.
Qed.

(** The reconciled row keeps every column but the cover path and the
    category code. *)
Lemma settled_columns w d b :
  settled w d b
  = with_cover_clc (cover_path (settled w d b)) (clc (settled w d b)) b.
Proof.
  unfold settled. cbv zeta.
  set (b1 := if truthy (fetch_cover w (d_cover_url d))
                && negb (truthy_opt (cover_path b))
             then set_cover_path (fetch_cover w (d_cover_url d)) b else b).
  assert (E1 : b1 = with_cover_clc (cover_path b1) (clc b1) b).
  { subst b1. destruct (truthy _ && negb _); destruct b; reflexivity. }
  clearbody b1.
  destruct (negb (truthy_opt (clc b1))).
  - destruct (Classify.classify_clc _ _ _ _ _) as [[[code l] c] src].
    destruct (truthy code && truthy (strip code)); [|exact E1].
    rewrite E1. destruct b; reflexivity.
  - exact E1.
Qed.

Lemma settled_id w d b : id (settled w d b) = id b.
Proof. now rewrite settled_columns. Qed.

Lemma settled_isbn w d b : isbn (settled w d b) = isbn b.
Proof. now rewrite settled_columns. Qed.

(** A category code is set once. *)
Lemma settled_clc w d b :
  truthy_opt (clc (settled w d b)) = true
  /\ (truthy_opt (clc b) = true -> clc (settled w d b) = clc b).
Proof.
  unfold settled. cbv zeta.
  set (b1 := if truthy (fetch_cover w (d_cover_url d))
                && negb (truthy_opt (cover_path b))
             then set_cover_path (fetch_cover w (d_cover_url d)) b else b).
  assert (E1 : clc b1 = clc b).
  { subst b1. now destruct (truthy _ && negb _). }
  clearbody b1. rewrite <- E1.
  destruct (truthy_opt (clc b1)) eqn:T; simpl; [auto|].
  split; [|discriminate].
  pose proof (classify_clc_nonblank (llm w) (title_std b1)
    (Some (if truthy_opt (authors_std b1)
           then split_on (ch ",") (or_empty (authors_std b1)) else []))
    (Some (or_empty (summary b1))) (cip b1)) as NB.
  destruct (Classify.classify_clc _ _ _ _ _) as [[[code l] c] src].
  simpl in NB. unfold nonblank in NB. rewrite NB.
  apply andb_prop in NB as [_ NB]. exact NB.
Qed.


Lemma book_columns (b b' : Book) :
  id b = id b' -> title_std b = title_std b' ->
  authors_std b = authors_std b' -> publisher b = publisher b' ->
  pub_year b = pub_year b' -> isbn b = isbn b' -> edition b = edition b' ->
  pages b = pages b' -> summary b = summary b' ->
  author_bio b = author_bio b' -> language b = language b' ->
  cover_path b = cover_path b' -> cip b = cip b' -> clc b = clc b' ->
  b = b'.
Proof. destruct b, b'; simpl; intros; subst; reflexivity. Qed.

(** Overwriting with the same detail a second time changes nothing. *)
Lemma overwrite_twice d b : overwrite d (overwrite d b) = overwrite d b.
Proof.
  apply book_columns; simpl; try reflexivity;
    try (match goal with |- context [if ?c then _ else _] => destruct c end;
         reflexivity).
Qed.

(** What a transaction leaves of the two tables: the row with the
    detail's ISBN rewritten in place, or one row more; and one provenance
    row more, for the key returned. *)
Lemma ingest_shape w p d st :
  let r := ingest w p d st in
  ((exists k j old,
      stripped_or_none (d_isbn d) = Some k
      /\ first_by_isbn k st = Some (j, old)
      /\ books (fst r) = <[j := settled w d (overwrite d old)]> (books st)
      /\ snd r = id old)
   \/ (exists b,
        books (fst r) = books st ++ [settled w d b]
        /\ id b = next_key (map id (books st))
        /\ snd r = id b
        /\ (stripped_or_none (d_isbn d) = None /\ isbn b = None
            \/ exists k, stripped_or_none (d_isbn d) = Some k
                         /\ isbn b = Some k
                         /\ first_by_isbn k st = None
                         /\ b = overwrite d b)))
  /\ sources (fst r) = sources st ++ [provenance w p d (snd r) st].
Proof.
  cbv zeta. rewrite ingest_settled.
  destruct (stripped_or_none (d_isbn d)) as [k|] eqn:K.
  - destruct (first_by_isbn k st) as [[j old]|] eqn:F.
    + rewrite (reconcile_found d st k j old K F). cbn [fst snd].
      split; [|reflexivity]. left. exists k, j, old.
      rewrite settled_id. cbn [write_book add_source books fst].
      rewrite list_insert_insert_eq. auto.
    + rewrite (reconcile_created d st k K F). cbv zeta. cbn [fst snd].
      split; [|reflexivity]. right.
      exists (overwrite d (new_book_with_isbn k d (next_key (map id (books st))))).
      rewrite settled_id. cbn [write_book add_source books fst].
      rewrite insert_last. split; [reflexivity|]. split; [reflexivity|].
      split; [reflexivity|]. right. exists k.
      split; [reflexivity|]. split; [reflexivity|]. split; [assumption|].
      symmetry. apply overwrite_twice.
  - rewrite (reconcile_no_isbn d st K). unfold add_book. cbn [fst snd].
    split; [|reflexivity]. right.
    exists (new_book_without_isbn d (next_key (map id (books st)))).
    rewrite settled_id. cbn [write_book add_source books fst].
    rewrite insert_last. split; [reflexivity|]. split; [reflexivity|].
    split; [reflexivity|]. left. auto.
Qed.

End TableFacts.

(** ** The schema through a resolution *)

Section SchemaFacts.
Import Py Base Db Pipeline Notions DbNotions.
Context `{UCD}.

Lemma omap_insert_same {A B} (f : A -> option B) (l : list A) j old x :
  l !! j = Some old -> f x = f old -> omap f (<[j := x]> l) = omap f l.
Proof.
  revert j. induction l as [|a l IH]; intros [|j] L E; try discriminate.
  - injection L as ->. cbn. now rewrite E.
  - cbn in L |- *. destruct (f a); [f_equal|]; exact (IH j L E).
Qed.

Lemma map_insert_same {A B} (f : A -> B) (l : list A) j old x :
  l !! j = Some old -> f x = f old -> map f (<[j := x]> l) = map f l.
Proof.
  revert j. induction l as [|a l IH]; intros [|j] L E; simpl in *;
    try discriminate.
  - injection L as ->. now rewrite E.
  - now rewrite (IH j L E).
Qed.

Lemma next_key_fresh keys : next_key keys ∉ keys.
Proof. intros I. apply next_key_above in I. lia. Qed.

Lemma NoDup_snoc {A} (l : list A) x : NoDup l -> x ∉ l -> NoDup (l ++ [x]).
Proof.
  intros N I. apply NoDup_app. split; [assumption|]. split.
  - intros y Iy [->|[]%elem_of_nil]%elem_of_cons. auto.
  - apply NoDup_singleton.
Qed.

(** Every row stays at its position through a transaction, under its key
    and with its ISBN, and keeps the category code it has. *)
Lemma ingest_rows w p d st i b :
  books st !! i = Some b ->
  exists b', books (fst (ingest w p d st)) !! i = Some b'
             /\ id b' = id b /\ isbn b' = isbn b
             /\ (truthy_opt (clc b) = true -> clc b' = clc b).
Proof.
  intros L.
  destruct (ingest_shape w p d st)
    as [[(k & j & old & K & F & B & R)|(x & B & I & R & Is)] S]; rewrite B.
  - apply first_by_isbn_lookup in F as [Lj _].
    destruct (decide (i = j)) as [->|N].
    + assert (old = b) as -> by congruence.
      exists (settled w d (overwrite d b)).
      rewrite list_lookup_insert_eq by (now apply lookup_lt_Some in L).
      rewrite settled_id, settled_isbn. repeat split; try reflexivity.
      intros T. exact (proj2 (settled_clc w d (overwrite d b)) T).
    + exists b. now rewrite list_lookup_insert_ne by auto.
  - exists b. rewrite lookup_app_l by (now apply lookup_lt_Some in L). auto.
Qed.

(** The constraints of the schema hold after a transaction when they
    held before. *)
Lemma ingest_schema w p d st : schema st -> schema (fst (ingest w p d st)).
Proof.
  intros ((Kb & Ks) & Ui & Rf).
  destruct (ingest_shape w p d st) as [Shape S].
  assert (Row : exists b', b' ∈ books (fst (ingest w p d st))
                           /\ id b' = snd (ingest w p d st)).
  { destruct Shape as [(k & j & old & K & F & B & R)|(x & B & I & R & Is)].
    - apply first_by_isbn_lookup in F as [Lj _].
      exists (settled w d (overwrite d old)). rewrite B, R, settled_id.
      split; [|reflexivity]. eapply list_elem_of_lookup_2.
      apply list_lookup_insert_eq. now apply lookup_lt_Some in Lj.
    - exists (settled w d x). rewrite B, R, settled_id.
      split; [|reflexivity]. apply elem_of_app. right. apply list_elem_of_singleton.
      reflexivity. }
  split; [split|split].
  - destruct Shape as [(k & j & old & K & F & B & R)|(x & B & I & R & Is)];
      rewrite B.
    + apply first_by_isbn_lookup in F as [Lj _].
      rewrite (map_insert_same id _ j old); auto. now rewrite settled_id.
    + rewrite map_app. simpl. rewrite settled_id, I.
      apply NoDup_snoc; [assumption|apply next_key_fresh].
  - rewrite S, map_app. simpl.
    apply NoDup_snoc; [assumption|apply next_key_fresh].
  - unfold unique_isbns in *.
    destruct Shape as [(k & j & old & K & F & B & R)|(x & B & I & R & Is)];
      rewrite B.
    + apply first_by_isbn_lookup in F as [Lj _].
      rewrite (omap_insert_same isbn _ j old); auto.
      now rewrite settled_isbn.
    + rewrite omap_app. simpl. rewrite settled_isbn.
      destruct Is as [[_ ->]|(k & _ & -> & F & _)].
      * now rewrite app_nil_r.
      * apply NoDup_snoc; [assumption|]. intros I'.
        apply list_elem_of_omap in I' as (y & Iy & Ey).
        unfold first_by_isbn in F. apply list_find_None in F.
        rewrite Forall_forall in F. now apply (F y Iy).
  - intros src I. rewrite S in I. apply elem_of_app in I as [I|I].
    + destruct (Rf src I) as (b & Ib & Eb).
      apply list_elem_of_lookup in Ib as [i Li].
      destruct (ingest_rows w p d st i b Li) as (b' & L' & I' & _).
      exists b'. split; [eapply list_elem_of_lookup_2; eauto|congruence].
    + apply list_elem_of_singleton in I. subst src. exact Row.
Qed.

(** X15. A resolution keeps the constraints of the schema: keys stay
    unique in both tables, no two books share an ISBN, and every
    provenance row names a stored book. *)
Theorem search_and_ingest_keeps_schema w providers query db :
  schema db -> schema (fst (search_and_ingest w providers query db)).
Proof.
  intros Sc.
  destruct (search_and_ingest_commits w providers query db)
    as [[E _]|(p & d & _ & E & _)]; rewrite E; [assumption|].
  now apply ingest_schema.
Qed.

(** X16. Through a resolution every stored book stays at its position,
    under its key and with its ISBN, and keeps the category code it has;
    the table of books grows by one row at most, and the provenance table
    is left as it is or gets one row more. *)
Theorem search_and_ingest_keeps_rows w providers query db i b :
  books db !! i = Some b ->
  let st := fst (search_and_ingest w providers query db) in
  (exists b', books st !! i = Some b'
              /\ id b' = id b /\ isbn b' = isbn b
              /\ (truthy_opt (clc b) = true -> clc b' = clc b))
  /\ length (books db) <= length (books st) <= S (length (books db))
  /\ (sources st = sources db \/ exists src, sources st = sources db ++ [src]).
Proof.
  intros L st. subst st.
  destruct (search_and_ingest_commits w providers query db)
    as [[E _]|(p & d & _ & E & _)]; rewrite E.
  { split; [eauto|]. split; [lia|now left]. }
  split; [now apply ingest_rows|].
  destruct (ingest_shape w p d db)
    as [[(k & j & old & K & F & B & R)|(x & B & I & R & Is)] S];
    rewrite B, S.
  - rewrite length_insert. split; [lia|eauto].
  - rewrite length_app. simpl. split; [lia|eauto].
Qed.

(** X17. The key a resolution returns is the key of a stored book. *)
Theorem search_and_ingest_returns_stored w providers query db book_id :
  snd (search_and_ingest w providers query db) = Ok (Some book_id) ->
  exists b, b ∈ books (fst (search_and_ingest w providers query db))
            /\ id b = book_id.
Proof.
  destruct (search_and_ingest_commits w providers query db)
    as [[E R]|(p & d & _ & E & R)]; rewrite E.
  - exact (R book_id).
  - rewrite R. intros [= <-].
    destruct (ingest_shape w p d db)
      as [[(k & j & old & K & F & B & Rt)|(x & B & I & Rt & Is)] S];
      rewrite B, Rt.
    + apply first_by_isbn_lookup in F as [Lj _].
      exists (settled w d (overwrite d old)). rewrite settled_id.
      split; [|reflexivity]. eapply list_elem_of_lookup_2.
      apply list_lookup_insert_eq. now apply lookup_lt_Some in Lj.
    + exists (settled w d x). rewrite settled_id. split; [|reflexivity].
      apply elem_of_app. right. now apply list_elem_of_singleton.
Qed.

End SchemaFacts.

(** ** Failing providers, and the same detail twice *)

Section LoopFacts.
Import Py Base Db Pipeline Notions DbNotions.
Context `{UCD}.

Lemma provider_loop_accepted w isbn_input candidates :
  (forall n, db_fault w n = None) ->
  forall providers n s,
    pending s = None ->
    exists o, snd (provider_loop w isbn_input candidates n providers s) = Ok o.
Proof.
  intros A. induction providers as [|p later IH]; intros n s P; simpl.
  { eauto. }
  destruct (fetch_detail p isbn_input candidates) as [[detail|]|e];
    [|now apply IH|now apply IH].
  destruct (isbn_mismatch isbn_input detail); [now apply IH|].
  unfold with_transaction. rewrite P, A.
  destruct (ingest w p (backfill_isbn isbn_input detail) (committed s)).
  simpl. eauto.
Qed.

(** X18. When the database accepts every transaction, a resolution never
    raises, whatever the providers return or raise. *)
Theorem search_and_ingest_never_raises w providers query db :
  (forall n, db_fault w n = None) ->
  exists o, snd (search_and_ingest w providers query db) = Ok o.
Proof.
  intros A. unfold search_and_ingest.
  destruct (Nlp.split_title_author (ner_backend w) query) as [title authors].
  cbv zeta.
  match goal with |- context [provider_loop ?w ?i ?c ?n ?ps ?s] =>
    destruct (provider_loop_accepted w i c A ps n s eq_refl) as [o O];
    destruct (provider_loop w i c n ps s) as [s' res]
  end.
  simpl in *. eauto.
Qed.

Lemma provider_loop_nothing w isbn_input candidates providers :
  (forall p, In p providers ->
     forall d, fetch_detail p isbn_input candidates <> Ok (Some d)) ->
  forall n s,
    snd (provider_loop w isbn_input candidates n providers s) = Ok None
    /\ committed (fst (provider_loop w isbn_input candidates n providers s))
       = committed s.
Proof.
  induction providers as [|p later IH]; intros No n s; simpl; [auto|].
  assert (No' : forall p0, In p0 later ->
            forall d, fetch_detail p0 isbn_input candidates <> Ok (Some d))
    by (intros p0 I; apply No; now right).
  pose proof (No p (or_introl eq_refl)) as Np.
  destruct (fetch_detail p isbn_input candidates) as [[detail|]|e].
  - now destruct (Np detail).
  - now apply IH.
  - destruct (IH No' (S n) (rollback s)) as [R C]. auto.
Qed.

(** X19. When every provider raises or finds nothing, a resolution returns
    [None] and leaves the database as it is. *)
Theorem search_and_ingest_nothing_found w providers query db :
  (forall p, In p providers ->
     forall isbn_input candidates d,
       fetch_detail p isbn_input candidates <> Ok (Some d)) ->
  search_and_ingest w providers query db = (db, Ok None).
Proof.
  intros No. unfold search_and_ingest.
  destruct (Nlp.split_title_author (ner_backend w) query) as [title authors].
  cbv zeta.
  match goal with |- context [provider_loop ?w ?i ?c ?n ?ps ?s] =>
    destruct (provider_loop_nothing w i c ps
                (fun p I d => No p I i c d) n s) as [R C];
    destruct (provider_loop w i c n ps s) as [s' res]
  end.
  simpl in *. now rewrite R, C.
Qed.

(** *** The same detail twice *)






End LoopFacts.

(** ** scripts/backfill_clc.py *)

Section BackfillFacts.
Import Py Base Db Pipeline Notions DbNotions Scripts.
Context `{UCD}.

Lemma backfill_row_columns client b :
  backfill_row client b
  = with_cover_clc (cover_path b) (clc (backfill_row client b)) b
  /\ truthy_opt (clc (backfill_row client b)) = true.
Proof.
  unfold backfill_row.
  pose proof (classify_clc_nonblank client (title_std b)
    (Some (if truthy_opt (authors_std b)
           then split_on (ch ",") (or_empty (authors_std b)) else []))
    (Some (or_empty (summary b))) (cip b)) as NB.
  destruct (Classify.classify_clc _ _ _ _ _) as [[[code l] c] src].
  simpl in NB. unfold nonblank in NB. rewrite NB.
  apply andb_prop in NB as [_ NB]. split; [now destruct b|exact NB].
Qed.

(** The rows the query selects are rows of the table without category
    code, each selected once. *)
Lemma rows_selected limit st i b :
  (i, b) ∈ rows limit st ->
  books st !! i = Some b /\ uncategorised b = true.
Proof.
  unfold rows. intros I.
  apply elem_of_take in I as (n & I & _).
  apply list_elem_of_lookup_2 in I.
  rewrite merge_sort_Permutation in I.
  apply list_elem_of_filter in I as [U I].
  apply elem_of_lookup_imap in I as (j & y & [= -> ->] & L). auto.
Qed.

Lemma rows_NoDup limit st : NoDup (map fst (rows limit st)).
Proof.
  unfold rows. change (map fst) with (fmap (M := list) (@fst nat Book)).
  rewrite fmap_take. eapply sublist_NoDup; [|apply sublist_take].
  rewrite merge_sort_Permutation.
  eapply sublist_NoDup; [|apply fmap_sublist, sublist_filter].
  rewrite fmap_imap.
  rewrite (imap_ext _ (fun j _ => j)) by reflexivity.
  rewrite (imap_seq_0 _ (fun j => j)). rewrite list_fmap_id.
  apply NoDup_seq.
Qed.

Lemma filter_imap_length (P : Book -> Prop) `{forall b, Decision (P b)}
    (l : list Book) : forall f : nat -> nat,
  length (filter (fun ib : nat * Book => P (snd ib))
            (imap (fun i b => (f i, b)) l))
  = length (filter P l).
Proof.
  induction l as [|b l IH]; intros f; [reflexivity|].
  rewrite imap_cons, !filter_cons. cbn [snd].
  destruct (decide (P b)); simpl; [f_equal|]; exact (IH (fun i => f (S i))).
Qed.

(** With a limit that is large enough every row without category code is
    selected. *)
Lemma rows_all limit st i b :
  length (filter (fun b => uncategorised b = true) (books st)) <= limit ->
  books st !! i = Some b -> uncategorised b = true ->
  (i, b) ∈ rows limit st.
Proof.
  intros Le L U. unfold rows. rewrite take_ge.
  - rewrite merge_sort_Permutation. apply list_elem_of_filter.
    split; [assumption|].
    now apply (elem_of_lookup_imap_2 (fun i b => (i, b))).
  - rewrite merge_sort_Permutation.
    etransitivity; [|exact Le]. apply Nat.eq_le_incl.
    exact (filter_imap_length (fun b => uncategorised b = true)
             (books st) (fun i => i)).
Qed.

(** Writing rows back one after the other, each at its own position. *)
Lemma write_rows (f : Book -> Book) : forall rs st,
  NoDup (map fst rs) ->
  (forall i b, (i, b) ∈ rs -> books st !! i = Some b) ->
  let st' := fold_left (fun st ib => write_book (fst ib) (f (snd ib)) st)
               rs st in
  sources st' = sources st
  /\ length (books st') = length (books st)
  /\ forall i b, books st !! i = Some b ->
       books st' !! i
       = Some (if bool_decide (i ∈ map fst rs) then f b else b).
Proof.
  induction rs as [|[j x] rs IH]; intros st N In; cbv zeta.
  { cbn [fold_left map]. repeat split. intros i b L.
    rewrite bool_decide_eq_false_2; [assumption|]. apply not_elem_of_nil. }
  simpl map in N. apply NoDup_cons in N as [N1 N2].
  cbn [fold_left fst snd].
  assert (Lj : books st !! j = Some x) by (apply In; left).
  destruct (IH (write_book j (f x) st) N2) as (S & Len & Rows).
  { intros i b I. simpl. rewrite list_lookup_insert_ne.
    - apply In. now right.
    - intros <-. apply N1. apply list_elem_of_fmap. exists (j, b). auto. }
  split; [exact S|]. split; [rewrite Len; simpl; apply length_insert|].
  intros i b L. destruct (decide (i = j)) as [->|D].
  - assert (b = x) as -> by congruence.
    rewrite (Rows j (f x)).
    + rewrite bool_decide_eq_false_2 by assumption.
      rewrite bool_decide_eq_true_2; [reflexivity|]. simpl. left.
    + simpl. apply list_lookup_insert_eq. now apply lookup_lt_Some in L.
  - rewrite (Rows i b) by (simpl; now rewrite list_lookup_insert_ne by auto).
    f_equal.
    rewrite (bool_decide_ext (i ∈ map fst rs) (i ∈ map fst ((j, x) :: rs)));
      [reflexivity|].
    simpl. rewrite elem_of_cons. tauto.
Qed.

(** X21. What [main] of the backfill script leaves: the provenance table
    and the number of books as they were; each book with the columns it
    had, the category code apart; a book that had a category code
    unchanged; and, when the limit is not below the number of books
    without category code, every book with a category code. *)
Theorem backfill_main client limit st :
  let st' := main client limit st in
  sources st' = sources st
  /\ length (books st') = length (books st)
  /\ forall i b, books st !! i = Some b ->
       exists b',
         books st' !! i = Some b'
         /\ b' = with_cover_clc (cover_path b) (clc b') b
         /\ (truthy_opt (clc b) = true -> b' = b)
         /\ (length (filter (fun b => uncategorised b = true) (books st))
             <= limit ->
             truthy_opt (clc b') = true).
Proof.
  unfold main.
  destruct (write_rows (backfill_row client) (rows limit st) st
              (rows_NoDup limit st)) as (S & Len & Rows).
  { intros i b I. now apply rows_selected in I. }
  split; [exact S|]. split; [exact Len|].
  intros i b L. eexists. split; [apply (Rows i b L)|].
  destruct (bool_decide_reflect (i ∈ map fst (rows limit st))) as [I|I].
  - apply list_elem_of_fmap in I as ([i' b0] & E & I). simpl in E. subst i'.
    pose proof (rows_selected _ _ _ _ I) as [L0 U].
    assert (b0 = b) as -> by congruence.
    destruct (backfill_row_columns client b) as [C T].
    split; [exact C|]. split; [|auto].
    unfold uncategorised in U. intros T'. rewrite T' in U. discriminate.
  - split; [now destruct b|]. split; [reflexivity|].
    intros Le. destruct (truthy_opt (clc b)) eqn:T; [reflexivity|].
    exfalso. apply I. apply list_elem_of_fmap. exists (i, b).
    split; [reflexivity|]. apply rows_all; auto.
    unfold uncategorised. now rewrite T.
Qed.

End BackfillFacts.

(** ** scripts/import_from_csv.py: [_normalize] *)

Section CsvFacts.
Import Py Text Scripts.

Lemma contains_commas_cons a b r :
  contains (a :: b :: r) (u ",,")
  = (chr_eqb a (ch ",") && chr_eqb b (ch ",")) || contains (b :: r) (u ",,").
Proof.
  change (u ",,") with [44%N; 44%N]. change (ch ",") with 44%N.
  cbn [contains]. f_equal. unfold startswith, chr_eqb. cbn [strip_prefix].
  unfold chr_eqb. rewrite (N.eqb_sym 44%N a), (N.eqb_sym 44%N b).
  destruct (N.eqb a 44%N); [|reflexivity]. now destruct (N.eqb b 44%N).
Qed.

Lemma contains_commas_short a : contains [a] (u ",,") = false.
Proof.
  change (u ",,") with [44%N; 44%N]. unfold contains, startswith.
  cbn [strip_prefix]. destruct (chr_eqb 44%N a); reflexivity.
Qed.

(** A round of the loop only keeps characters, and shortens a text that
    has two commas in a row. *)
Lemma collapse_commas_round : forall n s,
  length s <= n ->
  (forall c, In c (collapse_commas s) -> In c s)
  /\ length (collapse_commas s) <= length s
  /\ (contains s (u ",,") = true ->
      length (collapse_commas s) < length s).
Proof.
  induction n as [|n IH]; intros s Len.
  { destruct s; [|simpl in Len; lia]. repeat split; auto. discriminate. }
  destruct s as [|a [|b r]].
  - repeat split; auto. discriminate.
  - repeat split; auto. now rewrite contains_commas_short.
  - rewrite contains_commas_cons. cbn [collapse_commas].
    destruct (chr_eqb a (ch ",") && chr_eqb b (ch ",")) eqn:E.
    + destruct (IH r) as (I & L & _); [simpl in Len; lia|].
      apply andb_prop in E as [Ea _]. apply N.eqb_eq in Ea. subst a.
      repeat split.
      * intros c [<-|Ic]; [now left|]. right. right. auto.
      * simpl. lia.
      * intros _. simpl. lia.
    + destruct (IH (b :: r)) as (I & L & Sh); [simpl in Len |- *; lia|].
      repeat split.
      * intros c [<-|Ic]; [now left|]. right. auto.
      * simpl in *. lia.
      * intros C. simpl in C. specialize (Sh C). simpl in *. lia.
Qed.

Lemma fold_commas_In c : forall fuel s,
  In c (fold_commas fuel s) -> In c s.
Proof.
  induction fuel as [|fuel IH]; intros s I; [exact I|]. simpl in I.
  destruct (contains s (u ",,")); [|exact I].
  apply IH in I. now apply (collapse_commas_round (length s) s).
Qed.

(** With the length of the text as fuel the loop runs to its end: no two
    commas in a row are left. *)
Lemma fold_commas_done : forall fuel s,
  length s <= fuel -> contains (fold_commas fuel s) (u ",,") = false.
Proof.
  induction fuel as [|fuel IH]; intros s Len.
  { destruct s; [reflexivity|simpl in Len; lia]. }
  simpl. destruct (contains s (u ",,")) eqn:C; [|exact C].
  apply IH.
  destruct (collapse_commas_round (length s) s) as (_ & _ & Sh); [lia|].
  specialize (Sh C). lia.
Qed.

(** More fuel than the length of the text changes nothing. *)
Lemma fold_commas_fuel : forall fuel fuel' s,
  length s <= fuel -> length s <= fuel' ->
  fold_commas fuel s = fold_commas fuel' s.
Proof.
  induction fuel as [|fuel IH]; intros fuel' s L L'.
  { destruct s; [|simpl in L; lia]. now destruct fuel'. }
  destruct fuel' as [|fuel'].
  { destruct s; [reflexivity|simpl in L'; lia]. }
  simpl. destruct (contains s (u ",,")) eqn:C; [|reflexivity].
  destruct (collapse_commas_round (length s) s) as (_ & _ & Sh); [lia|].
  specialize (Sh C). apply IH; lia.
Qed.

Lemma startswith_app a b sub :
  startswith a sub = true -> startswith (a ++ b) sub = true.
Proof.
  unfold startswith. revert a.
  induction sub as [|x sub IH]; intros a; [reflexivity|].
  destruct a as [|y a]; simpl; [discriminate|].
  destruct (chr_eqb x y); [apply IH|discriminate].
Qed.

Lemma contains_tail c s sub :
  contains (c :: s) sub = false -> contains s sub = false.
Proof. simpl. now intros [_ ?]%orb_false_elim. Qed.

Lemma contains_app_l a b sub :
  contains (a ++ b) sub = false -> contains a sub = false.
Proof.
  induction a as [|x a IH]; intros C.
  - simpl. rewrite orb_false_r. apply not_true_is_false. intros S.
    apply (startswith_app [] b) in S. simpl in S.
    destruct b; simpl in C; rewrite S in C; discriminate.
  - simpl in C |- *. apply orb_false_elim in C as [C1 C2].
    rewrite (IH C2), orb_false_r. apply not_true_is_false. intros S.
    apply (startswith_app (x :: a) b) in S. simpl in S. congruence.
Qed.

Lemma contains_drop_while p s sub :
  contains s sub = false -> contains (drop_while p s) sub = false.
Proof.
  induction s as [|c s IH]; intros C; [exact C|]. simpl drop_while.
  destruct (p c); [|exact C]. apply IH. eapply contains_tail, C.
Qed.

Lemma contains_strip_by p s sub :
  contains s sub = false -> contains (strip_by p s) sub = false.
Proof.
  intros C. unfold strip_by, lstrip_by.
  apply (contains_drop_while p) in C.
  rewrite (rstrip_by_prefix p (drop_while p s)) in C.
  now apply contains_app_l in C.
Qed.

(** X22. The result of [_normalize] holds none of the separators
    [; ； 、 / | ，], which have become commas, has no two commas in a
    row, and neither starts nor ends with a comma or a space. *)
Theorem csv_normalize_clean s :
  forallb (fun c => negb (one_of (u ";；、/|，") c)) (_normalize s) = true
  /\ contains (_normalize s) (u ",,") = false
  /\ trimmed_of (one_of (u ", ")) (_normalize s) = true.
Proof.
  unfold _normalize. cbv zeta. unfold strip_chars. split; [|split].
  - apply forallb_forall. intros c I.
    apply strip_by_In in I. apply fold_commas_In in I.
    cbn [fold_left] in I.
    assert (Comma : forall x, In x (u ",") ->
              negb (one_of (u ";；、/|，") x) = true).
    { intros x [<-|[]]. reflexivity. }
    apply replace_char_In in I as [I|[I N1]]; [now apply Comma|].
    apply replace_char_In in I as [I|[I N2]]; [now apply Comma|].
    apply replace_char_In in I as [I|[I N3]]; [now apply Comma|].
    apply replace_char_In in I as [I|[I N4]]; [now apply Comma|].
    apply replace_char_In in I as [I|[I N5]]; [now apply Comma|].
    apply replace_char_In in I as [I|[I N6]]; [now apply Comma|].
    apply negb_true_iff. unfold one_of, chr_eqb. simpl existsb.
    repeat match goal with
           | N : c <> _ |- _ => apply N.eqb_neq in N; vm_compute in N
           end.
    repeat match goal with
           | |- context [N.eqb c ?k] =>
             let E := fresh in
             destruct (N.eqb c k) eqn:E; [vm_compute in E; congruence|]
           end.
    reflexivity.
  - apply contains_strip_by. now apply fold_commas_done.
  - apply strip_by_trimmed.
Qed.

End CsvFacts.

(** ** The ISBN of the query and the detail that is written *)

Section GuardFacts.
Import Py Base Db Pipeline Notions DbNotions IsbnNotions.
Context `{UCD}.

(** A detail that passes the guard carries, after the backfill, the ISBN
    of the query, hyphens and case apart. *)
Lemma guard_agrees isbn_input detail :
  truthy_opt isbn_input = true ->
  isbn_mismatch isbn_input detail = false ->
  isbn_fold (or_empty (d_isbn (backfill_isbn isbn_input detail)))
  = isbn_fold (or_empty isbn_input).
Proof.
  intros T M. unfold isbn_mismatch, backfill_isbn in *. rewrite T in *.
  destruct (truthy_opt (d_isbn detail)); simpl in *; [|reflexivity].
  apply negb_false_iff in M. unfold str_eqb in M.
  now apply bool_decide_eq_true in M.
Qed.

(** The provider loop leaves the committed database as it found it, or
    commits the transaction of a detail that passed the guard. *)
Lemma provider_loop_guarded w isbn_input candidates providers :
  forall n s,
    let r := provider_loop w isbn_input candidates n providers s in
    committed (fst r) = committed s
    \/ exists p detail,
         In p providers
         /\ isbn_mismatch isbn_input detail = false
         /\ committed (fst r)
            = fst (ingest w p (backfill_isbn isbn_input detail) (committed s)).
Proof.
  induction providers as [|p later IH]; intros n s; simpl; [now left|].
  assert (Next : forall s', committed s' = committed s ->
    let r := provider_loop w isbn_input candidates (S n) later s' in
    committed (fst r) = committed s
    \/ exists p0 detail,
         (p = p0 \/ In p0 later)
         /\ isbn_mismatch isbn_input detail = false
         /\ committed (fst r)
            = fst (ingest w p0 (backfill_isbn isbn_input detail) (committed s))).
  { intros s' E. destruct (IH (S n) s') as [C|(p0 & d0 & I & G & C)].
    - left. now rewrite <- E.
    - right. exists p0, d0. rewrite <- E. auto. }
  destruct (fetch_detail p isbn_input candidates) as [[detail|]|e];
    [|now apply Next|now apply Next].
  destruct (isbn_mismatch isbn_input detail) eqn:G; [now apply Next|].
  unfold with_transaction. destruct (pending s) eqn:P; [now left|].
  destruct (db_fault w n) as [e|].
  - destruct e; try (now left).
    destruct (truthy_opt (d_isbn (backfill_isbn isbn_input detail)));
      [|now apply Next].
    simpl. destruct (first_by_isbn _ _) as [[j existing]|]; [now left|].
    now apply Next.
  - destruct (ingest w p (backfill_isbn isbn_input detail) (committed s))
      as [st bid] eqn:I.
    right. exists p, detail. rewrite I. auto.
Qed.

(** X23. When the query holds an ISBN, a resolution writes nothing or
    writes the transaction of a detail that carries this ISBN, hyphens
    and case apart. *)
Theorem search_and_ingest_isbn_agrees w providers query db i :
  Utils.find_isbn query = Some i ->
  let r := search_and_ingest w providers query db in
  fst r = db
  \/ exists p detail,
       In p providers
       /\ fst r = fst (ingest w p detail db)
       /\ isbn_fold (or_empty (d_isbn detail)) = isbn_fold i.
Proof.
  intros F.
  assert (T : truthy_opt (Some i) = true).
  { apply (find_isbn_nonempty _ _ F). }
  unfold search_and_ingest. rewrite F.
  destruct (Nlp.split_title_author (ner_backend w) query) as [title authors].
  cbv zeta.
  match goal with |- context [provider_loop ?w ?i ?c ?n ?ps ?s] =>
    pose proof (provider_loop_guarded w i c ps n s) as L;
    destruct (provider_loop w i c n ps s) as [s' res]
  end.
  cbv zeta in L. cbn [fst snd committed rollback] in *.
  destruct L as [L|(p & d & I & G & L)]; [now left|right].
  exists p, (backfill_isbn (Some i) d). split; [assumption|].
  split; [assumption|]. now apply (guard_agrees (Some i) d).
Qed.

End GuardFacts.

(** ** The transaction of an accepted detail *)

Section TransactionFacts.
Import Py Base Db Pipeline Notions DbNotions ResolutionNotions.
Context `{UCD}.

Lemma settled_merged w d x old :
  fields_merged d old x -> fields_merged d old (settled w d x).
Proof. rewrite (settled_columns w d x). exact (fun M => M). Qed.

Lemma overwrite_merged d old : fields_merged d old (overwrite d old).
Proof. unfold fields_merged. simpl. repeat split. Qed.

(** What the body of a transaction leaves is what the claim calls
    persisted. *)
Lemma ingest_persisted w p d st :
  persisted w p d st (fst (ingest w p d st)) (snd (ingest w p d st)).
Proof.
  rewrite ingest_settled. unfold persisted, reconciled.
  destruct (stripped_or_none (d_isbn d)) as [k|] eqn:K.
  - destruct (first_by_isbn k st) as [[j old]|] eqn:F.
    + rewrite (reconcile_found d st k j old K F). cbn [fst snd].
      pose proof (first_by_isbn_lookup _ _ _ _ F) as [L _].
      apply lookup_lt_Some in L.
      exists j, (settled w d (overwrite d old)).
      cbn [write_book add_source books sources].
      split; [reflexivity|]. split.
      { rewrite list_insert_insert_eq. now apply list_lookup_insert_eq. }
      split; [split; [reflexivity|apply settled_merged, overwrite_merged]|].
      split; [apply settled_clc|]. split; [|reflexivity].
      intros i N. rewrite list_insert_insert_eq.
      now rewrite list_lookup_insert_ne by auto.
    + pose proof (reconcile_created d st k K F) as C. cbv zeta in C.
      rewrite C. cbn [fst snd].
      set (b := overwrite d
                  (new_book_with_isbn k d (next_key (map id (books st))))).
      exists (length (books st)), (settled w d b).
      cbn [write_book add_source books sources]. rewrite insert_last.
      split; [reflexivity|]. split.
      { rewrite lookup_app_r by lia. now rewrite Nat.sub_diag. }
      split.
      { split; [reflexivity|]. split; [now rewrite settled_isbn|].
        apply settled_merged, overwrite_merged. }
      split; [apply settled_clc|]. split; [|reflexivity].
      intros i N. destruct (Nat.lt_ge_cases i (length (books st))).
      * now rewrite lookup_app_l by lia.
      * rewrite !lookup_ge_None_2; [reflexivity|lia|].
        rewrite length_app. simpl. lia.
  - rewrite (reconcile_no_isbn d st K). unfold add_book. cbn [fst snd].
    set (b := new_book_without_isbn d (next_key (map id (books st)))).
    exists (length (books st)), (settled w d b).
    cbn [write_book add_source books sources]. rewrite insert_last.
    split; [reflexivity|]. split.
    { rewrite lookup_app_r by lia. now rewrite Nat.sub_diag. }
    split; [split; [reflexivity|apply settled_columns]|].
    split; [apply settled_clc|]. split; [|reflexivity].
    intros i N. destruct (Nat.lt_ge_cases i (length (books st))).
    + now rewrite lookup_app_l by lia.
    + rewrite !lookup_ge_None_2; [reflexivity|lia|].
      rewrite length_app. simpl. lia.
Qed.

(** The step of the loop at a provider whose detail is accepted. *)
Lemma accepted_step w isbn_input candidates n p rest s detail0 :
  fetch_detail p isbn_input candidates = Ok (Some detail0) ->
  isbn_mismatch isbn_input detail0 = false ->
  pending s = None ->
  let detail := backfill_isbn isbn_input detail0 in
  provider_loop w isbn_input candidates n (p :: rest) s
  = match db_fault w n with
    | None =>
      (Session (fst (ingest w p detail (committed s))) None,
       Ok (Some (snd (ingest w p detail (committed s)))))
    | Some IntegrityError =>
      if truthy_opt (d_isbn detail) then
        match first_by_isbn (or_empty (d_isbn detail)) (committed s) with
        | Some (_, existing) =>
          (Session (committed s) (Some (committed s)),
           Ok (Some (id existing)))
        | None =>
          provider_loop w isbn_input candidates (S n) rest
            (Session (committed s) (Some (committed s)))
        end
      else
        provider_loop w isbn_input candidates (S n) rest
          (Session (committed s) None)
    | Some e => (Session (committed s) None, Raise e)
    end.
Proof.
  intros F M P. cbv zeta. cbn [provider_loop]. rewrite F, M.
  unfold with_transaction. rewrite P.
  destruct (db_fault w n) as [[]|].
  - unfold rollback, autobegin. cbn [committed pending].
    destruct (truthy_opt (d_isbn (backfill_isbn isbn_input detail0)));
      [|reflexivity].
    now destruct (first_by_isbn _ _) as [[j existing]|].
  - reflexivity.
  - reflexivity.
  - now destruct (ingest w p (backfill_isbn isbn_input detail0) (committed s)).
Qed.

(** The loop passes over the providers that give nothing to write. *)
Lemma provider_loop_passes w isbn_input candidates rest db :
  forall before n,
    (forall q, In q before ->
       forall detail,
         fetch_detail q isbn_input candidates = Ok (Some detail) ->
         isbn_mismatch isbn_input detail = true) ->
    provider_loop w isbn_input candidates n (before ++ rest) (Session db None)
    = provider_loop w isbn_input candidates (n + length before) rest
        (Session db None).
Proof.
  induction before as [|q before IH]; intros n T.
  { simpl. now rewrite Nat.add_0_r. }
  cbn [app provider_loop length]. rewrite Nat.add_succ_r.
  assert (T' : forall q0, In q0 before ->
            forall detail,
              fetch_detail q0 isbn_input candidates = Ok (Some detail) ->
              isbn_mismatch isbn_input detail = true)
    by (intros q0 I; apply T; now right).
  pose proof (T q (or_introl eq_refl)) as Tq.
  destruct (fetch_detail q isbn_input candidates) as [[detail|]|e].
  - rewrite (Tq detail eq_refl). now apply (IH (S n)).
  - now apply (IH (S n)).
  - now apply (IH (S n)).
Qed.

Lemma search_and_ingest_from w providers query db :
  search_and_ingest w providers query db
  = resolution_from w query 0 providers (Session db None).
Proof.
  unfold search_and_ingest, resolution_from, search_candidates.
  destruct (Nlp.split_title_author (ner_backend w) query) as [title authors].
  cbv zeta.
  now destruct (provider_loop _ _ _ _ _ _) as [s res].
Qed.

(** C9. For an accepted detail the reconciled row, its category code and
    the provenance row are written by one transaction. When the providers
    before [p] give nothing to write and the detail of [p] is accepted:
    if the database accepts the transaction, the resolution returns a key
    and everything is persisted (the reconciled row is stored under that
    key, with a category code, the other rows are as they were, and the
    provenance table has one row more, for that key, this provider and
    this detail); if the database refuses it, nothing of it is persisted
    (the resolution raises with the database as it was or, after an
    integrity error, returns the key of the stored book with that ISBN or
    goes on with the next provider, from the database as it was). A
    resolution that raises leaves the database as it was. The same holds
    for an accepted detail wherever the loop comes to it with no
    transaction begun. *)
Theorem resolution_is_one_transaction
    w providers query db before p later detail0 :
  providers = before ++ p :: later ->
  (forall q, In q before -> turned_down w query q) ->
  accepted w query p detail0 ->
  let detail := backfill_isbn (Utils.find_isbn query) detail0 in
  let r := search_and_ingest w providers query db in
  (* the resolution *)
  match db_fault w (length before) with
  | None =>
    exists book_id,
      snd r = Ok (Some book_id) /\ persisted w p detail db (fst r) book_id
  | Some IntegrityError =>
    match (if truthy_opt (d_isbn detail)
           then first_by_isbn (or_empty (d_isbn detail)) db else None) with
    | Some (_, existing) => r = (db, Ok (Some (id existing)))
    | None =>
      exists s,
        committed s = db
        /\ r = resolution_from w query (S (length before)) later s
    end
  | Some e => r = (db, Raise e)
  end
  /\ (forall e, snd r = Raise e -> fst r = db)
  (* the transaction, wherever the loop makes it *)
  /\ forall n s rest,
       pending s = None ->
       let t :=
         provider_loop w (Utils.find_isbn query) (search_candidates w query)
                       n (p :: rest) s in
       match db_fault w n with
       | None =>
         pending (fst t) = None
         /\ exists book_id,
              snd t = Ok (Some book_id)
              /\ persisted w p detail (committed s) (committed (fst t))
                   book_id
       | Some e =>
         exists s',
           committed s' = committed s
           /\ (t = (s', Raise e)
               \/ (exists existing,
                     existing ∈ books (committed s)
                     /\ t = (s', Ok (Some (id existing))))
               \/ t = provider_loop w (Utils.find_isbn query)
                        (search_candidates w query) (S n) rest s')
       end.
Proof.
  intros -> T [F M]. cbv zeta. split; [|split].
  - rewrite search_and_ingest_from. unfold resolution_from.
    rewrite (provider_loop_passes w _ _ (p :: later) db before 0 T).
    rewrite (accepted_step w _ _ _ p later (Session db None) detail0 F M
               eq_refl).
    cbn [Nat.add committed].
    destruct (db_fault w (length before)) as [[]|].
    + destruct (truthy_opt (d_isbn _)).
      * destruct (first_by_isbn _ db) as [[j existing]|]; [reflexivity|].
        exists (Session db (Some db)). split; reflexivity.
      * exists (Session db None). split; reflexivity.
    + reflexivity.
    + reflexivity.
    + cbn [fst snd rollback committed]. eexists. split; [reflexivity|].
      apply ingest_persisted.
  - intros e R.
    destruct (search_and_ingest_commits w (before ++ p :: later) query db)
      as [[E _]|(p0 & d & _ & _ & R')]; [exact E|].
    rewrite R' in R. discriminate R.
  - intros n s rest P.
    rewrite (accepted_step w _ _ n p rest s detail0 F M P).
    destruct (db_fault w n) as [[]|].
    + destruct (truthy_opt (d_isbn _)).
      * destruct (first_by_isbn _ (committed s)) as [[j existing]|] eqn:L.
        -- exists (Session (committed s) (Some (committed s))).
           split; [reflexivity|]. right. left. exists existing.
           split; [|reflexivity].
           apply first_by_isbn_lookup in L as [L _].
           eapply list_elem_of_lookup_2, L.
        -- exists (Session (committed s) (Some (committed s))).
           split; [reflexivity|]. right. right. reflexivity.
      * exists (Session (committed s) None).
        split; [reflexivity|]. right. right. reflexivity.
    + exists (Session (committed s) None). split; [reflexivity|now left].
    + exists (Session (committed s) None). split; [reflexivity|now left].
    + cbn [fst snd committed pending]. split; [reflexivity|].
      eexists. split; [reflexivity|]. apply ingest_persisted.
Qed.

End TransactionFacts.

(** ** The further theorems at concrete inputs *)

Section MoreInstances.
Import Py Re Utils Nlp Classify Base Db Pipeline Cjk Notions Examples.
Import Text IsbnNotions NlpNotions ClassifyNotions DbNotions.
Import ResolutionNotions.

Lemma find_isbn_shape_witness :
  (exists pre post,
     unhyphenated (u "红楼梦 978-7-02-000220-7") = pre ++ honglou ++ post)
  /\ isbn_shape honglou = true.
Proof.
  apply (find_isbn_shape (u "红楼梦 978-7-02-000220-7") honglou).
  vm_compute. reflexivity.
Defined.

Lemma find_isbn_leading_13_witness :
  find_isbn (u "978-7-02-000220-7 红楼梦")
  = Some (u "97" ++ ch "8" :: u "7020002207").
Proof.
  apply (find_isbn_leading_13 (u "978-7-02-000220-7 红楼梦") (ch "8")
           (u "7020002207") (u "红楼梦")); vm_compute; reflexivity.
Defined.

Lemma split_title_author_blank_witness :
  split_title_author None (u "  　 ") = ([], []).
Proof.
  apply (split_title_author_blank None (u "  　 ")). vm_compute. reflexivity.
Defined.

Lemma split_title_author_no_person_witness :
  split_title_author (Some (HanLP (fun _ => Some []))) (u "红楼梦 曹雪芹 著")
  = split_title_author None (u "红楼梦 曹雪芹 著").
Proof.
  apply (split_title_author_no_person (HanLP (fun _ => Some []))
           (u "红楼梦 曹雪芹 著")).
  intros text. reflexivity.
Defined.

Lemma classify_rule_based_no_hit_witness :
  classify_rule_based (u "xyz") None None
  = (u "A", u "马克思主义、列宁主义、毛泽东思想、邓小平理论", 0.55%float, u "rule").
Proof.
  apply (classify_rule_based_no_hit (u "xyz") None None).
  - vm_compute. reflexivity.
  - intros code I.
    assert (F : forallb (fun code =>
                  Nat.eqb (hits (blob (u "xyz") None None) code) 0)
                (map fst KEYWORDS) = true) by (vm_compute; reflexivity).
    rewrite forallb_forall in F. now apply Nat.eqb_eq, F.
Defined.

Lemma classify_rule_based_one_category_witness :
  classify_rule_based (u "神经科学") None None
  = (u "Q", _label (u "Q"),
     confidence_for (hits (blob (u "神经科学") None None) (u "Q")), u "rule")
  /\ In (u "Q", _label (u "Q")) CLC_LABELS.
Proof.
  apply (classify_rule_based_one_category (u "神经科学") None None (u "Q")).
  - vm_compute. reflexivity.
  - apply list_elem_of_In, (bool_decide_unpack _). vm_compute. reflexivity.
  - vm_compute. apply le_n.
  - intros other I N.
    assert (F : forallb (fun code =>
                  str_eqb code (u "Q")
                  || Nat.eqb (hits (blob (u "神经科学") None None) code) 0)
                (map fst KEYWORDS) = true) by (vm_compute; reflexivity).
    rewrite forallb_forall in F. specialize (F other I).
    apply orb_prop in F as [F|F].
    + unfold str_eqb in F. apply bool_decide_eq_true in F. contradiction.
    + now apply Nat.eqb_eq.
Defined.

Lemma search_and_ingest_keeps_schema_witness :
  schema (fst (search_and_ingest (world_saving None)
                 [answers (u "douban")
                    (detail_of (u "红楼梦") (Some honglou) (Some (u "B")) None)]
                 honglou shelf)).
Proof.
  apply (search_and_ingest_keeps_schema (world_saving None)
           [answers (u "douban")
              (detail_of (u "红楼梦") (Some honglou) (Some (u "B")) None)]
           honglou shelf).
  split; [split|split].
  - apply NoDup_singleton.
  - apply NoDup_nil_2.
  - apply NoDup_singleton.
  - intros src I. now apply elem_of_nil in I.
Defined.

Lemma search_and_ingest_keeps_rows_witness :
  exists b',
    books (fst (search_and_ingest (world_saving None)
                  [answers (u "douban")
                     (detail_of (u "红楼梦") (Some honglou) (Some (u "B")) None)]
                  honglou shelf)) !! 0 = Some b'
    /\ id b' = id shelved /\ isbn b' = isbn shelved
    /\ (truthy_opt (clc shelved) = true -> clc b' = clc shelved).
Proof.
  exact (proj1 (search_and_ingest_keeps_rows (world_saving None)
                  [answers (u "douban")
                     (detail_of (u "红楼梦") (Some honglou) (Some (u "B")) None)]
                  honglou shelf 0 shelved eq_refl)).
Defined.

Lemma search_and_ingest_returns_stored_witness :
  exists b,
    b ∈ books (fst (search_and_ingest (world_saving None)
                      [answers (u "douban")
                         (detail_of (u "红楼梦") (Some honglou) None None)]
                      honglou (Store [] [])))
    /\ id b = 1%N.
Proof.
  apply (search_and_ingest_returns_stored (world_saving None)
           [answers (u "douban")
              (detail_of (u "红楼梦") (Some honglou) None None)]
           honglou (Store [] []) 1%N).
  vm_compute. reflexivity.
Defined.

Lemma search_and_ingest_never_raises_witness :
  exists o,
    snd (search_and_ingest (world_saving None)
           [answers (u "douban")
              (detail_of (u "红楼梦") (Some honglou) None None)]
           honglou shelf) = Ok o.
Proof.
  apply (search_and_ingest_never_raises (world_saving None)).
  intros n. reflexivity.
Defined.

Lemma search_and_ingest_nothing_found_witness :
  search_and_ingest (world_saving None)
    [ {| site := u "douban";
         get_by_isbn := Some (fun _ => Raise OtherError);
         search := Some (fun _ => Raise OtherError);
         get_detail := None |};
      {| site := u "jd"; get_by_isbn := None;
         search := Some (fun _ => Ok []); get_detail := None |} ]
    honglou shelf
  = (shelf, Ok None).
Proof.
  apply (search_and_ingest_nothing_found (world_saving None)).
  intros p [<-|[<-|[]]] isbn_input candidates d E.
  - unfold fetch_detail in E. simpl in E.
    destruct (truthy_opt isbn_input); [discriminate|].
    destruct candidates; simpl in E; discriminate.
  - unfold fetch_detail in E. simpl in E.
    induction candidates as [|q more IH]; simpl in E; [discriminate|auto].
Defined.


Lemma search_and_ingest_isbn_agrees_witness :
  let r := search_and_ingest (world_saving None)
             [answers (u "jd")
                (detail_of (u "红楼梦") (Some (u "978-7-02-000220-7")) None None)]
             honglou (Store [] []) in
  fst r = Store [] []
  \/ exists p detail,
       In p [answers (u "jd")
               (detail_of (u "红楼梦") (Some (u "978-7-02-000220-7")) None None)]
       /\ fst r = fst (ingest (world_saving None) p detail (Store [] []))
       /\ isbn_fold (or_empty (d_isbn detail)) = isbn_fold honglou.
Proof.
  apply (search_and_ingest_isbn_agrees (world_saving None)
           [answers (u "jd")
              (detail_of (u "红楼梦") (Some (u "978-7-02-000220-7")) None None)]
           honglou (Store [] []) honglou).
  vm_compute. reflexivity.
Defined.

Lemma resolution_is_one_transaction_witness :
  exists book_id,
    snd (search_and_ingest (world_saving None)
           [answers (u "douban")
              (detail_of (u "另一本书") (Some (u "9787020002201")) None None);
            answers (u "jd")
              (detail_of (u "红楼梦") (Some (u "978-7-02-000220-7")) None None)]
           honglou shelf) = Ok (Some book_id)
    /\ persisted (world_saving None)
         (answers (u "jd")
            (detail_of (u "红楼梦") (Some (u "978-7-02-000220-7")) None None))
         (backfill_isbn (find_isbn honglou)
            (detail_of (u "红楼梦") (Some (u "978-7-02-000220-7")) None None))
         shelf
         (fst (search_and_ingest (world_saving None)
                 [answers (u "douban")
                    (detail_of (u "另一本书") (Some (u "9787020002201")) None
                       None);
                  answers (u "jd")
                    (detail_of (u "红楼梦") (Some (u "978-7-02-000220-7")) None
                       None)]
                 honglou shelf))
         book_id.
Proof.
  refine (proj1 (resolution_is_one_transaction (world_saving None)
                   [answers (u "douban")
                      (detail_of (u "另一本书") (Some (u "9787020002201")) None
                         None);
                    answers (u "jd")
                      (detail_of (u "红楼梦") (Some (u "978-7-02-000220-7"))
                         None None)]
                   honglou shelf
                   [answers (u "douban")
                      (detail_of (u "另一本书") (Some (u "9787020002201")) None
                         None)]
                   (answers (u "jd")
                      (detail_of (u "红楼梦") (Some (u "978-7-02-000220-7"))
                         None None))
                   []
                   (detail_of (u "红楼梦") (Some (u "978-7-02-000220-7")) None
                      None)
                   eq_refl _ _)).
  - intros q [<-|[]] detail E. vm_compute in E. injection E as <-.
    vm_compute. reflexivity.
  - split; vm_compute; reflexivity.
Defined.

End MoreInstances.
